(** * NetUtils: a shallow embedding of [NetUtils.py]

  Embedded are the wire codec ([_scan_for_TypedTuples] and [encode] down to
  the tree the JSON encoder serializes; [_object_hook], [get_any_version] and
  [decode] from the parse tree on), the rich-text renderer
  ([JSONtoTextParser] and its raw variant), the [add_json_] helpers, [Hint]
  with its network message, the triggerable hints with their release state
  machine, their triggers and indexes, and the pure Python [_LocationStore].

  Integers are [Z], strings are [string], sets of integers are [gset Z],
  dictionaries that are only indexed are [gmap], dictionaries that are
  iterated keep their insertion order as association lists ([PyDict]).  A
  Python call that may raise returns a [result]: either [Ok v] or [Raise e];
  a call that changes the context returns the new context, and the state at
  the point of an exception is not kept. *)

From Stdlib Require Import ZArith Lia Ascii String.
From stdpp Require Import base option list gmap strings sorting pretty.

Set Warnings "-register-all".

Local Open Scope string_scope.
Local Open Scope Z_scope.

(** ** Exceptions and the error monad *)

(** [RecursionError] is what a function with fuel returns when the fuel is
  used up; the other exceptions are raised by the program. *)
Inductive PyExc : Type :=
| KeyError (key : string)
| ValueError (msg : string)
(** [ValueError: invalid literal for int() with base 10: ] followed by the
  [repr] of the string that was given *)
| ValueError_invalid_literal (literal : string)
| TypeError (msg : string)
| TypeError_unhashable (type_name : string)
| TypeError_missing_arguments (cls : string) (missing : list string)
| AttributeError (msg : string)
| RecursionError
| Exception (msg : string).

Inductive result (A : Type) : Type :=
| Ok (a : A)
| Raise (e : PyExc).
Arguments Ok {A} a.
Arguments Raise {A} e.

#[global] Instance result_ret : MRet result := λ A a, Ok a.
#[global] Instance result_bind : MBind result := λ A B f m,
match m with
| Ok a => f a
| Raise e => Raise e
end.
#[global] Instance result_fmap : FMap result := λ A B f m,
match m with
| Ok a => Ok (f a)
| Raise e => Raise e
end.

Definition raises {A} (m : result A) : Prop := ∃ e, m = Raise e.

(** [d[k]] on a dictionary modelled by a lookup into an option. *)
Definition getitem {A} (key : string) (o : option A) : result A :=
match o with
| Some a => Ok a
| None => Raise (KeyError key)
end.

(** [for x in l: acc = f(acc, x)] where [f] may raise. *)
Fixpoint foldM {A B} (f : B → A → result B) (acc : B) (l : list A) : result B :=
match l with
| [] => Ok acc
| x :: l' => acc' ← f acc x; foldM f acc' l'
end.

(** [[f(x) for x in l]] where [f] may raise. *)
Fixpoint mapM_result {A B} (f : A → result B) (l : list A) : result (list B) :=
match l with
| [] => Ok []
| x :: l' => y ← f x; ys ← mapM_result f l'; Ok (y :: ys)
end.

(** ** Insertion-ordered dictionaries *)

Module PyDict.
Abbreviation t K V := (list (K * V)).

Section dict.
Context {K V : Type} `{EqDecision K}.

Definition keys (d : t K V) : list K := d.*1.

Fixpoint get (d : t K V) (k : K) : option V :=
  match d with
  | [] => None
  | (k', v) :: d' => if decide (k' = k) then Some v else get d' k
  end.

(** [d[k] = v]: an existing key keeps its position. *)
Fixpoint set (d : t K V) (k : K) (v : V) : t K V :=
  match d with
  | [] => [(k, v)]
  | (k', v') :: d' =>
      if decide (k' = k) then (k, v) :: d' else (k', v') :: set d' k v
  end.

(** [del d[k]] for a key that is present. *)
Fixpoint del (d : t K V) (k : K) : t K V :=
  match d with
  | [] => []
  | (k', v') :: d' => if decide (k' = k) then d' else (k', v') :: del d' k
  end.

(** [dict(pairs)]: later pairs overwrite earlier ones. *)
Definition of_pairs (l : list (K * V)) : t K V :=
  foldl (λ d kv, set d kv.1 kv.2) [] l.
End dict.
End PyDict.

(** ** Strings and integers the way Python reads and prints them *)

(** [str(n)] for an integer. *)
Definition py_str (n : Z) : string := pretty n.

Definition lower_ascii (c : ascii) : ascii :=
let n := nat_of_ascii c in
if bool_decide (65 ≤ n ≤ 90)%nat then ascii_of_nat (n + 32) else c.

(** [s.lower()], on the ASCII range. *)
Fixpoint lower (s : string) : string :=
match s with
| EmptyString => EmptyString
| String c s' => String (lower_ascii c) (lower s')
end.

(** The characters that [int(s)] skips around the number in a string of ASCII
  characters: tab, line feed, vertical tab, form feed, carriage return and
  space. *)
Definition is_space (c : ascii) : bool :=
let n := nat_of_ascii c in
bool_decide (9 ≤ n ≤ 13)%nat || bool_decide (n = 32)%nat.

Fixpoint lstrip (l : list ascii) : list ascii :=
match l with
| c :: l' => if is_space c then lstrip l' else l
| [] => []
end.

Definition strip (l : list ascii) : list ascii :=
rev (lstrip (rev (lstrip l))).

Definition digit_of (c : ascii) : option Z :=
let n := nat_of_ascii c in
if bool_decide (48 ≤ n ≤ 57)%nat then Some (Z.of_nat n - 48) else None.

(** Decimal digits, single underscores allowed between two digits. *)
Fixpoint parse_digits (l : list ascii) (acc : Z) (after_digit : bool) : option Z :=
match l with
| [] => if after_digit then Some acc else None
| c :: l' =>
    match digit_of c with
    | Some d => parse_digits l' (10 * acc + d) true
    | None =>
        if bool_decide (c = "_"%char) && after_digit
        then parse_digits l' acc false
        else None
    end
end.

(** [int(s)] for a string of ASCII characters, base ten.  (A string with
  other characters has its Unicode spaces and digits transliterated first,
  which is not modelled; nor is the limit some interpreters put on the
  number of digits.) *)
Definition py_int_of_string (s : string) : result Z :=
let parsed :=
  match strip (list_ascii_of_string s) with
  | "-"%char :: l => Z.opp <$> parse_digits l 0 false
  | "+"%char :: l => parse_digits l 0 false
  | l => parse_digits l 0 false
  end in
match parsed with
| Some n => Ok n
| None => Raise (ValueError_invalid_literal s)
end.

(** [sep.join(l)] *)
Fixpoint join (sep : string) (l : list string) : string :=
match l with
| [] => ""
| [x] => x
| x :: l' => x ++ sep ++ join sep l'
end.

(** [s.split(sep)] for a one-character separator. *)
Fixpoint split (sep : ascii) (s : string) : list string :=
match s with
| EmptyString => [""]
| String c s' =>
    if bool_decide (c = sep) then "" :: split sep s'
    else
      match split sep s' with
      | w :: ws => String c w :: ws
      | [] => [String c ""]
      end
end.

(** ** Wire codec: decoding *)

(** The values the JSON decoder builds.  JSON numbers are integers here;
  [VNamedTuple] is an instance of a [typing.NamedTuple] class. *)
Inductive pyval : Type :=
| VNone
| VBool (b : bool)
| VInt (n : Z)
| VStr (s : string)
| VList (l : list pyval)
| VTuple (l : list pyval)
| VDict (d : list (string * pyval))
| VNamedTuple (cls : string) (fields : list pyval).

Abbreviation pydict := (PyDict.t string pyval).

(** The type name that [hash(v)] rejects, if any. *)
Fixpoint unhashable_type (v : pyval) : option string :=
match v with
| VList _ => Some "list"
| VDict _ => Some "dict"
| VTuple l | VNamedTuple _ l =>
    (fix go (l : list pyval) : option string :=
       match l with
       | [] => None
       | x :: l' =>
           match unhashable_type x with
           | Some ty => Some ty
           | None => go l'
           end
       end) l
| _ => None
end.

(** [table.get(key, None)] for a dictionary with string keys. *)
Definition table_get {A} (table : PyDict.t string A) (key : pyval) : result (option A) :=
match unhashable_type key with
| Some ty => Raise (TypeError_unhashable ty)
| None =>
    Ok (match key with
        | VStr s => PyDict.get table s
        | _ => None
        end)
end.

Record NamedTupleClass : Type := {
  __name__ : string;
  _fields : list string;
  _field_defaults : pydict
}.

Definition NetworkPlayer : NamedTupleClass :=
{| __name__ := "NetworkPlayer";
   _fields := ["team"; "slot"; "alias"; "name"];
   _field_defaults := [] |}.

Definition NetworkSlot : NamedTupleClass :=
{| __name__ := "NetworkSlot";
   _fields := ["name"; "game"; "type"; "group_members"];
   _field_defaults := [("group_members", VTuple [])] |}.

Definition NetworkItem : NamedTupleClass :=
{| __name__ := "NetworkItem";
   _fields := ["item"; "location"; "player"; "flags"];
   _field_defaults := [("flags", VInt 0)] |}.

(** Calling the class with the keyword arguments [kwargs]. *)
Definition namedtuple_new (cls : NamedTupleClass) (kwargs : pydict) : result pyval :=
match filter (λ key, key ∉ _fields cls) (PyDict.keys kwargs) with
| key :: _ =>
    Raise (TypeError (__name__ cls ++ ".__new__() got an unexpected keyword argument " ++ key))
| [] =>
    match filter (λ f, PyDict.get kwargs f = None ∧ PyDict.get (_field_defaults cls) f = None)
                 (_fields cls) with
    | [] =>
        Ok (VNamedTuple (__name__ cls)
              (map (λ f, default (default VNone (PyDict.get (_field_defaults cls) f))
                                 (PyDict.get kwargs f))
                   (_fields cls)))
    | missing => Raise (TypeError_missing_arguments (__name__ cls) missing)
    end
end.

(** [int(v)] *)
Definition py_int (v : pyval) : result Z :=
match v with
| VInt n => Ok n
| VBool b => Ok (if b then 1 else 0)
| VStr s => py_int_of_string s
| _ => Raise (TypeError "int() argument must be a string, a bytes-like object or a real number")
end.

(** [Utils.Version] is a named tuple of three integers. *)
Definition get_any_version (data : pydict) : result pyval :=
let data := PyDict.of_pairs (map (λ kv, (lower kv.1, kv.2)) data) in
major ← getitem "major" (PyDict.get data "major") ≫= py_int;
minor ← getitem "minor" (PyDict.get data "minor") ≫= py_int;
build ← getitem "build" (PyDict.get data "build") ≫= py_int;
Ok (VNamedTuple "Version" [VInt major; VInt minor; VInt build]).

Definition allowlist : PyDict.t string NamedTupleClass :=
[ ("NetworkPlayer", NetworkPlayer);
  ("NetworkItem", NetworkItem);
  ("NetworkSlot", NetworkSlot) ].

Definition custom_hooks : PyDict.t string (pydict → result pyval) :=
[ ("Version", get_any_version) ].

Definition _object_hook (o : pyval) : result pyval :=
match o with
| VDict d =>
    hook ← table_get custom_hooks (default VNone (PyDict.get d "class"));
    match hook with
    | Some hook => hook d
    | None =>
        cls ← table_get allowlist (default VNone (PyDict.get d "class"));
        match cls with
        | Some cls =>
            let d' :=
              foldl (λ d key, if bool_decide (key ∉ _fields cls) then PyDict.del d key else d)
                    d (PyDict.keys d) in
            namedtuple_new cls d'
        | None => Ok o
        end
    end
| _ => Ok o
end.

(** A parsed JSON document, before the object hook runs. *)
Inductive json : Type :=
| JNull
| JBool (b : bool)
| JInt (n : Z)
| JStr (s : string)
| JArr (l : list json)
| JObj (members : list (string * json)).

(** [decode], from the parse tree on: the hook runs on every object once its
  members are decoded, innermost first. *)
Fixpoint decode (j : json) : result pyval :=
match j with
| JNull => Ok VNone
| JBool b => Ok (VBool b)
| JInt n => Ok (VInt n)
| JStr s => Ok (VStr s)
| JArr l =>
    VList <$>
    (fix go (l : list json) : result (list pyval) :=
       match l with
       | [] => Ok []
       | x :: l' => v ← decode x; vs ← go l'; Ok (v :: vs)
       end) l
| JObj members =>
    pairs ←
    (fix go (l : list (string * json)) : result (list (string * pyval)) :=
       match l with
       | [] => Ok []
       | (k, x) :: l' => v ← decode x; vs ← go l'; Ok ((k, v) :: vs)
       end) members;
    _object_hook (VDict (PyDict.of_pairs pairs))
end.

(** ** Rich-text renderer *)

(** [JSONMessagePart] is a [TypedDict] with [total=False]: every key may be
  absent. *)
Module JSONMessagePart.
Record t : Type := mk {
  text : option string;
  type : option string;
  color : option string;
  player : option Z;
  flags : option Z
}.
Definition set_text (s : string) (node : t) : t :=
mk (Some s) (type node) (color node) (player node) (flags node).
Definition set_color (c : string) (node : t) : t :=
mk (text node) (type node) (Some c) (player node) (flags node).
End JSONMessagePart.
Import JSONMessagePart (text, type, color, player, flags, set_text, set_color).

(** The module-level table of terminal colour codes. *)
Definition color_codes : PyDict.t string Z :=
[ ("reset", 0); ("bold", 1); ("underline", 4); ("black", 30); ("red", 31);
  ("green", 32); ("yellow", 33); ("blue", 34); ("magenta", 35); ("cyan", 36);
  ("white", 37); ("black_bg", 40); ("red_bg", 41); ("green_bg", 42);
  ("yellow_bg", 43); ("blue_bg", 44); ("magenta_bg", 45); ("cyan_bg", 46);
  ("white_bg", 47) ].

Definition ESC : string := String (ascii_of_nat 27) "".

Definition color_code (args : list string) : result string :=
codes ← mapM_result (λ arg, py_str <$> getitem arg (PyDict.get color_codes arg)) args;
Ok (ESC ++ "[" ++ join ";" codes ++ "m").

(** [color(text, *args)] *)
Definition color_text (text : string) (args : list string) : result string :=
opening ← color_code args;
reset ← color_code ["reset"];
Ok (opening ++ text ++ reset).

(** What the renderer reads from its context. *)
Record RenderContext : Type := {
  slot : Z;
  player_names : gmap Z string;
  item_names_lookup_in_slot : Z → Z → string;
  location_names_lookup_in_slot : Z → Z → string
}.

Module JSONtoTextParser.
Section parser.
(** [raw] selects [RawJSONtoTextParser], which overrides [_handle_color]. *)
Variable raw : bool.
Variable ctx : RenderContext.

Definition _handle_text (node : JSONMessagePart.t) : string :=
default "" (text node).

Definition _handle_color (node : JSONMessagePart.t) : result string :=
if raw then Ok (_handle_text node)
else
  node_color ← getitem "color" (color node);
  let codes := split ";" node_color in
  buffer ← mapM_result (λ code, color_code [code])
              (filter (λ code, is_Some (PyDict.get color_codes code)) codes);
  reset ← color_code ["reset"];
  Ok (join "" buffer ++ _handle_text node ++ reset).

(** A handler returns the rendered text and the node as it has left it. *)
Definition handler : Type := JSONMessagePart.t → result (string * JSONMessagePart.t).

Definition returning (node : JSONMessagePart.t) (r : result string)
  : result (string * JSONMessagePart.t) :=
s ← r; Ok (s, node).

Definition _handle_player_id : handler := λ node,
node_text ← getitem "text" (text node);
player ← py_int_of_string node_text;
let node := set_color (if bool_decide (player = slot ctx) then "magenta" else "yellow") node in
name ← getitem (py_str player) (player_names ctx !! player);
let node := set_text name node in
returning node (_handle_color node).

Definition _handle_player_name : handler := λ node,
let node := set_color "yellow" node in
returning node (_handle_color node).

Definition _handle_item_name : handler := λ node,
let flags := default 0 (flags node) in
let node :=
  if bool_decide (flags = 0) then set_color "cyan" node
  else if bool_decide (Z.land flags 1 ≠ 0) then set_color "plum" node
  else if bool_decide (Z.land flags 2 ≠ 0) then set_color "slateblue" node
  else if bool_decide (Z.land flags 4 ≠ 0) then set_color "salmon" node
  else set_color "cyan" node in
returning node (_handle_color node).

Definition _handle_item_id : handler := λ node,
node_text ← getitem "text" (text node);
item_id ← py_int_of_string node_text;
owner ← getitem "player" (player node);
let node := set_text (item_names_lookup_in_slot ctx item_id owner) node in
_handle_item_name node.

Definition _handle_location_name : handler := λ node,
let node := set_color "green" node in
returning node (_handle_color node).

Definition _handle_location_id : handler := λ node,
node_text ← getitem "text" (text node);
location_id ← py_int_of_string node_text;
owner ← getitem "player" (player node);
let node := set_text (location_names_lookup_in_slot ctx location_id owner) node in
_handle_location_name node.

Definition _handle_entrance_name : handler := λ node,
let node := set_color "blue" node in
returning node (_handle_color node).

(** The table [HandlerMeta] collects from the [_handle_] methods. *)
Definition handlers : PyDict.t string handler :=
[ ("color", λ node, returning node (_handle_color node));
  ("text", λ node, Ok (_handle_text node, node));
  ("player_id", _handle_player_id);
  ("player_name", _handle_player_name);
  ("item_name", _handle_item_name);
  ("item_id", _handle_item_id);
  ("location_name", _handle_location_name);
  ("location_id", _handle_location_id);
  ("entrance_name", _handle_entrance_name) ].

Definition handle_node : handler := λ node,
let text_handler : handler := λ node, Ok (_handle_text node, node) in
let handler :=
  match type node with
  | Some node_type => default text_handler (PyDict.get handlers node_type)
  | None => text_handler
  end in
handler node.

(** [__call__]: the joined text, and the parts as rendering has left them.
  The parts of the list are taken to be distinct dictionaries. *)
Fixpoint __call__ (input_object : list JSONMessagePart.t)
  : result (string * list JSONMessagePart.t) :=
match input_object with
| [] => Ok ("", [])
| section :: rest =>
    '(s, section') ← handle_node section;
    '(s', rest') ← __call__ rest;
    Ok (s ++ s', section' :: rest')
end.

End parser.
End JSONtoTextParser.

(** [parts.append(...)] of the three [add_json_] helpers; [kw_type] and
  [kw_color] are the keyword arguments the module passes. *)
Definition add_json_text (parts : list JSONMessagePart.t) (text : string)
  (kw_type kw_color : option string) : list JSONMessagePart.t :=
(parts ++ [JSONMessagePart.mk (Some text) kw_type kw_color None None])%list.

Definition add_json_item (parts : list JSONMessagePart.t) (item_id player item_flags : Z)
  : list JSONMessagePart.t :=
(parts ++ [JSONMessagePart.mk (Some (py_str item_id)) (Some "item_id") None
             (Some player) (Some item_flags)])%list.

Definition add_json_location (parts : list JSONMessagePart.t) (location_id player : Z)
  : list JSONMessagePart.t :=
(parts ++ [JSONMessagePart.mk (Some (py_str location_id)) (Some "location_id") None
             (Some player) None])%list.

(** ** Hints *)

(** [Dict[Tuple[int, int], Set[int]]], the checked locations per (team, slot). *)
Abbreviation CheckState := (gmap (Z * Z) (gset Z)).

Definition repr_pair (a b : Z) : string :=
"(" ++ py_str a ++ ", " ++ py_str b ++ ")".

Module Hint.
Record t : Type := mk {
  receiving_player : Z;
  finding_player : Z;
  location : Z;
  item : Z;
  found : bool;
  entrance : string;
  item_flags : Z
}.

#[global] Instance eq_dec : EqDecision t.
Proof. solve_decision. Defined.

(** [==] is the one of tuples: all seven fields. *)
Definition __eq__ (self other : t) : bool := bool_decide (self = other).

Section hash.
(** The builtin [hash] on the five-tuples [__hash__] builds. *)
Variable hash : Z * Z * Z * Z * string → Z.

Definition __hash__ (self : t) : Z :=
hash (receiving_player self, finding_player self, location self, item self, entrance self).
End hash.

Definition re_check (self : t) (location_checks : CheckState) (team : Z) : result t :=
if found self then Ok self
else
  checks ← getitem (A:=gset Z) (repr_pair team (finding_player self))
              (location_checks !! (team, finding_player self));
  let found := bool_decide (location self ∈ checks) in
  if found then
    Ok (mk (receiving_player self) (finding_player self) (location self) (item self)
           found (entrance self) (item_flags self))
  else Ok self.

Definition local (self : t) : bool :=
bool_decide (receiving_player self = finding_player self).
End Hint.

(** ** Triggerable hints and their release state *)

(** The payloads: [TextHint] and [LocationSetHint].  [per_location_data] maps a
  location to its point value and one further integer. *)
Inductive TriggeredHint : Type :=
| TextHint (player : Z) (text : string)
| LocationSetHint (player : Z) (label set_kind : string) (total_value : Z)
    (per_location_data : gmap Z (Z * Z)).

#[global] Instance TriggeredHint_eq_dec : EqDecision TriggeredHint.
Proof. solve_decision. Defined.

(** [type(self)] of a payload, the key of the per-team tables. *)
Inductive HintType : Type := TextHint_type | LocationSetHint_type.

#[global] Instance HintType_eq_dec : EqDecision HintType.
Proof. solve_decision. Defined.

#[global] Instance HintType_countable : Countable HintType.
Proof.
  refine (inj_countable' (λ ty, match ty with TextHint_type => false | LocationSetHint_type => true end)
                         (λ b : bool, if b then LocationSetHint_type else TextHint_type) _).
  intros []; reflexivity.
Defined.

Definition type_of (self : TriggeredHint) : HintType :=
match self with
| TextHint _ _ => TextHint_type
| LocationSetHint _ _ _ _ _ => LocationSetHint_type
end.

Inductive Trigger : Type :=
| FreeTrigger
| LocationTrigger (player location : Z).

Record TriggerableHint : Type := {
  hint : TriggeredHint;
  trigger : Trigger
}.

Inductive ReleaseState : Type := unreleased | stale | fresh | broadcasted.

#[global] Instance ReleaseState_eq_dec : EqDecision ReleaseState.
Proof. solve_decision. Defined.

(** The dictionary [init_team_data] creates for one hint of one team. *)
Record HintData : Type := {
  release_state : ReleaseState;
  release_data : option TriggeredHint
}.

(** [team_data[team]]: hint type, then hint, then its record. *)
Abbreviation TeamData := (PyDict.t HintType (PyDict.t TriggeredHint HintData)).

(** The part of the server context the hint code touches.  The two callbacks
  are recorded as logs of their calls. *)
Record Context : Type := {
  triggerable_hints : list TriggerableHint;
  (** [triggerable_hint_state["team_data"]], absent until the first team *)
  team_data : option (gmap Z TeamData);
  (** [triggerable_hint_state["indexes"][FreeTrigger]], empty when absent *)
  indexes_FreeTrigger : list TriggerableHint;
  location_checks : CheckState;
  (** calls of [on_changed_triggerable_hints(team, player, hint_type)] *)
  on_changed_triggerable_hints : list (Z * Z * HintType);
  (** calls of [notify_triggered_hints(team, messages)] *)
  notify_triggered_hints : list (Z * PyDict.t Z (list JSONMessagePart.t))
}.

Definition with_team_data (ctx : Context) (td : option (gmap Z TeamData)) : Context :=
{| triggerable_hints := triggerable_hints ctx;
   team_data := td;
   indexes_FreeTrigger := indexes_FreeTrigger ctx;
   location_checks := location_checks ctx;
   on_changed_triggerable_hints := on_changed_triggerable_hints ctx;
   notify_triggered_hints := notify_triggered_hints ctx |}.

Definition call_on_changed (ctx : Context) (team player : Z) (hint_type : HintType) : Context :=
{| triggerable_hints := triggerable_hints ctx;
   team_data := team_data ctx;
   indexes_FreeTrigger := indexes_FreeTrigger ctx;
   location_checks := location_checks ctx;
   on_changed_triggerable_hints :=
     (on_changed_triggerable_hints ctx ++ [(team, player, hint_type)])%list;
   notify_triggered_hints := notify_triggered_hints ctx |}.

Definition call_notify (ctx : Context) (team : Z)
  (messages : PyDict.t Z (list JSONMessagePart.t)) : Context :=
{| triggerable_hints := triggerable_hints ctx;
   team_data := team_data ctx;
   indexes_FreeTrigger := indexes_FreeTrigger ctx;
   location_checks := location_checks ctx;
   on_changed_triggerable_hints := on_changed_triggerable_hints ctx;
   notify_triggered_hints := (notify_triggered_hints ctx ++ [(team, messages)])%list |}.

Definition repr_type (ty : HintType) : string :=
match ty with
| TextHint_type => "TextHint"
| LocationSetHint_type => "LocationSetHint"
end.

Definition repr_hint (self : TriggeredHint) : string :=
match self with
| TextHint player text => "TextHint(" ++ py_str player ++ ", " ++ text ++ ")"
| LocationSetHint player label _ _ _ => "LocationSetHint(" ++ py_str player ++ ", " ++ label ++ ")"
end.

Module TriggeredHint_.

(** [ctx.triggerable_hint_state["team_data"][team][type(self)][self]] *)
Definition get_team_data (self : TriggeredHint) (ctx : Context) (team : Z) : result HintData :=
all_team_data ← getitem "team_data" (team_data ctx);
for_team ← getitem (A:=TeamData) (py_str team) (all_team_data !! team);
for_type ← getitem (repr_type (type_of self)) (PyDict.get for_team (type_of self));
getitem (repr_hint self) (PyDict.get for_type self).

(** A store into the dictionary [get_team_data] returns. *)
Definition update_team_data (self : TriggeredHint) (ctx : Context) (team : Z)
  (f : HintData → HintData) : result Context :=
all_team_data ← getitem "team_data" (team_data ctx);
for_team ← getitem (A:=TeamData) (py_str team) (all_team_data !! team);
for_type ← getitem (repr_type (type_of self)) (PyDict.get for_team (type_of self));
hint_data ← getitem (repr_hint self) (PyDict.get for_type self);
let for_type := PyDict.set for_type self (f hint_data) in
let for_team := PyDict.set for_team (type_of self) for_type in
Ok (with_team_data ctx (Some (<[team := for_team]> all_team_data))).

Definition set_release_state (s : ReleaseState) (d : HintData) : HintData :=
{| release_state := s; release_data := release_data d |}.

Definition set_release_data (r : option TriggeredHint) (d : HintData) : HintData :=
{| release_state := release_state d; release_data := r |}.

Definition init_team_data (self : TriggeredHint) (ctx : Context) (team : Z) : result Context :=
all_team_data ← getitem "team_data" (team_data ctx);
for_team ← getitem (A:=TeamData) (py_str team) (all_team_data !! team);
let for_type := default [] (PyDict.get for_team (type_of self)) in
let for_type :=
  PyDict.set for_type self {| release_state := unreleased; release_data := None |} in
let for_team := PyDict.set for_team (type_of self) for_type in
Ok (with_team_data ctx (Some (<[team := for_team]> all_team_data))).

Definition release (self : TriggeredHint) (ctx : Context) (team : Z) : result (bool * Context) :=
hint_data ← get_team_data self ctx team;
if bool_decide (release_state hint_data = unreleased) then
  ctx ← update_team_data self ctx team (set_release_state stale);
  Ok (true, ctx)
else Ok (false, ctx).

Definition mark_stale (self : TriggeredHint) (ctx : Context) (team : Z) : result Context :=
hint_data ← get_team_data self ctx team;
if bool_decide (release_state hint_data ≠ unreleased) then
  update_team_data self ctx team (set_release_state stale)
else Ok ctx.

Definition is_released (self : TriggeredHint) (ctx : Context) (team : Z) : result bool :=
hint_data ← get_team_data self ctx team;
Ok (bool_decide (release_state hint_data ≠ unreleased)).

Definition get_recipients (self : TriggeredHint) : list Z :=
match self with
| TextHint player _ => [player]
| LocationSetHint player _ _ _ _ => [player]
end.

(** [TextHint] inherits the base method; [LocationSetHint] keeps the checked
  locations only.  The comprehension reads the checks once per entry. *)
Definition get_release_data (self : TriggeredHint) (ctx : Context) (team : Z)
  : result TriggeredHint :=
match self with
| TextHint _ _ => Ok self
| LocationSetHint player label set_kind total_value per_location_data =>
    if bool_decide (per_location_data = ∅) then
      Ok (LocationSetHint player label set_kind total_value ∅)
    else
      checks ← getitem (A:=gset Z) (repr_pair team player)
                  (location_checks ctx !! (team, player));
      Ok (LocationSetHint player label set_kind total_value
            (filter (λ kv, kv.1 ∈ checks) per_location_data))
end.

Definition re_check (self : TriggeredHint) (ctx : Context) (team : Z)
  : result (option TriggeredHint * Context) :=
hint_data ← get_team_data self ctx team;
if bool_decide (release_state hint_data = unreleased) then
  Raise (Exception "Called re_check on unreleased hint")
else if bool_decide (release_state hint_data = stale) then
  data ← get_release_data self ctx team;
  ctx ← update_team_data self ctx team (set_release_data (Some data));
  ctx ← update_team_data self ctx team (set_release_state fresh);
  hint_data ← get_team_data self ctx team;
  Ok (release_data hint_data, ctx)
else Ok (release_data hint_data, ctx).

Definition check_and_set_broadcasted (self : TriggeredHint) (ctx : Context) (team : Z)
  : result (bool * Context) :=
hint_data ← get_team_data self ctx team;
ctx ← (if bool_decide (release_state hint_data = stale)
       then snd <$> re_check self ctx team
       else Ok ctx);
hint_data ← get_team_data self ctx team;
if bool_decide (release_state hint_data = fresh) then
  ctx ← update_team_data self ctx team (set_release_state broadcasted);
  Ok (true, ctx)
else Ok (false, ctx).

Definition as_message_parts (self : TriggeredHint) : result (list JSONMessagePart.t) :=
match self with
| TextHint _ text => Ok (add_json_text [] text None None)
| LocationSetHint _ label set_kind total_value per_location_data =>
    if bool_decide (set_kind = "region_items") || bool_decide (set_kind = "region_hints") then
      let found_points :=
        map_fold (λ _ location_data acc, acc + location_data.1) 0 per_location_data in
      let parts := [] in
      let parts := add_json_text parts label None None in
      let parts := add_json_text parts " has " None None in
      let parts := add_json_text parts (py_str total_value) None None in
      let parts := add_json_text parts " points of " None None in
      let parts := add_json_text parts
        (if bool_decide (set_kind = "region_items") then "items, " else "hints, ") None None in
      let parts := add_json_text parts (py_str found_points) None None in
      let parts := add_json_text parts " found." None None in
      Ok parts
    else Raise (Exception "Unknown LocationSetHint set_kind")
end.

End TriggeredHint_.

Module TriggerableHint_.
Import TriggeredHint_.

Definition release (self : TriggerableHint) (ctx : Context) (team : Z) : result Context :=
'(released, ctx) ← TriggeredHint_.release (hint self) ctx team;
if released : bool then
  match trigger self with
  | LocationTrigger finding_player _ =>
      let recipients := get_recipients (hint self) in
      '(data, ctx) ← re_check (hint self) ctx team;
      data ← match data with
             | Some data => Ok data
             | None => Raise (AttributeError "'NoneType' object has no attribute 'as_message_parts'")
             end;
      hint_parts ← as_message_parts data;
      let messages : PyDict.t Z (list JSONMessagePart.t) := [] in
      let parts := [] in
      parts ←
        (if bool_decide (finding_player ∈ recipients) && bool_decide (length recipients = 1%nat)
         then Ok (add_json_text parts "Found own hint: " None None)
         else if bool_decide (length recipients = 1%nat) then
           first ← getitem "0" (recipients !! 0%nat);
           let parts := add_json_text parts "Found hint for " None None in
           let parts := add_json_text parts (py_str first) (Some "player_id") None in
           Ok (add_json_text parts ": " None None)
         else Ok (add_json_text parts "Found hint for multiple players: " None None));
      let messages := PyDict.set messages finding_player (parts ++ hint_parts)%list in
      let messages :=
        foldl (λ messages recipient,
                 let parts := [] in
                 if bool_decide (recipient ≠ finding_player) then
                   let parts := add_json_text parts (py_str finding_player) (Some "player_id") None in
                   let parts := add_json_text parts " found your hint: " None None in
                   PyDict.set messages recipient (parts ++ hint_parts)%list
                 else messages)
              messages recipients in
      Ok (call_notify ctx team messages)
  | FreeTrigger => Ok ctx
  end
else Ok ctx.

Definition FreeTrigger_release_all (ctx : Context) (team : Z) : result Context :=
foldM (λ ctx triggerable_hint, release triggerable_hint ctx team) ctx (indexes_FreeTrigger ctx).

(** [ensure_team_init], with the call to [broadcast_updates] that ends it
  passed in. *)
Definition ensure_team_init_with (broadcast_updates : Context → Z → result Context)
  (ctx : Context) (team : Z) : result Context :=
if bool_decide (triggerable_hints ctx = []) then Ok ctx
else
  let all_team_data := default ∅ (team_data ctx) in
  let ctx := with_team_data ctx (Some all_team_data) in
  if bool_decide (is_Some (all_team_data !! team)) then Ok ctx
  else
    let ctx := with_team_data ctx (Some (<[team := []]> all_team_data)) in
    ctx ← foldM (λ ctx triggerable_hint, init_team_data (hint triggerable_hint) ctx team)
                ctx (triggerable_hints ctx);
    ctx ← FreeTrigger_release_all ctx team;
    broadcast_updates ctx team.

(** The scan of [broadcast_updates]: the set [needed_updates] it collects. *)
Definition collect_updates (ctx : Context) (team : Z)
  : result (gset (Z * HintType) * Context) :=
all_team_data ← getitem "team_data" (team_data ctx);
for_team ← getitem (A:=TeamData) (py_str team) (all_team_data !! team);
foldM (λ '(needed_updates, ctx) '(hint_type, data_for_type),
         foldM (λ '(needed_updates, ctx) triggered_hint,
                  '(changed, ctx) ← check_and_set_broadcasted triggered_hint ctx team;
                  if changed : bool then
                    Ok (foldl (λ needed_updates player, needed_updates ∪ {[ (player, hint_type) ]})
                              needed_updates (get_recipients triggered_hint), ctx)
                  else Ok (needed_updates, ctx))
               (needed_updates, ctx) (PyDict.keys data_for_type))
      (∅, ctx) for_team.

(** [broadcast_updates] and [ensure_team_init] call each other; [fuel] bounds
  the depth of these calls. *)
Fixpoint broadcast_updates (fuel : nat) (ctx : Context) (team : Z) : result Context :=
match fuel with
| O => Raise RecursionError
| S fuel =>
    ctx ← ensure_team_init_with (broadcast_updates fuel) ctx team;
    '(needed_updates, ctx) ← collect_updates ctx team;
    Ok (foldl (λ ctx '(player, hint_type), call_on_changed ctx team player hint_type)
              ctx (elements needed_updates))
end.

Definition ensure_team_init (fuel : nat) (ctx : Context) (team : Z) : result Context :=
ensure_team_init_with (broadcast_updates fuel) ctx team.

Definition get_released_hints_for_type (fuel : nat) (ctx : Context) (team player : Z)
  (hint_type : HintType) : result (list (option TriggeredHint) * Context) :=
ctx ← ensure_team_init fuel ctx team;
all_team_data ← getitem "team_data" (team_data ctx);
for_team ← getitem (A:=TeamData) (py_str team) (all_team_data !! team);
foldM (λ '(released_hints, ctx) triggered_hint,
         if bool_decide (player ∈ get_recipients triggered_hint) then
           released ← is_released triggered_hint ctx team;
           if released : bool then
             '(data, ctx) ← re_check triggered_hint ctx team;
             Ok ((released_hints ++ [data])%list, ctx)
           else Ok (released_hints, ctx)
         else Ok (released_hints, ctx))
      ([], ctx) (PyDict.keys (default [] (PyDict.get for_team hint_type))).

End TriggerableHint_.

(** ** The location store *)

(** [(item_id, receiving_player, item_flags)] *)
Abbreviation LocationEntry := (Z * Z * Z)%type.
(** [Dict[int, Tuple[int, int, int]]], keyed by location id. *)
Abbreviation LocationData := (PyDict.t Z LocationEntry).
(** [max(l)] of a sequence of integers; [None] stands for the empty one. *)
Definition py_max (l : list Z) : option Z :=
match l with
| [] => None
| x :: l' => Some (foldl Z.max x l')
end.

Module _LocationStore.

Abbreviation t := (gmap Z LocationData).

Definition keys (self : t) : list Z := elements (dom self).

Definition __init__ (values : t) : result t :=
  let self := values in
  if bool_decide (size self = 0%nat) then
    Raise (ValueError "Rejecting game with 0 players")
  else if bool_decide (Some (Z.of_nat (size self)) ≠ py_max (keys self)) then
    Raise (ValueError "Player IDs not continuous")
  else if bool_decide (length (default [] (self !! 0)) ≠ 0%nat) then
    Raise (ValueError "Invalid player id 0 for location")
  else Ok self.

Definition get_checked (self : t) (state : CheckState) (team slot : Z)
    : result (list Z) :=
  checked ← getitem (A:=gset Z) (repr_pair team slot) (state !! (team, slot));
  if bool_decide (checked = ∅) then Ok []
  else
    locations ← getitem (pretty slot) (self !! slot);
    Ok (filter (λ location_id, location_id ∈ checked) (PyDict.keys locations)).

Definition get_missing (self : t) (state : CheckState) (team slot : Z)
    : result (list Z) :=
  checked ← getitem (A:=gset Z) (repr_pair team slot) (state !! (team, slot));
  if bool_decide (checked = ∅) then
    locations ← getitem (pretty slot) (self !! slot);
    Ok (PyDict.keys locations)
  else
    locations ← getitem (pretty slot) (self !! slot);
    Ok (filter (λ location_id, location_id ∉ checked) (PyDict.keys locations)).

Definition get_remaining (self : t) (state : CheckState) (team slot : Z)
    : result (list Z) :=
  checked ← getitem (A:=gset Z) (repr_pair team slot) (state !! (team, slot));
  player_locations ← getitem (pretty slot) (self !! slot);
  items ← mapM_result
    (λ location_id,
       entry ← getitem (pretty location_id) (PyDict.get player_locations location_id);
       Ok entry.1.1)
    (filter (λ location_id, location_id ∉ checked) (PyDict.keys player_locations));
  Ok (merge_sort Z.le items).

End _LocationStore.


(** ** The properties the specification states, and the inputs used below *)

(** The player ids of a mapping are exactly [1..N] for some [N >= 1]. *)
Definition contiguous_players (values : _LocationStore.t) : Prop :=
∃ N : Z, 1 ≤ N ∧ ∀ k : Z, k ∈ dom values ↔ 1 ≤ k ≤ N.

(** No location is filed under player 0. *)
Definition no_location_of_player_0 (values : _LocationStore.t) : Prop :=
default [] (values !! 0) = [].

(** A mapping with an empty entry for player 0 and none for player 1. *)
Definition store_with_gap : _LocationStore.t :=
{[ 0 := []; 2 := [(100, (5, 2, 0))] ]}.

(** Two players; player 1 owns two locations holding the same item. *)
Definition store_two_players : _LocationStore.t :=
{[ 1 := [(10, (7, 2, 0)); (11, (3, 1, 1)); (12, (7, 1, 0))];
   2 := [(20, (4, 1, 0))] ]}.

Definition state_one_checked : CheckState :=
{[ (0, 1) := {[ 11 ]}; (0, 2) := ∅ ]}.

(** Two hints agree on receiving player, finding player, location, item and
  entrance. *)
Definition same_hint_identity (h1 h2 : Hint.t) : Prop :=
Hint.receiving_player h1 = Hint.receiving_player h2 ∧
Hint.finding_player h1 = Hint.finding_player h2 ∧
Hint.location h1 = Hint.location h2 ∧
Hint.item h1 = Hint.item h2 ∧
Hint.entrance h1 = Hint.entrance h2.

Definition hint_not_found : Hint.t := Hint.mk 1 2 100 5 false "" 0.
Definition hint_found : Hint.t := Hint.mk 1 2 100 5 true "" 0.

(** Some function in the place of the builtin [hash]. *)
Definition sample_hash (key : Z * Z * Z * Z * string) : Z :=
let '(a, b, c, d, s) := key in a + 3 * b + 5 * c + 7 * d + Z.of_nat (String.length s).

Definition text_hint_a : TriggeredHint := TextHint 1 "a".
Definition text_hint_b : TriggeredHint := TextHint 1 "b".

(** Team 0 is initialised and its only hint, gated by a location, has not been
  released. *)
Definition ctx_unreleased : Context :=
{| triggerable_hints := [ {| hint := text_hint_a; trigger := LocationTrigger 3 100 |} ];
   team_data :=
     Some {[ 0 := [ (TextHint_type,
                     [ (text_hint_a, {| release_state := unreleased; release_data := None |}) ]) ] ]};
   indexes_FreeTrigger := [];
   location_checks := ∅;
   on_changed_triggerable_hints := [];
   notify_triggered_hints := [] |}.

(** The four discriminators the decoder acts on. *)
Definition recognized_names : list string :=
["Version"; "NetworkPlayer"; "NetworkItem"; "NetworkSlot"].


(** The wire object whose discriminator is an empty array. *)
Definition wire_class_is_array : json := JObj [("class", JArr [])].

(** The colour bucket of an item in the words of the specification:
  advancement (bit 0) before useful (bit 1) before trap (bit 2), else plain. *)
Definition item_color_bucket (flags : Z) : string :=
if Z.testbit flags 0 then "plum"
else if Z.testbit flags 1 then "slateblue"
else if Z.testbit flags 2 then "salmon"
else "cyan".

(** The part [{"text": "5", "type": "item_id", "player": 2, "flags": 1}]. *)
Definition part_item_5 : JSONMessagePart.t :=
JSONMessagePart.mk (Some "5") (Some "item_id") None (Some 2) (Some 1).

(** The part types whose handlers store into the part. *)
Definition name_types : list string :=
["item_name"; "location_name"; "player_name"; "entrance_name"].

Definition id_types : list string :=
["player_id"; "item_id"; "location_id"].


Definition ctx_render : RenderContext :=
{| slot := 1;
   player_names := {[ 1 := "Alice"; 2 := "Bob" ]};
   item_names_lookup_in_slot := λ item_id player, "Item " ++ py_str item_id;
   location_names_lookup_in_slot := λ location_id player, "Location " ++ py_str location_id |}.

(** A location name without colour. *)
Definition part_location : JSONMessagePart.t :=
JSONMessagePart.mk (Some "Cave") (Some "location_name") None None None.

(** ** Notions used to state the properties of [broadcast_updates] *)

(** The tables of a team are dictionaries, so no key occurs twice, and
  [init_team_data] files every hint under its own type. *)
Definition well_formed_team_data (for_team : TeamData) : Prop :=
NoDup (PyDict.keys for_team) ∧
∀ ty for_type, (ty, for_type) ∈ for_team →
  NoDup (PyDict.keys for_type) ∧ ∀ h, h ∈ PyDict.keys for_type → type_of h = ty.

(** The player whose checks [get_release_data] reads, if it reads any: the
  player of a location set that lists a location. *)
Definition check_state_read (h : TriggeredHint) : option Z :=
match h with
| TextHint _ _ => None
| LocationSetHint player _ _ _ per_location_data =>
    if bool_decide (per_location_data = ∅) then None else Some player
end.

(** The check state has the entries the pass reads: one for the player of
  every stale location set of the team that lists a location. *)
Definition checks_available (ctx : Context) (team : Z) (for_team : TeamData) : Prop :=
∀ ty for_type h d p, (ty, for_type) ∈ for_team → (h, d) ∈ for_type →
  release_state d = stale → check_state_read h = Some p →
  is_Some (location_checks ctx !! (team, p)).

(** The hint was not [broadcasted] for the team in [ctx] and is in [ctx']. *)
Definition newly_broadcasted (ctx ctx' : Context) (team : Z) (h : TriggeredHint) : Prop :=
∃ d d', TriggeredHint_.get_team_data h ctx team = Ok d ∧ release_state d ≠ broadcasted ∧
        TriggeredHint_.get_team_data h ctx' team = Ok d' ∧ release_state d' = broadcasted.

(** Two contexts that differ in the hint records at most. *)
Definition same_outside_team_data (ctx ctx' : Context) : Prop :=
triggerable_hints ctx' = triggerable_hints ctx ∧
indexes_FreeTrigger ctx' = indexes_FreeTrigger ctx ∧
location_checks ctx' = location_checks ctx ∧
on_changed_triggerable_hints ctx' = on_changed_triggerable_hints ctx ∧
notify_triggered_hints ctx' = notify_triggered_hints ctx.

(** The state [check_and_set_broadcasted] leaves a hint in, and its answer. *)
Definition after_broadcast (s : ReleaseState) : ReleaseState :=
match s with
| unreleased => unreleased
| _ => broadcasted
end.

Definition transitions (s : ReleaseState) : bool :=
match s with
| stale | fresh => true
| _ => false
end.

(** The hints of a team in the order [broadcast_updates] visits them, each
  with the type it is filed under, and the body of its two loops. *)
Definition scan_list (for_team : TeamData) : list (HintType * TriggeredHint) :=
concat (map (λ entry : HintType * PyDict.t TriggeredHint HintData,
               map (λ h, (entry.1, h)) (PyDict.keys entry.2)) for_team).

Definition scan_step (team : Z) (acc : gset (Z * HintType) * Context)
  (x : HintType * TriggeredHint) : result (gset (Z * HintType) * Context) :=
'(changed, ctx) ← TriggeredHint_.check_and_set_broadcasted x.2 acc.2 team;
if changed : bool then
  Ok (foldl (λ needed_updates player, needed_updates ∪ {[ (player, x.1) ]})
            acc.1 (TriggeredHint_.get_recipients x.2), ctx)
else Ok (acc.1, ctx).

(** Team 0 is initialised with two text hints for player 1, released and not
  yet broadcast, and a location-set hint for player 2 that is not released. *)
Definition region_hint : TriggeredHint :=
LocationSetHint 2 "Forest" "region_items" 8 {[ 10 := (5, 7); 20 := (3, 9) ]}.

Definition team_0_tables : TeamData :=
[ (TextHint_type,
   [ (text_hint_a, {| release_state := stale; release_data := None |});
     (text_hint_b, {| release_state := fresh; release_data := Some text_hint_b |}) ]);
  (LocationSetHint_type,
   [ (region_hint, {| release_state := unreleased; release_data := None |}) ]) ].

Definition ctx_two_released : Context :=
{| triggerable_hints :=
     [ {| hint := text_hint_a; trigger := FreeTrigger |};
       {| hint := text_hint_b; trigger := FreeTrigger |};
       {| hint := region_hint; trigger := LocationTrigger 3 100 |} ];
   team_data := Some {[ 0 := team_0_tables ]};
   indexes_FreeTrigger :=
     [ {| hint := text_hint_a; trigger := FreeTrigger |};
       {| hint := text_hint_b; trigger := FreeTrigger |} ];
   location_checks := {[ (0, 1) := ∅; (0, 2) := {[ 10 ]} ]};
   on_changed_triggerable_hints := [];
   notify_triggered_hints := [] |}.

(** Team 0 with a stale and a fresh text hint for player 1 and a stale
  location-set hint for player 2; the check state has an entry for player 2
  and none for player 1. *)
Definition team_0_tables_stale_region : TeamData :=
[ (TextHint_type,
   [ (text_hint_a, {| release_state := stale; release_data := None |});
     (text_hint_b, {| release_state := fresh; release_data := Some text_hint_b |}) ]);
  (LocationSetHint_type,
   [ (region_hint, {| release_state := stale; release_data := None |}) ]) ].

Definition ctx_stale_region : Context :=
{| triggerable_hints :=
     [ {| hint := text_hint_a; trigger := FreeTrigger |};
       {| hint := text_hint_b; trigger := FreeTrigger |};
       {| hint := region_hint; trigger := LocationTrigger 3 100 |} ];
   team_data := Some {[ 0 := team_0_tables_stale_region ]};
   indexes_FreeTrigger :=
     [ {| hint := text_hint_a; trigger := FreeTrigger |};
       {| hint := text_hint_b; trigger := FreeTrigger |} ];
   location_checks := {[ (0, 2) := {[ 10 ]} ]};
   on_changed_triggerable_hints := [];
   notify_triggered_hints := [] |}.

(** The same context without any check state. *)
Definition ctx_stale_region_no_checks : Context :=
{| triggerable_hints := triggerable_hints ctx_stale_region;
   team_data := team_data ctx_stale_region;
   indexes_FreeTrigger := indexes_FreeTrigger ctx_stale_region;
   location_checks := ∅;
   on_changed_triggerable_hints := [];
   notify_triggered_hints := [] |}.

(** The tables of the team exist and are well formed. *)
Definition team_initialised (ctx : Context) (team : Z) : Prop :=
∃ all_team_data for_team,
  team_data ctx = Some all_team_data ∧ all_team_data !! team = Some for_team ∧
  well_formed_team_data for_team.

(** An operation on an initialised team either returns a context in which the
  team is still initialised, with the same configured hints, or raises an
  exception of the program, not the exhaustion of the fuel. *)
Definition keeps_initialised {A} (team : Z) (ctx : Context) (proj : A → Context)
  (m : result A) : Prop :=
match m with
| Ok a => team_initialised (proj a) team ∧ triggerable_hints (proj a) = triggerable_hints ctx
| Raise e => e ≠ RecursionError
end.

(** ** Further operations of the location store *)

Module _LocationStore_queries.

(** The generator of [find_item], as the list of the tuples it yields when
  [self.items()] gives the players in the sequence [items]. *)
Definition find_item_in (items : list (Z * LocationData)) (slots : gset Z)
  (seeked_item_id : Z) : list (Z * Z * Z * Z * Z) :=
concat (map (λ player_data : Z * LocationData,
  concat (map (λ location : Z * LocationEntry,
    let finding_player := player_data.1 in
    let location_id := location.1 in
    let item_id := location.2.1.1 in
    let receiving_player := location.2.1.2 in
    let item_flags := location.2.2 in
    if bool_decide (receiving_player ∈ slots) && bool_decide (item_id = seeked_item_id)
    then [(finding_player, location_id, item_id, receiving_player, item_flags)]
    else []) player_data.2)) items).

(** The store is a finite map and does not record the order in which its
  players were inserted: [find_item] takes them as [map_to_list] enumerates
  them.  Which tuples are yielded, and their order for one player, do not
  depend on this. *)
Definition find_item (self : _LocationStore.t) (slots : gset Z) (seeked_item_id : Z)
  : list (Z * Z * Z * Z * Z) :=
find_item_in (map_to_list self) slots seeked_item_id.

(** [get_for_player]: the [defaultdict(set)] gets a key when a location is
  added under it.  The result is a finite map of sets, so the order in which
  the players are visited does not show in it. *)
Definition get_for_player (self : _LocationStore.t) (slot : Z) : gmap Z (gset Z) :=
foldl (λ all_locations (player_data : Z * LocationData),
         foldl (λ all_locations (location : Z * LocationEntry),
                  if bool_decide (location.2.1.2 = slot) then
                    <[player_data.1 :=
                        default ∅ (all_locations !! player_data.1) ∪ {[ location.1 ]}]>
                      all_locations
                  else all_locations)
               all_locations player_data.2)
      ∅ (map_to_list self).

End _LocationStore_queries.

(** A mapping that files a location under player 0. *)
Definition store_player_0 : _LocationStore.t :=
{[ 0 := [(1, (1, 1, 1))]; 1 := [] ]}.

(** The state of [state_one_checked] after player 1 has also checked 10. *)
Definition state_two_checked : CheckState :=
{[ (0, 1) := {[ 10; 11 ]}; (0, 2) := ∅ ]}.

(** ** The network message of a hint *)

(** The dictionary [as_network_message] returns, key by key. *)
Record HintMessage : Type := {
  msg_cmd : string;
  msg_data : list JSONMessagePart.t;
  msg_type : string;
  msg_receiving : Z;
  msg_item : pyval;
  msg_found : bool
}.

Definition Hint_as_network_message (self : Hint.t) : HintMessage :=
let parts := [] in
let parts := add_json_text parts "[Hint]: " None None in
let parts := add_json_text parts (py_str (Hint.receiving_player self)) (Some "player_id") None in
let parts := add_json_text parts "'s " None None in
let parts := add_json_item parts (Hint.item self) (Hint.receiving_player self)
               (Hint.item_flags self) in
let parts := add_json_text parts " is at " None None in
let parts := add_json_location parts (Hint.location self) (Hint.finding_player self) in
let parts := add_json_text parts " in " None None in
let parts := add_json_text parts (py_str (Hint.finding_player self)) (Some "player_id") None in
let parts :=
  if bool_decide (Hint.entrance self ≠ "") then
    let parts := add_json_text parts "'s World at " None None in
    add_json_text parts (Hint.entrance self) (Some "entrance_name") None
  else add_json_text parts "'s World" None None in
let parts := add_json_text parts ". " None None in
let parts :=
  if Hint.found self then add_json_text parts "(found)" (Some "color") (Some "green")
  else add_json_text parts "(not found)" (Some "color") (Some "red") in
{| msg_cmd := "PrintJSON";
   msg_data := parts;
   msg_type := "Hint";
   msg_receiving := Hint.receiving_player self;
   msg_item := VNamedTuple "NetworkItem"
                 [ VInt (Hint.item self); VInt (Hint.location self);
                   VInt (Hint.finding_player self); VInt (Hint.item_flags self) ];
   msg_found := Hint.found self |}.

(** The texts of a list of parts, one after the other. *)
Definition joined_texts (parts : list JSONMessagePart.t) : string :=
foldr (λ part rest, default "" (text part) ++ rest)%string "" parts.

(** The nine part types that have a handler of their own. *)
Definition handled_types : list string :=
["color"; "text"; "player_id"; "player_name"; "item_name"; "item_id";
 "location_name"; "location_id"; "entrance_name"].

Definition hint_with_entrance : Hint.t := Hint.mk 1 2 100 5 false "Cave" 1.

Definition checks_location_100 : CheckState := {[ (0, 2) := {[ 100 ]} ]}.

(** A part of a type the renderer has no handler for. *)
Definition part_unknown_type : JSONMessagePart.t :=
JSONMessagePart.mk (Some "hello") (Some "hint_status") (Some "red") None None.

(** ** Released hints *)

(** [is_released] answers [True]: the hint has a record for the team, in a
  state other than unreleased. *)
Definition released_in (ctx : Context) (team : Z) (h : TriggeredHint) : Prop :=
TriggeredHint_.is_released h ctx team = Ok true.

(** When the operation returns, the hint is released in the context it
  returns. *)
Definition stays_released {A} (team : Z) (h : TriggeredHint) (proj : A → Context)
  (m : result A) : Prop :=
∀ a, m = Ok a → released_in (proj a) team h.

(** Two hints are configured, one free and one gated by a location; no team
  has tables yet. *)
Definition ctx_fresh : Context :=
{| triggerable_hints :=
     [ {| hint := text_hint_a; trigger := FreeTrigger |};
       {| hint := region_hint; trigger := LocationTrigger 3 100 |} ];
   team_data := None;
   indexes_FreeTrigger := [ {| hint := text_hint_a; trigger := FreeTrigger |} ];
   location_checks := {[ (0, 1) := ∅; (0, 2) := {[ 10 ]} ]};
   on_changed_triggerable_hints := [];
   notify_triggered_hints := [] |}.

(** ** The indexes of the triggers and of the location sets *)

#[global] Instance Trigger_eq_dec : EqDecision Trigger.
Proof. solve_decision. Defined.

(** [triggerable_hint_state["indexes"]] under the keys [LocationTrigger] and
  [LocationSetHint]: player, then location, then the triggerable hints filed
  there.  The list under the key [FreeTrigger] is the field
  [indexes_FreeTrigger] of the context. *)
Abbreviation LocationIndex := (gmap Z (gmap Z (list TriggerableHint))).

Record Indexes : Type := {
  indexes_LocationTrigger : LocationIndex;
  indexes_LocationSetHint : LocationIndex
}.

(** [index.get(player, {}).get(location, [])] *)
Definition index_get (index : LocationIndex) (player location : Z) : list TriggerableHint :=
default [] (default ∅ (index !! player) !! location).

Definition with_indexes_FreeTrigger (ctx : Context) (free_data : list TriggerableHint)
  : Context :=
{| triggerable_hints := triggerable_hints ctx;
   team_data := team_data ctx;
   indexes_FreeTrigger := free_data;
   location_checks := location_checks ctx;
   on_changed_triggerable_hints := on_changed_triggerable_hints ctx;
   notify_triggered_hints := notify_triggered_hints ctx |}.

(** [TriggeredHint.index] does nothing; [LocationSetHint.index] files the
  parent under the player of the hint, once for each location of
  [per_location_data]. *)
Definition TriggeredHint_index (self : TriggeredHint) (indexes : Indexes)
  (parent_triggerable_hint : TriggerableHint) : Indexes :=
match self with
| TextHint _ _ => indexes
| LocationSetHint player _ _ _ per_location_data =>
    let index := indexes_LocationSetHint indexes in
    let player_data := default ∅ (index !! player) in
    let player_data :=
      foldl (λ player_data location,
               <[location := (default [] (player_data !! location)
                              ++ [parent_triggerable_hint])%list]> player_data)
            player_data (map_to_list per_location_data).*1 in
    {| indexes_LocationTrigger := indexes_LocationTrigger indexes;
       indexes_LocationSetHint := <[player := player_data]> index |}
end.

(** [FreeTrigger.index] and [LocationTrigger.index] *)
Definition Trigger_index (self : Trigger) (ctx : Context) (indexes : Indexes)
  (parent_triggerable_hint : TriggerableHint) : Context * Indexes :=
match self with
| FreeTrigger =>
    let free_data := indexes_FreeTrigger ctx in
    (with_indexes_FreeTrigger ctx (free_data ++ [parent_triggerable_hint])%list, indexes)
| LocationTrigger player location =>
    let index := indexes_LocationTrigger indexes in
    let player_data := default ∅ (index !! player) in
    let location_data := default [] (player_data !! location) in
    let player_data :=
      <[location := (location_data ++ [parent_triggerable_hint])%list]> player_data in
    (ctx, {| indexes_LocationTrigger := <[player := player_data]> index;
             indexes_LocationSetHint := indexes_LocationSetHint indexes |})
end.

Definition index_all (ctx : Context) (indexes : Indexes) : Context * Indexes :=
foldl (λ (st : Context * Indexes) triggerable_hint,
         let indexes := TriggeredHint_index (hint triggerable_hint) st.2 triggerable_hint in
         Trigger_index (trigger triggerable_hint) st.1 indexes triggerable_hint)
      (ctx, indexes) (triggerable_hints ctx).

(** [LocationTrigger.release_for_location_check] *)
Definition release_for_location_check (indexes : Indexes) (ctx : Context)
  (team player location : Z) : result Context :=
foldM (λ ctx triggerable_hint, TriggerableHint_.release triggerable_hint ctx team)
      ctx (index_get (indexes_LocationTrigger indexes) player location).


(** The hint is a location set of this player that lists this location. *)
Definition tracks_location (player location : Z) (h : TriggeredHint) : Prop :=
match h with
| TextHint _ _ => False
| LocationSetHint player' _ _ _ per_location_data =>
    player' = player ∧ is_Some (per_location_data !! location)
end.

#[global] Instance tracks_location_dec (player location : Z) (h : TriggeredHint) :
  Decision (tracks_location player location h).
Proof. destruct h; cbn; apply _. Defined.

Definition no_indexes : Indexes :=
{| indexes_LocationTrigger := ∅; indexes_LocationSetHint := ∅ |}.

(** One round of the loop of [index_all]. *)
Definition index_step (st : Context * Indexes) (triggerable_hint : TriggerableHint)
  : Context * Indexes :=
let indexes := TriggeredHint_index (hint triggerable_hint) st.2 triggerable_hint in
Trigger_index (trigger triggerable_hint) st.1 indexes triggerable_hint.

(** What an indexing pass over the hints [l] adds to the three indexes, and
  what it leaves alone. *)
Definition indexed (l : list TriggerableHint) (st st' : Context * Indexes) : Prop :=
indexes_FreeTrigger st'.1
  = (indexes_FreeTrigger st.1 ++ filter (λ th, trigger th = FreeTrigger) l)%list ∧
(∀ player location,
   index_get (indexes_LocationTrigger st'.2) player location
   = (index_get (indexes_LocationTrigger st.2) player location
      ++ filter (λ th, trigger th = LocationTrigger player location) l)%list) ∧
(∀ player location,
   index_get (indexes_LocationSetHint st'.2) player location
   = (index_get (indexes_LocationSetHint st.2) player location
      ++ filter (λ th, tracks_location player location (hint th)) l)%list) ∧
triggerable_hints st'.1 = triggerable_hints st.1 ∧
team_data st'.1 = team_data st.1 ∧
location_checks st'.1 = location_checks st.1 ∧
on_changed_triggerable_hints st'.1 = on_changed_triggerable_hints st.1 ∧
notify_triggered_hints st'.1 = notify_triggered_hints st.1.

(** ** The notification of a release *)



(** ** Wire codec: encoding *)

(** The objects [encode] is given.  A dictionary has string keys; a set or
  frozenset lists its elements in iteration order; an instance of a named
  tuple class or of a dataclass carries the name of its class and its fields
  with their values, in the order of declaration. *)
Inductive pyobj : Type :=
| ONone
| OBool (b : bool)
| OInt (n : Z)
| OStr (s : string)
| OList (l : list pyobj)
| OTuple (l : list pyobj)
| OSet (frozen : bool) (l : list pyobj)
| ODict (d : list (string * pyobj))
| ONamedTuple (cls : string) (fields : list (string * pyobj))
| ODataclass (cls : string) (fields : list (string * pyobj)).

(** [dataclasses.asdict], from the second level on: dataclass instances
  become dictionaries, lists, tuples, named tuples and dictionaries are
  rebuilt around their converted members, anything else is copied. *)
Fixpoint asdict_inner (obj : pyobj) : pyobj :=
match obj with
| ODataclass _ fields => ODict (map (λ kv, (kv.1, asdict_inner kv.2)) fields)
| ONamedTuple cls fields => ONamedTuple cls (map (λ kv, (kv.1, asdict_inner kv.2)) fields)
| OList l => OList (map asdict_inner l)
| OTuple l => OTuple (map asdict_inner l)
| ODict d => ODict (map (λ kv, (kv.1, asdict_inner kv.2)) d)
| _ => obj
end.

Fixpoint _scan_for_TypedTuples (obj : pyobj) : pyobj :=
match obj with
| ONamedTuple cls fields =>
    let data := fields in
    ODict (PyDict.set data "class" (OStr cls))
| ODataclass cls fields =>
    let data := map (λ kv, (kv.1, asdict_inner kv.2)) fields in
    ODict (PyDict.set data "class" (OStr cls))
| OList l | OTuple l | OSet _ l => OTuple (map _scan_for_TypedTuples l)
| ODict d => ODict (map (λ kv, (kv.1, _scan_for_TypedTuples kv.2)) d)
| _ => obj
end.

(** [JSONEncoder.encode], up to the tree it serializes: a named tuple is a
  tuple and becomes an array; a set and a dataclass instance are rejected. *)
Fixpoint _encode (obj : pyobj) : result json :=
match obj with
| ONone => Ok JNull
| OBool b => Ok (JBool b)
| OInt n => Ok (JInt n)
| OStr s => Ok (JStr s)
| OList l | OTuple l =>
    JArr <$>
    (fix go (l : list pyobj) : result (list json) :=
       match l with
       | [] => Ok []
       | x :: l' => j ← _encode x; js ← go l'; Ok (j :: js)
       end) l
| ONamedTuple _ fields =>
    JArr <$>
    (fix go (l : list (string * pyobj)) : result (list json) :=
       match l with
       | [] => Ok []
       | (_, x) :: l' => j ← _encode x; js ← go l'; Ok (j :: js)
       end) fields
| ODict d =>
    JObj <$>
    (fix go (l : list (string * pyobj)) : result (list (string * json)) :=
       match l with
       | [] => Ok []
       | (k, x) :: l' => j ← _encode x; js ← go l'; Ok ((k, j) :: js)
       end) d
| OSet frozen _ =>
    Raise (TypeError ("Object of type " ++ (if frozen then "frozenset" else "set")
                      ++ " is not JSON serializable"))
| ODataclass cls _ =>
    Raise (TypeError ("Object of type " ++ cls ++ " is not JSON serializable"))
end.

Definition encode (obj : pyobj) : result json :=
_encode (_scan_for_TypedTuples obj).

(** ** Notions used to state the properties of the codec *)

(** No object of the document has a member named [class]. *)
Fixpoint no_class (j : json) : bool :=
match j with
| JArr l => forallb no_class l
| JObj members =>
    negb (bool_decide ("class" ∈ members.*1)) && forallb (λ kv, no_class kv.2) members
| _ => true
end.

(** The document as a Python value, without any hook. *)
Fixpoint tree_value (j : json) : pyval :=
match j with
| JNull => VNone
| JBool b => VBool b
| JInt n => VInt n
| JStr s => VStr s
| JArr l => VList (map tree_value l)
| JObj members => VDict (PyDict.of_pairs (map (λ kv, (kv.1, tree_value kv.2)) members))
end.

(** Every named tuple inside the value has one of the four recognized names. *)
Fixpoint only_recognized (v : pyval) : bool :=
match v with
| VList l | VTuple l => forallb only_recognized l
| VDict d => forallb (λ kv, only_recognized kv.2) d
| VNamedTuple cls fields =>
    bool_decide (cls ∈ recognized_names) && forallb only_recognized fields
| _ => true
end.

(** Data without typed members: scalars, lists and tuples of such data, and
  dictionaries of such data that have no key [class]. *)
Fixpoint plain_obj (o : pyobj) : bool :=
match o with
| ONone | OBool _ | OInt _ | OStr _ => true
| OList l | OTuple l => forallb plain_obj l
| ODict d =>
    bool_decide (NoDup d.*1) && negb (bool_decide ("class" ∈ d.*1))
    && forallb (λ kv, plain_obj kv.2) d
| _ => false
end.

(** Data that passes the codec: scalars, lists, tuples and sets of such data,
  dictionaries of such data without a key [class], instances of the
  allowlisted named tuple classes whose fields hold plain data, and
  instances of a dataclass whose name is not recognized and whose fields
  hold plain data. *)
Fixpoint wire_obj (o : pyobj) : bool :=
match o with
| ONone | OBool _ | OInt _ | OStr _ => true
| OList l | OTuple l | OSet _ l => forallb wire_obj l
| ODict d =>
    bool_decide (NoDup d.*1) && negb (bool_decide ("class" ∈ d.*1))
    && forallb (λ kv, wire_obj kv.2) d
| ONamedTuple cls fields =>
    match PyDict.get allowlist cls with
    | Some c => bool_decide (fields.*1 = _fields c) && forallb (λ kv, plain_obj kv.2) fields
    | None => false
    end
| ODataclass cls fields =>
    negb (bool_decide (cls ∈ recognized_names))
    && bool_decide (NoDup fields.*1) && negb (bool_decide ("class" ∈ fields.*1))
    && forallb (λ kv, plain_obj kv.2) fields
end.

(** What the receiver holds after decoding such data: lists for lists,
  tuples and sets, dictionaries, named tuples with their field values in
  order, and for a dataclass instance the dictionary of its fields with the
  name of the class under the key [class]. *)
Fixpoint received (o : pyobj) : pyval :=
match o with
| ONone => VNone
| OBool b => VBool b
| OInt n => VInt n
| OStr s => VStr s
| OList l | OTuple l | OSet _ l => VList (map received l)
| ODict d => VDict (map (λ kv, (kv.1, received kv.2)) d)
| ONamedTuple cls fields => VNamedTuple cls (map (λ kv, received kv.2) fields)
| ODataclass cls fields =>
    VDict (map (λ kv, (kv.1, received kv.2)) fields ++ [("class", VStr cls)])
end.

Definition wire_network_item : pyobj :=
ONamedTuple "NetworkItem"
  [("item", OInt 5); ("location", OInt 100); ("player", OInt 2); ("flags", OInt 1)].

Definition wire_slot_in_packet : pyobj :=
ODict [ ("cmd", OStr "Connected");
        ("slot_info",
         OList [ ONamedTuple "NetworkSlot"
                   [("name", OStr "Alice"); ("game", OStr "Zelda"); ("type", OInt 1);
                    ("group_members", OTuple [])] ]) ].

Definition wire_text_hint : pyobj :=
ODataclass "TextHint" [("player", OInt 1); ("text", OStr "a")].

(** A hint-like object with a class the decoder does not know, holding an
  item and a version. *)
Definition json_nested_item : json :=
JObj [ ("class", JStr "Hint");
       ("items",
        JArr [ JObj [ ("class", JStr "NetworkItem"); ("item", JInt 1);
                      ("location", JInt 2); ("player", JInt 3) ] ]);
       ("version",
        JObj [ ("class", JStr "Version"); ("major", JInt 0); ("minor", JInt 5);
               ("build", JInt 1) ]) ].

(** * Theorems *)

(** ** Generic facts about [result], [PyDict] and [py_max] *)

Lemma bind_Ok_inv {A B} (m : result A) (f : A → result B) (b : B) :
  m ≫= f = Ok b → ∃ a, m = Ok a ∧ f a = Ok b.
Proof. destruct m as [a|e]; simpl; [eauto | discriminate]. Qed.

Lemma append_empty_r (s : string) : (s ++ "")%string = s.
Proof.
  induction s as [|c s IH]; [reflexivity|].
  change (String c (s ++ "")%string = String c s). f_equal. exact IH.
Qed.

Lemma PyDict_get_Some_of_key {K V} `{EqDecision K} (d : PyDict.t K V) (k : K) :
  k ∈ PyDict.keys d → is_Some (PyDict.get d k).
Proof.
  unfold PyDict.keys. induction d as [|[k' v] d IH]; simpl.
  - intros H. inversion H.
  - intros H. destruct (decide (k' = k)); [eauto|].
    apply IH. inversion H; subst; [congruence | assumption].
Qed.

Lemma PyDict_get_key {K V} `{EqDecision K} (d : PyDict.t K V) (k : K) (v : V) :
  PyDict.get d k = Some v → k ∈ PyDict.keys d.
Proof.
  unfold PyDict.keys. induction d as [|[k' v'] d IH]; simpl; [discriminate|].
  destruct (decide (k' = k)) as [->|]; intros H; [left | right; auto].
Qed.

Lemma foldl_max_spec (l : list Z) (x : Z) :
  (foldl Z.max x l = x ∨ foldl Z.max x l ∈ l) ∧
  x ≤ foldl Z.max x l ∧ ∀ y, y ∈ l → y ≤ foldl Z.max x l.
Proof.
  revert x. induction l as [|a l IH]; intros x; simpl.
  - split; [left; reflexivity|]. split; [lia|]. intros y Hy. inversion Hy.
  - destruct (IH (Z.max x a)) as (Hin & Hle & Hall). split; [|split].
    + destruct Hin as [Heq|Hin]; [|right; right; exact Hin].
      rewrite Heq. destruct (Z.max_spec x a) as [[_ ->]|[_ ->]]; [right; left | left; reflexivity].
    + lia.
    + intros y Hy. inversion Hy; subst; [lia | auto].
Qed.

Lemma py_max_spec (l : list Z) (m : Z) :
  py_max l = Some m ↔ m ∈ l ∧ ∀ y, y ∈ l → y ≤ m.
Proof.
  destruct l as [|x l]; simpl.
  - split; [discriminate | intros [H _]; inversion H].
  - destruct (foldl_max_spec l x) as (Hin & Hle & Hall). split.
    + intros [= <-]. split.
      * destruct Hin as [->|Hin]; [left | right; exact Hin].
      * intros y Hy. inversion Hy; subst; [exact Hle | auto].
    + intros [Hm Hmax]. f_equal. apply Z.le_antisymm.
      * apply Hmax. destruct Hin as [->|Hin]; [left | right; exact Hin].
      * inversion Hm; subst; [exact Hle | auto].
Qed.

(** ** Location store: construction *)

Lemma LocationStore_init_Ok_iff (values self : _LocationStore.t) :
  _LocationStore.__init__ values = Ok self ↔
  self = values ∧ size values ≠ 0%nat ∧
  py_max (_LocationStore.keys values) = Some (Z.of_nat (size values)) ∧
  default [] (values !! 0) = [].
Proof.
  unfold _LocationStore.__init__.
  repeat case_bool_decide; split; try discriminate.
  - intros (_ & H' & _). contradiction.
  - intros (_ & _ & H' & _). congruence.
  - intros (_ & _ & _ & H'). rewrite H' in *. simpl in *. contradiction.
  - intros [= <-]. repeat split; try assumption; try congruence.
    destruct (default [] (values !! 0)); [reflexivity | simpl in *; discriminate].
  - intros (-> & _). reflexivity.
Qed.

(** Whatever construction rejects, it rejects with a [ValueError]. *)
Lemma LocationStore_init_raises_ValueError (values : _LocationStore.t) (e : PyExc) :
  _LocationStore.__init__ values = Raise e → ∃ msg, e = ValueError msg.
Proof.
  unfold _LocationStore.__init__.
  repeat case_bool_decide; intros [= <-]; eauto.
Qed.

Lemma dom_contiguous (values : _LocationStore.t) (N : Z) :
  (∀ k : Z, k ∈ dom values ↔ 1 ≤ k ≤ N) →
  dom values = list_to_set (seqZ 1 N).
Proof.
  intros H. apply set_eq. intros k.
  rewrite H, elem_of_list_to_set, elem_of_seqZ. lia.
Qed.

Lemma size_list_to_set_seqZ (N : Z) :
  0 ≤ N → size (list_to_set (seqZ 1 N) : gset Z) = Z.to_nat N.
Proof.
  intros HN. rewrite size_list_to_set by apply NoDup_seqZ.
  apply length_seqZ.
Qed.

(** The direction of the stated equivalence that holds: a mapping whose
    players are exactly [1..N] and that files nothing under player 0 is
    accepted. *)
Lemma LocationStore_init_accepts_contiguous (values : _LocationStore.t) :
  contiguous_players values → no_location_of_player_0 values →
  _LocationStore.__init__ values = Ok values.
Proof.
  intros (N & HN & Hdom) H0. apply LocationStore_init_Ok_iff.
  assert (Hsize : size values = Z.to_nat N).
  { rewrite <- size_dom, (dom_contiguous values N Hdom).
    apply size_list_to_set_seqZ. lia. }
  repeat split; [lia | | exact H0].
  apply py_max_spec. unfold _LocationStore.keys. rewrite Hsize, Z2Nat.id by lia. split.
  - apply elem_of_elements, Hdom. lia.
  - intros y Hy. apply elem_of_elements, Hdom in Hy. lia.
Qed.

(** When all player ids are positive, the check is exact. *)
Lemma LocationStore_init_positive_keys (values : _LocationStore.t) :
  (∀ k : Z, k ∈ dom values → 1 ≤ k) →
  _LocationStore.__init__ values = Ok values ↔ contiguous_players values.
Proof.
  intros Hpos. split.
  - intros (_ & Hsize & Hmax & _)%LocationStore_init_Ok_iff.
    apply py_max_spec in Hmax as [_ Hmax].
    exists (Z.of_nat (size values)). split; [lia|].
    assert (Hsub : dom values ⊆ list_to_set (seqZ 1 (Z.of_nat (size values)))).
    { intros k Hk. rewrite elem_of_list_to_set, elem_of_seqZ.
      specialize (Hpos k Hk).
      specialize (Hmax k ltac:(unfold _LocationStore.keys; apply elem_of_elements; exact Hk)). lia. }
    assert (Heq : dom values = list_to_set (seqZ 1 (Z.of_nat (size values)))).
    { apply set_subseteq_size_eq; [exact Hsub|].
      rewrite size_list_to_set_seqZ, size_dom by lia. lia. }
    intros k. rewrite Heq, elem_of_list_to_set, elem_of_seqZ. lia.
  - intros Hc. apply LocationStore_init_accepts_contiguous; [exact Hc|].
    unfold no_location_of_player_0.
    destruct (values !! 0) eqn:E; [|reflexivity].
    assert (H0 : 0 ∈ dom values) by (apply elem_of_dom; eauto).
    apply Hpos in H0. lia.
Qed.

(** C1 (construction accepts a mapping that is not [1..N]): the mapping
    [{0: {}, 2: {100: (5, 2, 0)}}] has the player ids [{0, 2}], which are not
    [1..N] for any [N], and files nothing under player 0; the specification
    says construction fails for it, yet [__init__] accepts it: it has two
    keys, its largest key is 2, and the entry of player 0 is empty. *)
Theorem C1_init_accepts_gap :
  _LocationStore.__init__ store_with_gap = Ok store_with_gap ∧
  no_location_of_player_0 store_with_gap ∧
  ¬ contiguous_players store_with_gap.
Proof.
  split; [vm_compute; reflexivity|]. split; [vm_compute; reflexivity|].
  intros (N & HN & Hdom).
  assert (H0 : 0 ∈ dom store_with_gap).
  { apply elem_of_dom. exists []. vm_compute. reflexivity. }
  apply Hdom in H0. lia.
Qed.

(** ** Location store: queries *)

Lemma filter_not_elem_of_empty (checked : gset Z) (l : list Z) :
  checked = ∅ → filter (λ x : Z, x ∉ checked) l = l.
Proof.
  intros ->. induction l as [|x l IH]; [reflexivity|].
  rewrite filter_cons_True by apply not_elem_of_empty. f_equal. exact IH.
Qed.

(** The item behind a location of a player, as [get_remaining] reads it. *)
Lemma get_remaining_items (locations : LocationData) (l : list Z) :
  (∀ x, x ∈ l → x ∈ PyDict.keys locations) →
  mapM_result
    (λ location_id,
       entry ← getitem (pretty location_id) (PyDict.get locations location_id);
       Ok entry.1.1) l
  = Ok (omap (λ location_id, (λ entry : LocationEntry, entry.1.1) <$>
                              PyDict.get locations location_id) l).
Proof.
  induction l as [|x l IH]; intros Hl; simpl; [reflexivity|].
  destruct (PyDict_get_Some_of_key locations x) as [e He]; [apply Hl; left|].
  rewrite He. simpl. rewrite IH; [reflexivity|].
  intros y Hy. apply Hl. right. exact Hy.
Qed.

(** C6 (checked and missing partition the locations of a slot): for a store
    that construction accepted, a checked-set state with an entry for
    [(team, slot)] and a slot of the store, [get_checked] and [get_missing]
    both return, the two lists have no location in common, and together they
    hold exactly the location ids of the slot. *)
Theorem C6_checked_missing_partition (values self : _LocationStore.t)
    (state : CheckState) (team slot : Z) (checked : gset Z) (locations : LocationData) :
  _LocationStore.__init__ values = Ok self →
  state !! (team, slot) = Some checked →
  self !! slot = Some locations →
  ∃ c m : list Z,
    _LocationStore.get_checked self state team slot = Ok c ∧
    _LocationStore.get_missing self state team slot = Ok m ∧
    (list_to_set c : gset Z) ## list_to_set m ∧
    (list_to_set c ∪ list_to_set m : gset Z) = list_to_set (PyDict.keys locations).
Proof.
  intros _ Hstate Hslot.
  unfold _LocationStore.get_checked, _LocationStore.get_missing.
  rewrite Hstate, Hslot. simpl. case_bool_decide as Hempty; simpl.
  - exists [], (PyDict.keys locations). split; [reflexivity|]. split; [reflexivity|].
    split; [apply disjoint_empty_l | apply (left_id_L ∅ (∪))].
  - eexists _, _. split; [reflexivity|]. split; [reflexivity|]. split.
    + intros x. rewrite !elem_of_list_to_set, !list_elem_of_filter. tauto.
    + apply set_eq. intros x.
      rewrite elem_of_union, !elem_of_list_to_set, !list_elem_of_filter.
      destruct (decide (x ∈ checked)); tauto.
Qed.

Lemma C6_checked_missing_partition_witness :
  ∃ c m : list Z,
    _LocationStore.get_checked store_two_players state_one_checked 0 1 = Ok c ∧
    _LocationStore.get_missing store_two_players state_one_checked 0 1 = Ok m ∧
    (list_to_set c : gset Z) ## list_to_set m ∧
    (list_to_set c ∪ list_to_set m : gset Z) = list_to_set [10; 11; 12].
Proof.
  apply (C6_checked_missing_partition store_two_players store_two_players
           state_one_checked 0 1 {[ 11 ]}
           [(10, (7, 2, 0)); (11, (3, 1, 1)); (12, (7, 1, 0))]);
    vm_compute; reflexivity.
Defined.

(** C7 (remaining items): under the same conditions [get_remaining] returns a
    list as long as the one [get_missing] returns, in ascending order, and it
    is a rearrangement of the item ids behind the missing locations, so an
    item id that sits behind several missing locations occurs as often. *)
Theorem C7_get_remaining_sorted (values self : _LocationStore.t)
    (state : CheckState) (team slot : Z) (checked : gset Z) (locations : LocationData) :
  _LocationStore.__init__ values = Ok self →
  state !! (team, slot) = Some checked →
  self !! slot = Some locations →
  ∃ r m : list Z,
    _LocationStore.get_remaining self state team slot = Ok r ∧
    _LocationStore.get_missing self state team slot = Ok m ∧
    length r = length m ∧
    Sorted Z.le r ∧
    r ≡ₚ omap (λ location_id, (λ entry : LocationEntry, entry.1.1) <$>
                               PyDict.get locations location_id) m.
Proof.
  intros _ Hstate Hslot.
  unfold _LocationStore.get_remaining, _LocationStore.get_missing.
  rewrite Hstate, Hslot. simpl.
  set (missing := filter (λ location_id : Z, location_id ∉ checked) (PyDict.keys locations)).
  assert (Hkeys : ∀ x, x ∈ missing → x ∈ PyDict.keys locations).
  { intros x Hx. apply list_elem_of_filter in Hx. tauto. }
  rewrite (get_remaining_items locations missing Hkeys). simpl.
  set (items := omap _ missing).
  assert (Hlen : length items = length missing).
  { subst items. clear - Hkeys. induction missing as [|x l IH]; [reflexivity|]. simpl.
    destruct (PyDict_get_Some_of_key locations x) as [e He]; [apply Hkeys; left|].
    rewrite He. simpl. f_equal. apply IH. intros y Hy. apply Hkeys. right. exact Hy. }
  assert (Hmissing : (if bool_decide (checked = ∅) then Ok (PyDict.keys locations)
                      else Ok missing) = Ok missing).
  { case_bool_decide as Hempty; [|reflexivity]. subst missing.
    f_equal. symmetry. apply filter_not_elem_of_empty, Hempty. }
  exists (merge_sort Z.le items), missing. split; [reflexivity|]. split.
  { case_bool_decide; exact Hmissing. }
  split; [|split].
  - rewrite <- Hlen. apply Permutation_length, merge_sort_Permutation.
  - apply Sorted_merge_sort. intros x y. lia.
  - apply merge_sort_Permutation.
Qed.

Lemma C7_get_remaining_sorted_witness :
  ∃ r m : list Z,
    _LocationStore.get_remaining store_two_players state_one_checked 0 1 = Ok r ∧
    _LocationStore.get_missing store_two_players state_one_checked 0 1 = Ok m ∧
    length r = length m ∧
    Sorted Z.le r ∧
    r ≡ₚ omap (λ location_id, (λ entry : LocationEntry, entry.1.1) <$>
                 PyDict.get [(10, (7, 2, 0)); (11, (3, 1, 1)); (12, (7, 1, 0))] location_id) m.
Proof.
  apply (C7_get_remaining_sorted store_two_players store_two_players
           state_one_checked 0 1 {[ 11 ]}
           [(10, (7, 2, 0)); (11, (3, 1, 1)); (12, (7, 1, 0))]);
    vm_compute; reflexivity.
Defined.

(** On the store above the item id 7 sits behind both missing locations. *)
Example get_remaining_keeps_duplicates :
  _LocationStore.get_remaining store_two_players state_one_checked 0 1 = Ok [7; 7].
Proof. vm_compute. reflexivity. Qed.

(** ** Hints: identity *)

(** C3, as stated, fails: two hints that differ in [found] only have the same
    five identifying fields, yet [==] tells them apart. *)
Lemma C3_found_flag_breaks_equality :
  same_hint_identity hint_not_found hint_found ∧
  Hint.found hint_not_found ≠ Hint.found hint_found ∧
  Hint.__eq__ hint_not_found hint_found = false.
Proof.
  split; [repeat split|]. split; [discriminate | reflexivity].
Qed.

(** C3 (amended): two hints that agree on receiving player, finding player,
    location, item and entrance have the same hash, whatever their [found]
    flag and item flags are; they are equal exactly when these two fields
    agree as well, since equality is the one of tuples. *)
Theorem C3_hint_hash_ignores_found_and_flags
    (hash : Z * Z * Z * Z * string → Z) (h1 h2 : Hint.t) :
  same_hint_identity h1 h2 →
  Hint.__hash__ hash h1 = Hint.__hash__ hash h2 ∧
  (Hint.__eq__ h1 h2 = true ↔
   Hint.found h1 = Hint.found h2 ∧ Hint.item_flags h1 = Hint.item_flags h2).
Proof.
  intros (Hr & Hf & Hl & Hi & He). split.
  - unfold Hint.__hash__. congruence.
  - unfold Hint.__eq__. rewrite bool_decide_eq_true. split.
    + intros ->. split; reflexivity.
    + intros [Hfound Hflags]. destruct h1, h2. simpl in *. congruence.
Qed.

Lemma C3_hint_hash_ignores_found_and_flags_witness :
  same_hint_identity hint_not_found hint_found ∧
  Hint.__hash__ sample_hash hint_not_found = Hint.__hash__ sample_hash hint_found ∧
  (Hint.__eq__ hint_not_found hint_found = true ↔
   Hint.found hint_not_found = Hint.found hint_found ∧
   Hint.item_flags hint_not_found = Hint.item_flags hint_found).
Proof.
  split.
  - repeat split.
  - apply (C3_hint_hash_ignores_found_and_flags sample_hash hint_not_found hint_found).
    repeat split.
Defined.

(** Re-checking keeps the five identifying fields, hence the hash, and never
    turns a found hint into one that is not found. *)
Lemma Hint_re_check_keeps_identity (self h : Hint.t) (checks : CheckState) (team : Z) :
  Hint.re_check self checks team = Ok h →
  same_hint_identity self h ∧ (Hint.found self = true → Hint.found h = true).
Proof.
  unfold Hint.re_check. destruct (Hint.found self) eqn:Hfound.
  - intros [= <-]. split; [repeat split | auto].
  - destruct (checks !! (team, Hint.finding_player self)); simpl; [|discriminate].
    case_bool_decide; intros [= <-]; (split; [repeat split | simpl; congruence]).
Qed.

(** ** Hint release state machine: unreleased hints *)

Import TriggeredHint_ TriggerableHint_.

(** C2, as stated, fails for [check_and_set_broadcasted]: on a hint that is
    still unreleased it returns [False] and leaves the state as it is. *)
Lemma C2_check_and_set_broadcasted_returns :
  get_team_data text_hint_a ctx_unreleased 0
    = Ok {| release_state := unreleased; release_data := None |} ∧
  check_and_set_broadcasted text_hint_a ctx_unreleased 0 = Ok (false, ctx_unreleased) ∧
  ¬ raises (check_and_set_broadcasted text_hint_a ctx_unreleased 0).
Proof.
  split; [vm_compute; reflexivity|].
  assert (H : check_and_set_broadcasted text_hint_a ctx_unreleased 0
              = Ok (false, ctx_unreleased)) by (vm_compute; reflexivity).
  split; [exact H|]. intros [e He]. rewrite H in He. discriminate.
Qed.

(** C2 (amended): for a hint whose record of the team is still [unreleased],
    [re_check] raises the exception "Called re_check on unreleased hint",
    while [check_and_set_broadcasted] returns [False] and changes nothing. *)
Theorem C2_unreleased_hint (self : TriggeredHint) (ctx : Context) (team : Z)
    (hint_data : HintData) :
  get_team_data self ctx team = Ok hint_data →
  release_state hint_data = unreleased →
  re_check self ctx team = Raise (Exception "Called re_check on unreleased hint") ∧
  check_and_set_broadcasted self ctx team = Ok (false, ctx).
Proof.
  intros Hget Hstate. unfold re_check, check_and_set_broadcasted.
  rewrite Hget. simpl. rewrite Hstate. simpl. rewrite Hget. simpl.
  rewrite Hstate. split; reflexivity.
Qed.

Lemma C2_unreleased_hint_witness :
  re_check text_hint_a ctx_unreleased 0
    = Raise (Exception "Called re_check on unreleased hint") ∧
  check_and_set_broadcasted text_hint_a ctx_unreleased 0 = Ok (false, ctx_unreleased).
Proof.
  apply (C2_unreleased_hint text_hint_a ctx_unreleased 0
           {| release_state := unreleased; release_data := None |});
    vm_compute; reflexivity.
Defined.

(** ** Wire codec *)

Lemma PyDict_get_app_notin {K V} `{EqDecision K} (d1 d2 : PyDict.t K V) (k : K) :
  k ∉ PyDict.keys d1 → PyDict.get (d1 ++ d2)%list k = PyDict.get d2 k.
Proof.
  unfold PyDict.keys. induction d1 as [|[k' v'] d1 IH]; simpl; [reflexivity|].
  intros Hk. destruct (decide (k' = k)) as [->|Hne].
  - exfalso. apply Hk. left.
  - apply IH. intros Hin. apply Hk. right. exact Hin.
Qed.

Lemma PyDict_del_app_notin {K V} `{EqDecision K} (d1 d2 : PyDict.t K V) (k : K) (v : V) :
  k ∉ PyDict.keys d1 → PyDict.del (d1 ++ (k, v) :: d2)%list k = (d1 ++ d2)%list.
Proof.
  unfold PyDict.keys. induction d1 as [|[k' v'] d1 IH]; simpl.
  - intros _. destruct (decide (k = k)); [reflexivity | congruence].
  - intros Hk. destruct (decide (k' = k)) as [->|Hne].
    + exfalso. apply Hk. left.
    + f_equal. apply IH. intros Hin. apply Hk. right. exact Hin.
Qed.

Lemma PyDict_get_set_ne {K V} `{EqDecision K} (d : PyDict.t K V) (k k' : K) (v : V) :
  k ≠ k' → PyDict.get (PyDict.set d k v) k' = PyDict.get d k'.
Proof.
  intros Hne. induction d as [|[k0 v0] d IH]; simpl.
  - destruct (decide (k = k')); [contradiction | reflexivity].
  - destruct (decide (k0 = k)) as [->|Hk0]; simpl.
    + destruct (decide (k = k')); [contradiction | reflexivity].
    + destruct (decide (k0 = k')); [reflexivity | exact IH].
Qed.

Lemma PyDict_get_filter_keys {K V} `{EqDecision K} (P : K → Prop) `{∀ k, Decision (P k)}
    (d : PyDict.t K V) (k : K) :
  P k → PyDict.get (filter (λ kv, P kv.1) d) k = PyDict.get d k.
Proof.
  intros HP. induction d as [|[k0 v0] d IH]; [reflexivity|].
  destruct (decide (P k0)) as [HP0|HP0].
  - rewrite filter_cons_True by exact HP0. cbn [PyDict.get].
    destruct (decide (k0 = k)); [reflexivity | exact IH].
  - rewrite filter_cons_False by exact HP0. cbn [PyDict.get].
    destruct (decide (k0 = k)) as [->|Hne]; [contradiction | exact IH].
Qed.

Lemma PyDict_filter_set_dropped {K V} `{EqDecision K} (P : K → Prop) `{∀ k, Decision (P k)}
    (d : PyDict.t K V) (k : K) (v : V) :
  ¬ P k → filter (λ kv, P kv.1) (PyDict.set d k v) = filter (λ kv, P kv.1) d.
Proof.
  intros HP. induction d as [|[k0 v0] d IH]; cbn [PyDict.set].
  - rewrite filter_cons_False by exact HP. reflexivity.
  - destruct (decide (k0 = k)) as [->|Hne].
    + rewrite !filter_cons_False by exact HP. reflexivity.
    + destruct (decide (P k0)).
      * rewrite !filter_cons_True by assumption. f_equal. exact IH.
      * rewrite !filter_cons_False by assumption. exact IH.
Qed.

Lemma filter_ext_elem_of {A} (P Q : A → Prop) `{∀ x, Decision (P x)} `{∀ x, Decision (Q x)}
    (l : list A) :
  (∀ x, x ∈ l → P x ↔ Q x) → filter P l = filter Q l.
Proof.
  induction l as [|x l IH]; intros Hext; [reflexivity|].
  assert (Hl : filter P l = filter Q l).
  { apply IH. intros y Hy. apply Hext. right. exact Hy. }
  destruct (decide (P x)) as [HP|HP].
  - rewrite !filter_cons_True; [congruence | apply Hext; [left | exact HP] | exact HP].
  - rewrite !filter_cons_False; [exact Hl | | exact HP].
    intros HQ. apply HP, Hext; [left | exact HQ].
Qed.

Lemma filter_none {A} (P : A → Prop) `{∀ x, Decision (P x)} (l : list A) :
  (∀ x, x ∈ l → ¬ P x) → filter P l = [].
Proof.
  induction l as [|x l IH]; intros Hl; [reflexivity|].
  rewrite filter_cons_False by (apply Hl; left).
  apply IH. intros y Hy. apply Hl. right. exact Hy.
Qed.

(** The loop of [_object_hook] that deletes the undeclared keys leaves the
    entries of the declared fields, in their order. *)
Lemma delete_undeclared_keys (fields : list string) (pre suf : pydict) :
  (∀ key, key ∈ PyDict.keys pre → key ∈ fields) →
  foldl (λ d key, if bool_decide (key ∉ fields) then PyDict.del d key else d)
        (pre ++ suf)%list (PyDict.keys suf)
  = (pre ++ filter (λ kv, kv.1 ∈ fields) suf)%list.
Proof.
  revert pre. induction suf as [|[k v] suf IH]; intros pre Hpre.
  - reflexivity.
  - cbn [PyDict.keys fmap list_fmap fst foldl]. case_bool_decide as Hk.
    + rewrite PyDict_del_app_notin by (intros Hin; apply Hk, Hpre, Hin).
      rewrite filter_cons_False by exact Hk. apply IH, Hpre.
    + assert (Hin : k ∈ fields) by (destruct (decide (k ∈ fields)); [assumption | contradiction]).
      rewrite filter_cons_True by exact Hin.
      replace (pre ++ (k, v) :: suf)%list with ((pre ++ [(k, v)]) ++ suf)%list
        by (rewrite <- app_assoc; reflexivity).
      rewrite IH.
      * rewrite <- app_assoc. reflexivity.
      * intros key. unfold PyDict.keys. rewrite fmap_app, elem_of_app. simpl.
        intros [Hkey|Hkey]; [apply Hpre, Hkey|].
        apply list_elem_of_singleton in Hkey as ->. exact Hin.
Qed.

Lemma table_get_str {A} (table : PyDict.t string A) (s : string) :
  table_get table (VStr s) = Ok (PyDict.get table s).
Proof. reflexivity. Qed.

Lemma allowlist_inv (name : string) (cls : NamedTupleClass) :
  PyDict.get allowlist name = Some cls →
  __name__ cls = name ∧ name ≠ "Version" ∧ name ∈ recognized_names.
Proof.
  unfold allowlist, recognized_names. simpl.
  repeat (destruct (decide _) as [<-|?]; [intros [= <-]; repeat split; [discriminate | set_solver]|]).
  discriminate.
Qed.

Lemma custom_hooks_inv (name : string) (hook : pydict → result pyval) :
  PyDict.get custom_hooks name = Some hook → name = "Version" ∧ hook = get_any_version.
Proof.
  unfold custom_hooks. simpl. destruct (decide _) as [<-|?]; [|discriminate].
  intros [= <-]. split; reflexivity.
Qed.

(** What the call of the class returns once the undeclared keys are gone. *)
Lemma namedtuple_new_declared (cls : NamedTupleClass) (d : pydict) :
  namedtuple_new cls (filter (λ kv, kv.1 ∈ _fields cls) d) =
  match filter (λ f, PyDict.get d f = None ∧ PyDict.get (_field_defaults cls) f = None)
               (_fields cls) with
  | [] =>
      Ok (VNamedTuple (__name__ cls)
            (map (λ f, default (default VNone (PyDict.get (_field_defaults cls) f))
                               (PyDict.get d f))
                 (_fields cls)))
  | missing => Raise (TypeError_missing_arguments (__name__ cls) missing)
  end.
Proof.
  unfold namedtuple_new.
  assert (Hkeys : filter (λ key, key ∉ _fields cls)
                    (PyDict.keys (filter (λ kv, kv.1 ∈ _fields cls) d)) = []).
  { unfold PyDict.keys. induction d as [|[k v] d IH]; [reflexivity|].
    destruct (decide (k ∈ _fields cls)) as [Hk|Hk].
    - rewrite filter_cons_True by exact Hk. simpl.
      rewrite filter_cons_False by (intros Hn; exact (Hn Hk)). exact IH.
    - rewrite filter_cons_False by exact Hk. exact IH. }
  rewrite Hkeys.
  rewrite (filter_ext_elem_of
             (λ f, PyDict.get (filter (λ kv, kv.1 ∈ _fields cls) d) f = None ∧
                   PyDict.get (_field_defaults cls) f = None)
             (λ f, PyDict.get d f = None ∧ PyDict.get (_field_defaults cls) f = None)).
  2:{ intros f Hf.
      pose proof (PyDict_get_filter_keys (λ k, k ∈ _fields cls) d f Hf) as E.
      cbv beta in E. rewrite E. reflexivity. }
  destruct (filter _ (_fields cls)); [|reflexivity].
  do 2 f_equal. apply map_ext_in. intros f Hf%list_elem_of_In.
  pose proof (PyDict_get_filter_keys (λ k, k ∈ _fields cls) d f Hf) as E.
  cbv beta in E. rewrite E. reflexivity.
Qed.

(** A mapping whose discriminator names a class of the allowlist is rebuilt
    from its declared fields. *)
Lemma _object_hook_allowlisted (name : string) (cls : NamedTupleClass) (d : pydict) :
  PyDict.get allowlist name = Some cls →
  PyDict.get d "class" = Some (VStr name) →
  _object_hook (VDict d) = namedtuple_new cls (filter (λ kv, kv.1 ∈ _fields cls) d).
Proof.
  intros Hcls Hd. destruct (allowlist_inv name cls Hcls) as (_ & Hversion & _).
  unfold _object_hook. rewrite Hd. cbn [default from_option id].
  rewrite !table_get_str.
  assert (Hhook : PyDict.get custom_hooks name = None).
  { destruct (PyDict.get custom_hooks name) eqn:E; [|reflexivity].
    apply custom_hooks_inv in E as [-> _]. congruence. }
  rewrite Hhook, Hcls. cbn [mbind result_bind].
  f_equal. apply (delete_undeclared_keys (_fields cls) [] d).
  intros key Hkey. inversion Hkey.
Qed.

Lemma namedtuple_new_Ok_inv (cls : NamedTupleClass) (kwargs : pydict) (v : pyval) :
  namedtuple_new cls kwargs = Ok v → ∃ fields, v = VNamedTuple (__name__ cls) fields.
Proof.
  unfold namedtuple_new.
  destruct (filter _ (PyDict.keys kwargs)); [|discriminate].
  destruct (filter _ (_fields cls)); [|discriminate].
  intros [= <-]. eauto.
Qed.

Lemma get_any_version_Ok_inv (data : pydict) (v : pyval) :
  get_any_version data = Ok v → ∃ fields, v = VNamedTuple "Version" fields.
Proof.
  unfold get_any_version.
  intros (major & _ & (minor & _ & (build & _ & [= <-])%bind_Ok_inv)%bind_Ok_inv)%bind_Ok_inv.
  eauto.
Qed.

(** The allowlist is closed: the hook returns either the mapping it was given
    or a named tuple of one of the four recognized names, and the latter only
    when the discriminator is that very name. *)
Lemma _object_hook_closed (d : pydict) (v : pyval) :
  _object_hook (VDict d) = Ok v →
  v = VDict d ∨
  ∃ name fields, name ∈ recognized_names ∧
    PyDict.get d "class" = Some (VStr name) ∧ v = VNamedTuple name fields.
Proof.
  unfold _object_hook.
  destruct (PyDict.get d "class") as [c|] eqn:Hclass; cbn [default from_option id].
  2:{ cbn. intros [= <-]. left. reflexivity. }
  unfold table_get. destruct (unhashable_type c) eqn:Hhash; [discriminate|].
  cbn [mbind result_bind].
  destruct c as [ | b | n | s | l | l | d' | cls' fs ];
    try (intros [= <-]; left; reflexivity).
  destruct (PyDict.get custom_hooks s) as [hook|] eqn:Hhook.
  - apply custom_hooks_inv in Hhook as [-> ->].
    intros [fields ->]%get_any_version_Ok_inv. right.
    exists "Version", fields. split; [set_solver | split; reflexivity].
  - destruct (PyDict.get allowlist s) as [cls|] eqn:Hcls.
    + destruct (allowlist_inv s cls Hcls) as (Hname & _ & Hrec).
      intros [fields ->]%namedtuple_new_Ok_inv. right.
      exists s, fields. rewrite Hname. split; [exact Hrec | split; reflexivity].
    + intros [= <-]. left. reflexivity.
Qed.

(** A mapping without discriminator, or with a hashable discriminator that is
    none of the four names, is returned as it is. *)
Lemma _object_hook_unknown_plain (d : pydict) :
  unhashable_type (default VNone (PyDict.get d "class")) = None →
  (∀ name, PyDict.get d "class" = Some (VStr name) → name ∉ recognized_names) →
  _object_hook (VDict d) = Ok (VDict d).
Proof.
  intros Hhash Hname. unfold _object_hook, table_get. rewrite Hhash.
  cbn [mbind result_bind].
  destruct (PyDict.get d "class") as [c|] eqn:Hclass; cbn [default from_option id];
    [|reflexivity].
  destruct c as [ | b | n | s | l | l | d' | cls' fs ]; try reflexivity.
  specialize (Hname s eq_refl).
  destruct (PyDict.get custom_hooks s) as [hook|] eqn:Hhook.
  { apply custom_hooks_inv in Hhook as [-> _]. exfalso. apply Hname. set_solver. }
  destruct (PyDict.get allowlist s) as [cls|] eqn:Hcls; [|reflexivity].
  exfalso. apply Hname. eapply allowlist_inv. exact Hcls.
Qed.

(** C4 (a discriminator the tables cannot hash): the wire object
    [{"class": []}] carries a discriminator that names none of the recognized
    shapes; the specification has it decoded as a plain mapping without any
    error, but the lookup of the discriminator in [custom_hooks] raises
    [TypeError: unhashable type: 'list'], in the hook and so in [decode]. *)
Theorem C4_unhashable_discriminator_raises :
  _object_hook (VDict [("class", VList [])]) = Raise (TypeError_unhashable "list") ∧
  decode wire_class_is_array = Raise (TypeError_unhashable "list").
Proof. split; reflexivity. Qed.

Lemma decode_JArr (l : list json) :
  decode (JArr l) = VList <$> mapM_result decode l.
Proof.
  cbn [decode]. f_equal. induction l as [|x l IH]; [reflexivity|].
  cbn [mapM_result]. rewrite IH. reflexivity.
Qed.

Lemma decode_JObj (members : list (string * json)) :
  decode (JObj members) =
  mapM_result (λ kv : string * json, v ← decode kv.2; Ok (kv.1, v)) members ≫= λ pairs,
    _object_hook (VDict (PyDict.of_pairs pairs)).
Proof.
  cbn [decode]. f_equal. induction members as [|[k x] l IH]; [reflexivity|].
  cbn [mapM_result fst snd]. rewrite IH.
  destruct (decode x); cbn [mbind result_bind]; [|reflexivity].
  destruct (mapM_result _ l); reflexivity.
Qed.




(** The same on whole wire messages. *)
Example decode_drops_undeclared_field :
  decode (JObj [ ("class", JStr "NetworkItem"); ("item", JInt 1); ("location", JInt 2);
                 ("player", JInt 3); ("bogus", JObj [("a", JNull)]) ])
  = Ok (VNamedTuple "NetworkItem" [VInt 1; VInt 2; VInt 3; VInt 0]).
Proof. vm_compute. reflexivity. Qed.

Example decode_missing_field :
  decode (JObj [ ("class", JStr "NetworkPlayer"); ("team", JInt 0); ("slot", JInt 1);
                 ("alias", JStr "A") ])
  = Raise (TypeError_missing_arguments "NetworkPlayer" ["name"]).
Proof. vm_compute. reflexivity. Qed.

(** The custom hook of [Version] reads its three fields whatever their case
    and raises a [KeyError] naming the first one that is absent. *)
Example decode_version :
  decode (JObj [ ("class", JStr "Version"); ("Major", JInt 0); ("Minor", JInt 4);
                 ("Build", JStr "2"); ("extra", JNull) ])
  = Ok (VNamedTuple "Version" [VInt 0; VInt 4; VInt 2]) ∧
  decode (JObj [ ("class", JStr "Version"); ("major", JInt 0); ("build", JInt 2) ])
  = Raise (KeyError "minor").
Proof. split; vm_compute; reflexivity. Qed.

Example decode_unknown_discriminator :
  decode (JObj [ ("class", JStr "Hint"); ("found", JBool true) ])
  = Ok (VDict [ ("class", VStr "Hint"); ("found", VBool true) ]).
Proof. vm_compute. reflexivity. Qed.

(** ** Rich-text renderer *)

Lemma land_pow2_nonzero (flags n : Z) :
  0 ≤ n → Z.land flags (2 ^ n) ≠ 0 ↔ Z.testbit flags n = true.
Proof.
  intros Hn. split.
  - intros Hland. destruct (Z.testbit flags n) eqn:Hbit; [reflexivity|].
    exfalso. apply Hland. apply Z.bits_inj'. intros m Hm.
    rewrite Z.land_spec, Z.bits_0, Z.pow2_bits_eqb by exact Hn.
    destruct (Z.eqb_spec n m) as [->|_]; [rewrite Hbit; reflexivity | apply andb_false_r].
  - intros Hbit Hland.
    assert (H : Z.testbit (Z.land flags (2 ^ n)) n = true).
    { rewrite Z.land_spec, Hbit, Z.pow2_bits_true by exact Hn. reflexivity. }
    rewrite Hland, Z.bits_0 in H. discriminate.
Qed.

(** The chain of tests of [_handle_item_name] selects the bucket of the
    specification. *)
Lemma item_color_chain (flags : Z) :
  (if bool_decide (flags = 0) then "cyan"
   else if bool_decide (Z.land flags 1 ≠ 0) then "plum"
   else if bool_decide (Z.land flags 2 ≠ 0) then "slateblue"
   else if bool_decide (Z.land flags 4 ≠ 0) then "salmon"
   else "cyan") = item_color_bucket flags.
Proof.
  unfold item_color_bucket.
  pose proof (land_pow2_nonzero flags 0 ltac:(lia)) as H0.
  pose proof (land_pow2_nonzero flags 1 ltac:(lia)) as H1.
  pose proof (land_pow2_nonzero flags 2 ltac:(lia)) as H2.
  change (2 ^ 0) with 1 in H0. change (2 ^ 1) with 2 in H1. change (2 ^ 2) with 4 in H2.
  case_bool_decide as Hz.
  { subst flags. reflexivity. }
  destruct (Z.testbit flags 0) eqn:B0.
  { rewrite bool_decide_eq_true_2 by (apply H0; reflexivity). reflexivity. }
  rewrite (bool_decide_eq_false_2 (Z.land flags 1 ≠ 0))
    by (intros X; apply H0 in X; discriminate).
  destruct (Z.testbit flags 1) eqn:B1.
  { rewrite bool_decide_eq_true_2 by (apply H1; reflexivity). reflexivity. }
  rewrite (bool_decide_eq_false_2 (Z.land flags 2 ≠ 0))
    by (intros X; apply H1 in X; discriminate).
  destruct (Z.testbit flags 2) eqn:B2.
  { rewrite bool_decide_eq_true_2 by (apply H2; reflexivity). reflexivity. }
  rewrite (bool_decide_eq_false_2 (Z.land flags 4 ≠ 0))
    by (intros X; apply H2 in X; discriminate).
  reflexivity.
Qed.

Lemma _handle_item_name_bucket (raw : bool) (node : JSONMessagePart.t) :
  JSONtoTextParser._handle_item_name raw node =
  JSONtoTextParser.returning
    (set_color (item_color_bucket (default 0 (flags node))) node)
    (JSONtoTextParser._handle_color raw
       (set_color (item_color_bucket (default 0 (flags node))) node)).
Proof.
  unfold JSONtoTextParser._handle_item_name.
  rewrite <- (item_color_chain (default 0 (flags node))).
  repeat case_bool_decide; reflexivity.
Qed.

(** C9 (item colour): the handler of [item_name] stores the colour bucket that
    the precedence advancement, useful, trap, plain selects from the flags,
    for every value of the flags; and rendering the single part
    [{"text": "5", "type": "item_id", "player": 2, "flags": 1}] asks the item
    lookup for item 5 of player 2, puts that name in the part and gives it the
    advancement bucket ["plum"]. *)
Theorem C9_item_color_precedence (raw : bool) (ctx : RenderContext) :
  (∀ node : JSONMessagePart.t,
     JSONtoTextParser._handle_item_name raw node =
     JSONtoTextParser.returning
       (set_color (item_color_bucket (default 0 (flags node))) node)
       (JSONtoTextParser._handle_color raw
          (set_color (item_color_bucket (default 0 (flags node))) node))) ∧
  JSONtoTextParser.__call__ raw ctx [part_item_5] =
  Ok ((if raw then item_names_lookup_in_slot ctx 5 2
       else item_names_lookup_in_slot ctx 5 2 ++ ESC ++ "[0m")%string,
      [JSONMessagePart.mk (Some (item_names_lookup_in_slot ctx 5 2)) (Some "item_id")
         (Some "plum") (Some 2) (Some 1)]).
Proof.
  split; [apply _handle_item_name_bucket|].
  assert (Hnode : JSONtoTextParser.handle_node raw ctx part_item_5 =
    Ok ((if raw then item_names_lookup_in_slot ctx 5 2
         else item_names_lookup_in_slot ctx 5 2 ++ ESC ++ "[0m")%string,
        JSONMessagePart.mk (Some (item_names_lookup_in_slot ctx 5 2)) (Some "item_id")
          (Some "plum") (Some 2) (Some 1))).
  { destruct raw; vm_compute; reflexivity. }
  cbn [JSONtoTextParser.__call__]. rewrite Hnode. cbn [mbind result_bind].
  rewrite append_empty_r. reflexivity.
Qed.

Lemma returning_Ok_inv (node node' : JSONMessagePart.t) (r : result string) (s : string) :
  JSONtoTextParser.returning node r = Ok (s, node') → node' = node ∧ r = Ok s.
Proof.
  unfold JSONtoTextParser.returning. destruct r as [s0|e]; simpl; [|discriminate].
  intros [= <- <-]. split; reflexivity.
Qed.

Lemma handle_node_dispatch (raw : bool) (ctx : RenderContext) (node : JSONMessagePart.t)
    (ty : string) (h : JSONtoTextParser.handler) :
  type node = Some ty →
  PyDict.get (JSONtoTextParser.handlers raw ctx) ty = Some h →
  JSONtoTextParser.handle_node raw ctx node = h node.
Proof.
  intros Hty Hh. unfold JSONtoTextParser.handle_node. rewrite Hty, Hh. reflexivity.
Qed.





(** For an id type the second rendering reads the name the first one stored
    where it expects a number. *)
Example render_item_id_twice :
  JSONtoTextParser.__call__ true ctx_render [part_item_5]
    = Ok ("Item 5", [JSONMessagePart.mk (Some "Item 5") (Some "item_id") (Some "plum")
                       (Some 2) (Some 1)]) ∧
  (JSONtoTextParser.__call__ true ctx_render [part_item_5]
     ≫= λ '(_, parts), JSONtoTextParser.__call__ true ctx_render parts)
    = Raise (ValueError_invalid_literal "Item 5").
Proof. split; vm_compute; reflexivity. Qed.

(** ** Hint release state machine: the records of a team *)

Lemma PyDict_get_set_eq {K V} `{EqDecision K} (d : PyDict.t K V) (k : K) (v : V) :
  PyDict.get (PyDict.set d k v) k = Some v.
Proof.
  induction d as [|[k0 v0] d IH]; simpl.
  - destruct (decide (k = k)); [reflexivity | congruence].
  - destruct (decide (k0 = k)) as [->|Hne]; simpl.
    + destruct (decide (k = k)); [reflexivity | congruence].
    + destruct (decide (k0 = k)); [contradiction | exact IH].
Qed.

Lemma PyDict_get_of_elem {K V} `{EqDecision K} (d : PyDict.t K V) (k : K) (v : V) :
  NoDup (PyDict.keys d) → (k, v) ∈ d → PyDict.get d k = Some v.
Proof.
  unfold PyDict.keys. induction d as [|[k0 v0] d IH]; intros Hnd Hin.
  - inversion Hin.
  - simpl in Hnd. apply NoDup_cons in Hnd as [Hk0 Hnd].
    apply elem_of_cons in Hin as [[= -> ->]|Hin]; simpl.
    + destruct (decide (k0 = k0)); [reflexivity | congruence].
    + destruct (decide (k0 = k)) as [->|Hne]; [|apply IH; assumption].
      exfalso. apply Hk0. apply (list_elem_of_fmap_2 fst) in Hin. exact Hin.
Qed.

Lemma PyDict_get_elem {K V} `{EqDecision K} (d : PyDict.t K V) (k : K) (v : V) :
  PyDict.get d k = Some v → (k, v) ∈ d.
Proof.
  induction d as [|[k0 v0] d IH]; simpl; [discriminate|].
  destruct (decide (k0 = k)) as [->|Hne].
  - intros [= ->]. left.
  - intros H. right. apply IH, H.
Qed.

Lemma with_team_data_id (ctx : Context) (all_team_data : gmap Z TeamData) :
  team_data ctx = Some all_team_data → with_team_data ctx (Some all_team_data) = ctx.
Proof. destruct ctx. simpl. intros ->. reflexivity. Qed.

Lemma same_outside_team_data_refl (ctx : Context) : same_outside_team_data ctx ctx.
Proof. repeat split. Qed.

Lemma same_outside_team_data_trans (ctx1 ctx2 ctx3 : Context) :
  same_outside_team_data ctx1 ctx2 → same_outside_team_data ctx2 ctx3 →
  same_outside_team_data ctx1 ctx3.
Proof.
  unfold same_outside_team_data. intros (?&?&?&?&?) (?&?&?&?&?).
  repeat split; congruence.
Qed.

Lemma get_team_data_Ok (self : TriggeredHint) (ctx : Context) (team : Z) (d : HintData) :
  get_team_data self ctx team = Ok d ↔
  ∃ all_team_data for_team for_type,
    team_data ctx = Some all_team_data ∧ all_team_data !! team = Some for_team ∧
    PyDict.get for_team (type_of self) = Some for_type ∧
    PyDict.get for_type self = Some d.
Proof.
  unfold get_team_data. split.
  - destruct (team_data ctx) as [all|]; simpl; [|discriminate].
    destruct (all !! team) as [ft|] eqn:Hft; simpl; [|discriminate].
    destruct (PyDict.get ft (type_of self)) as [per|] eqn:Hper; simpl; [|discriminate].
    destruct (PyDict.get per self) as [d'|] eqn:Hd; simpl; [|discriminate].
    intros [= ->]. eauto 10.
  - intros (all & ft & per & -> & Hft & Hper & Hd). simpl.
    rewrite Hft. simpl. rewrite Hper. simpl. rewrite Hd. reflexivity.
Qed.

(** A store into the record of a hint changes this record and nothing else. *)
Lemma update_team_data_spec (self : TriggeredHint) (ctx : Context) (team : Z)
    (f : HintData → HintData) (d : HintData) :
  get_team_data self ctx team = Ok d →
  ∃ ctx', update_team_data self ctx team f = Ok ctx' ∧
    get_team_data self ctx' team = Ok (f d) ∧
    (∀ h, h ≠ self → get_team_data h ctx' team = get_team_data h ctx team) ∧
    same_outside_team_data ctx ctx'.
Proof.
  intros (all & ft & per & Hall & Hft & Hper & Hd)%get_team_data_Ok.
  unfold update_team_data. rewrite Hall. simpl. rewrite Hft. simpl.
  rewrite Hper. simpl. rewrite Hd. simpl.
  eexists. split; [reflexivity|]. split; [|split].
  - apply get_team_data_Ok. eexists _, _, _. split; [reflexivity|].
    split; [apply lookup_insert_eq|]. split; apply PyDict_get_set_eq.
  - intros h Hne. unfold get_team_data. simpl. rewrite Hall. simpl.
    rewrite lookup_insert_eq, Hft. simpl.
    destruct (decide (type_of self = type_of h)) as [Hty|Hty].
    + rewrite <- Hty, PyDict_get_set_eq, Hper. simpl.
      rewrite PyDict_get_set_ne by congruence. reflexivity.
    + rewrite PyDict_get_set_ne by exact Hty. reflexivity.
  - repeat split.
Qed.

Lemma get_release_data_total (self : TriggeredHint) (ctx : Context) (team : Z) :
  (∀ p, p ∈ get_recipients self → is_Some (location_checks ctx !! (team, p))) →
  ∃ data, get_release_data self ctx team = Ok data.
Proof.
  intros Hchecks. destruct self as [p text | p label kind total pld]; simpl.
  - eauto.
  - case_bool_decide; [eauto|].
    destruct (Hchecks p) as [checks Hc]; [simpl; left|].
    rewrite Hc. simpl. eauto.
Qed.

Lemma get_release_data_returns (self : TriggeredHint) (ctx : Context) (team : Z) :
  (∀ p, check_state_read self = Some p → is_Some (location_checks ctx !! (team, p))) →
  ∃ data, get_release_data self ctx team = Ok data.
Proof.
  intros Hchecks. destruct self as [p text | p label kind total pld]; cbn in *; [eauto|].
  case_bool_decide; [eauto|].
  destruct (Hchecks p eq_refl) as [checks Hc]. rewrite Hc. cbn. eauto.
Qed.

Lemma get_release_data_same_checks (self : TriggeredHint) (ctx ctx' : Context) (team : Z) :
  location_checks ctx' = location_checks ctx →
  get_release_data self ctx' team = get_release_data self ctx team.
Proof. intros Heq. destruct self; cbn; [reflexivity|]. rewrite Heq. reflexivity. Qed.

(** What [check_and_set_broadcasted] does to a hint that has a record: it
    answers [True] exactly for a stale or fresh hint, which it leaves
    broadcasted; a stale hint gets the release data computed now; and it
    touches no other record. *)
Lemma check_and_set_broadcasted_run (self : TriggeredHint) (ctx : Context) (team : Z)
    (d : HintData) :
  get_team_data self ctx team = Ok d →
  (release_state d = stale → ∃ data, get_release_data self ctx team = Ok data) →
  ∃ ctx' d',
    check_and_set_broadcasted self ctx team = Ok (transitions (release_state d), ctx') ∧
    get_team_data self ctx' team = Ok d' ∧
    release_state d' = after_broadcast (release_state d) ∧
    (∀ h, h ≠ self → get_team_data h ctx' team = get_team_data h ctx team) ∧
    same_outside_team_data ctx ctx' ∧
    (release_state d = stale →
     ∃ data, get_release_data self ctx team = Ok data ∧ release_data d' = Some data) ∧
    (release_state d ≠ stale → release_data d' = release_data d).
Proof.
  intros Hget Hrel. unfold check_and_set_broadcasted. rewrite Hget. cbn [mbind result_bind].
  destruct (release_state d) eqn:Hstate; cbn [bool_decide decide_rel]; simpl.
  - rewrite Hget. cbn [mbind result_bind]. rewrite Hstate. simpl.
    exists ctx, d. rewrite Hstate. repeat split; auto. discriminate.
  - unfold re_check. rewrite Hget. cbn [mbind result_bind]. rewrite Hstate. simpl.
    destruct (Hrel eq_refl) as [data Hdata].
    rewrite Hdata. cbn [mbind result_bind].
    destruct (update_team_data_spec self ctx team (set_release_data (Some data)) d Hget)
      as (ctx1 & Hup1 & Hget1 & Hoth1 & Hfr1).
    rewrite Hup1. cbn [mbind result_bind].
    destruct (update_team_data_spec self ctx1 team (set_release_state fresh) _ Hget1)
      as (ctx2 & Hup2 & Hget2 & Hoth2 & Hfr2).
    rewrite Hup2. cbn [mbind result_bind]. rewrite Hget2. simpl. rewrite Hget2. simpl.
    destruct (update_team_data_spec self ctx2 team (set_release_state broadcasted) _ Hget2)
      as (ctx3 & Hup3 & Hget3 & Hoth3 & Hfr3).
    rewrite Hup3. simpl.
    eexists ctx3, _. split; [reflexivity|]. split; [exact Hget3|]. split; [reflexivity|].
    split; [|split; [|split]].
    + intros h Hne. rewrite Hoth3, Hoth2, Hoth1 by exact Hne. reflexivity.
    + eapply same_outside_team_data_trans; [|exact Hfr3].
      eapply same_outside_team_data_trans; eassumption.
    + intros _. exists data. split; reflexivity.
    + intros H. contradiction.
  - rewrite Hget. cbn [mbind result_bind]. rewrite Hstate. simpl.
    destruct (update_team_data_spec self ctx team (set_release_state broadcasted) d Hget)
      as (ctx1 & Hup1 & Hget1 & Hoth1 & Hfr1).
    rewrite Hup1. simpl.
    eexists ctx1, _. split; [reflexivity|]. split; [exact Hget1|]. split; [reflexivity|].
    split; [exact Hoth1|]. split; [exact Hfr1|]. split; [discriminate | reflexivity].
  - rewrite Hget. cbn [mbind result_bind]. rewrite Hstate. simpl.
    exists ctx, d. rewrite Hstate. repeat split; auto. discriminate.
Qed.

Lemma check_and_set_broadcasted_spec (self : TriggeredHint) (ctx : Context) (team : Z)
    (d : HintData) :
  get_team_data self ctx team = Ok d →
  (∀ p, p ∈ get_recipients self → is_Some (location_checks ctx !! (team, p))) →
  ∃ ctx' d',
    check_and_set_broadcasted self ctx team = Ok (transitions (release_state d), ctx') ∧
    get_team_data self ctx' team = Ok d' ∧
    release_state d' = after_broadcast (release_state d) ∧
    (∀ h, h ≠ self → get_team_data h ctx' team = get_team_data h ctx team) ∧
    same_outside_team_data ctx ctx'.
Proof.
  intros Hget Hchecks.
  destruct (check_and_set_broadcasted_run self ctx team d Hget)
    as (ctx' & d' & Hrun & Hget' & Hstate & Hoth & Hfr & _).
  { intros _. apply get_release_data_total, Hchecks. }
  exists ctx', d'. auto.
Qed.

Lemma needed_updates_add (acc : gset (Z * HintType)) (ty ty' : HintType) (l : list Z) (p : Z) :
  (p, ty') ∈ foldl (λ needed_updates player, needed_updates ∪ {[ (player, ty) ]}) acc l ↔
  (p, ty') ∈ acc ∨ (ty' = ty ∧ p ∈ l).
Proof.
  revert acc. induction l as [|q l IH]; intros acc; simpl.
  - split; [auto | intros [H|[_ H]]; [exact H | inversion H]].
  - rewrite IH, elem_of_union, elem_of_singleton, elem_of_cons. split.
    + intros [[H|[= -> ->]]|[-> H]]; auto.
    + intros [H|[-> [->|H]]]; auto.
Qed.

Lemma foldM_cons {A B} (f : B → A → result B) (acc : B) (x : A) (l : list A) :
  foldM f acc (x :: l) = f acc x ≫= λ acc', foldM f acc' l.
Proof. reflexivity. Qed.

Lemma scan_step_unfold (team : Z) (acc : gset (Z * HintType)) (ctx : Context)
    (ty : HintType) (h : TriggeredHint) :
  scan_step team (acc, ctx) (ty, h) =
  check_and_set_broadcasted h ctx team ≫= λ r : bool * Context,
    if r.1 then
      Ok (foldl (λ needed_updates player, needed_updates ∪ {[ (player, ty) ]})
                acc (get_recipients h), r.2)
    else Ok (acc, r.2).
Proof.
  unfold scan_step. cbn [fst snd].
  destruct (check_and_set_broadcasted h ctx team) as [[[] ctx']|e]; reflexivity.
Qed.

(** The two loops of [broadcast_updates], hint by hint. *)
Lemma scan_fold_spec (team : Z) (L : list (HintType * TriggeredHint)) :
  ∀ (acc0 : gset (Z * HintType)) (ctx0 : Context),
  NoDup L.*2 →
  (∀ x, x ∈ L → ∃ d, get_team_data x.2 ctx0 team = Ok d) →
  (∀ x d, x ∈ L → get_team_data x.2 ctx0 team = Ok d → release_state d = stale →
     ∃ data, get_release_data x.2 ctx0 team = Ok data) →
  ∃ acc ctx1,
    foldM (scan_step team) (acc0, ctx0) L = Ok (acc, ctx1) ∧
    same_outside_team_data ctx0 ctx1 ∧
    (∀ h, h ∉ L.*2 → get_team_data h ctx1 team = get_team_data h ctx0 team) ∧
    (∀ x d, x ∈ L → get_team_data x.2 ctx0 team = Ok d →
       ∃ d1, get_team_data x.2 ctx1 team = Ok d1 ∧
             release_state d1 = after_broadcast (release_state d) ∧
             (release_state d = stale →
              ∃ data, get_release_data x.2 ctx0 team = Ok data ∧ release_data d1 = Some data) ∧
             (release_state d ≠ stale → release_data d1 = release_data d)) ∧
    (∀ p ty, (p, ty) ∈ acc ↔
       (p, ty) ∈ acc0 ∨
       ∃ h d, (ty, h) ∈ L ∧ get_team_data h ctx0 team = Ok d ∧
              transitions (release_state d) = true ∧ p ∈ get_recipients h).
Proof.
  induction L as [|[ty h] L IH]; intros acc0 ctx0 Hnd Hrec Hchecks.
  - exists acc0, ctx0. split; [reflexivity|]. split; [apply same_outside_team_data_refl|].
    split; [reflexivity|]. split.
    + intros x d Hx. inversion Hx.
    + intros p ty. split; [auto|]. intros [H|(h & d & Hin & _)]; [exact H | inversion Hin].
  - cbn [fmap list_fmap snd] in Hnd. apply NoDup_cons in Hnd as [Hh Hnd].
    destruct (Hrec (ty, h)) as [d Hd]; [left|]. cbn [snd] in Hd.
    destruct (check_and_set_broadcasted_run h ctx0 team d Hd) as
      (ctxA & dA & Hrun & HgetA & HstateA & HothA & HfrA & HstaleA & HkeptA).
    { intros Hs. apply (Hchecks (ty, h) d); [left | exact Hd | exact Hs]. }
    assert (Hne : ∀ x, x ∈ L → x.2 ≠ h).
    { intros x Hx Heq. apply Hh. rewrite <- Heq.
      apply (list_elem_of_fmap_2 snd), Hx. }
    assert (HchecksA : location_checks ctxA = location_checks ctx0)
      by (destruct HfrA as (_ & _ & H & _); exact H).
    set (accA := if transitions (release_state d)
                 then foldl (λ needed_updates player, needed_updates ∪ {[ (player, ty) ]})
                            acc0 (get_recipients h)
                 else acc0).
    destruct (IH accA ctxA Hnd) as (acc & ctx1 & Hfold & Hfr & Hout & Hin & Hacc).
    { intros x Hx. rewrite HothA by (apply Hne, Hx). apply Hrec. right. exact Hx. }
    { intros x d' Hx Hd' Hs. rewrite HothA in Hd' by (apply Hne, Hx).
      rewrite (get_release_data_same_checks x.2 ctx0 ctxA team HchecksA).
      apply (Hchecks x d'); [right; exact Hx | exact Hd' | exact Hs]. }
    exists acc, ctx1. split; [|split; [|split; [|split]]].
    + rewrite foldM_cons, scan_step_unfold, Hrun.
      cbn [mbind result_bind fst snd]. subst accA.
      destruct (transitions (release_state d)); exact Hfold.
    + eapply same_outside_team_data_trans; eassumption.
    + intros h' Hh'. cbn [fmap list_fmap snd] in Hh'.
      apply not_elem_of_cons in Hh' as [Hne' Hh'].
      rewrite Hout by exact Hh'. apply HothA, Hne'.
    + intros x d' Hx Hd'. apply elem_of_cons in Hx as [->|Hx].
      * cbn [snd] in *. rewrite Hd in Hd'. injection Hd' as <-.
        exists dA. rewrite Hout by exact Hh. auto.
      * rewrite <- (HothA x.2) in Hd' by (apply Hne, Hx).
        destruct (Hin x d' Hx Hd') as (d1 & Hd1 & Hs1 & Hstale1 & Hkept1).
        exists d1. split; [exact Hd1|]. split; [exact Hs1|]. split; [|exact Hkept1].
        intros Hs. destruct (Hstale1 Hs) as (data & Hdata & Hrd).
        exists data. split; [|exact Hrd].
        rewrite <- (get_release_data_same_checks x.2 ctx0 ctxA team HchecksA). exact Hdata.
    + intros p ty'. rewrite Hacc.
      assert (HaccA : (p, ty') ∈ accA ↔
                (p, ty') ∈ acc0 ∨
                (transitions (release_state d) = true ∧ ty' = ty ∧ p ∈ get_recipients h)).
      { subst accA. destruct (transitions (release_state d)).
        - rewrite needed_updates_add. tauto.
        - split; [auto | intros [H|[H _]]; [exact H | discriminate]]. }
      rewrite HaccA. split.
      * intros [[H|(Ht & -> & Hp)]|(h' & d' & Hx & Hd' & Ht & Hp)].
        -- left. exact H.
        -- right. exists h, d. split; [left | auto].
        -- right. exists h', d'. split; [right; exact Hx|].
           rewrite HothA in Hd' by (apply (Hne (ty', h')), Hx). auto.
      * intros [H|(h' & d' & Hx & Hd' & Ht & Hp)]; [auto|].
        apply elem_of_cons in Hx as [[= -> ->]|Hx].
        -- rewrite Hd in Hd'. injection Hd' as <-. auto.
        -- right. exists h', d'. split; [exact Hx|].
           rewrite HothA by (apply (Hne (ty', h')), Hx). auto.
Qed.

Lemma foldM_ext {A B} (f g : B → A → result B) (l : list A) (acc : B) :
  (∀ acc x, f acc x = g acc x) → foldM f acc l = foldM g acc l.
Proof.
  intros Hfg. revert acc. induction l as [|x l IH]; intros acc; [reflexivity|].
  rewrite !foldM_cons, Hfg. destruct (g acc x); [apply IH | reflexivity].
Qed.

Lemma foldM_app {A B} (f : B → A → result B) (l1 l2 : list A) (acc : B) :
  foldM f acc (l1 ++ l2)%list = foldM f acc l1 ≫= λ acc', foldM f acc' l2.
Proof.
  revert acc. induction l1 as [|x l1 IH]; intros acc; [reflexivity|].
  cbn [app]. rewrite !foldM_cons. destruct (f acc x); [apply IH | reflexivity].
Qed.

Lemma foldM_map {A B C} (f : B → A → result B) (g : C → A) (l : list C) (acc : B) :
  foldM f acc (map g l) = foldM (λ acc x, f acc (g x)) acc l.
Proof.
  revert acc. induction l as [|x l IH]; intros acc; [reflexivity|].
  cbn [map]. rewrite !foldM_cons. destruct (f acc (g x)); [apply IH | reflexivity].
Qed.

Lemma scan_loops_flat (team : Z) (for_team : TeamData) (acc : gset (Z * HintType) * Context) :
  foldM (λ acc (entry : HintType * PyDict.t TriggeredHint HintData),
           foldM (λ acc h, scan_step team acc (entry.1, h)) acc (PyDict.keys entry.2))
        acc for_team
  = foldM (scan_step team) acc (scan_list for_team).
Proof.
  revert acc. induction for_team as [|[ty for_type] rest IH]; intros acc; [reflexivity|].
  rewrite foldM_cons. unfold scan_list. cbn [map concat fst snd].
  rewrite foldM_app, foldM_map.
  destruct (foldM _ acc (PyDict.keys for_type)) as [acc'|e]; [|reflexivity].
  cbn [mbind result_bind]. apply IH.
Qed.

(** The scan of [broadcast_updates] visits the hints of [scan_list] in turn. *)
Lemma collect_updates_flat (ctx : Context) (team : Z) (all_team_data : gmap Z TeamData)
    (for_team : TeamData) :
  team_data ctx = Some all_team_data → all_team_data !! team = Some for_team →
  collect_updates ctx team = foldM (scan_step team) (∅, ctx) (scan_list for_team).
Proof.
  intros Hall Hteam. unfold collect_updates. rewrite Hall. cbn [getitem mbind result_bind].
  rewrite Hteam. cbn [getitem mbind result_bind].
  rewrite <- scan_loops_flat. apply foldM_ext.
  intros [needed_updates ctx'] [hint_type data_for_type]. cbn [fst snd].
  apply foldM_ext. intros [needed_updates' ctx''] triggered_hint.
  rewrite scan_step_unfold.
  destruct (check_and_set_broadcasted triggered_hint ctx'' team) as [[[] c]|e]; reflexivity.
Qed.

(** Once the team has its tables, [ensure_team_init] returns at once. *)
Lemma ensure_team_init_initialised (broadcast : Context → Z → result Context)
    (ctx : Context) (team : Z) (all_team_data : gmap Z TeamData) (for_team : TeamData) :
  team_data ctx = Some all_team_data → all_team_data !! team = Some for_team →
  ensure_team_init_with broadcast ctx team = Ok ctx.
Proof.
  intros Hall Hteam. unfold ensure_team_init_with.
  case_bool_decide; [reflexivity|].
  rewrite Hall. cbn [default from_option id].
  rewrite (with_team_data_id ctx all_team_data Hall).
  rewrite bool_decide_eq_true_2 by (rewrite Hteam; eauto). reflexivity.
Qed.

Lemma scan_list_elem (for_team : TeamData) (ty : HintType) (h : TriggeredHint) :
  (ty, h) ∈ scan_list for_team ↔
  ∃ for_type, (ty, for_type) ∈ for_team ∧ h ∈ PyDict.keys for_type.
Proof.
  unfold scan_list. rewrite list_elem_of_In, in_concat. split.
  - intros (l & Hl & Hin). apply in_map_iff in Hl as ([ty' per] & <- & Hentry).
    apply in_map_iff in Hin as (h' & [= <- <-] & Hh).
    exists per. split; apply list_elem_of_In; assumption.
  - intros (per & Hentry & Hh). exists (map (λ h, (ty, h)) (PyDict.keys per)). split.
    + apply in_map_iff. exists (ty, per). split; [reflexivity | apply list_elem_of_In, Hentry].
    + apply in_map_iff. exists h. split; [reflexivity | apply list_elem_of_In, Hh].
Qed.

Lemma scan_list_NoDup (for_team : TeamData) :
  well_formed_team_data for_team → NoDup (scan_list for_team).*2.
Proof.
  intros [Hkeys Hwf]. induction for_team as [|[ty per] rest IH].
  - constructor.
  - unfold scan_list. cbn [map concat fst snd]. fold (scan_list rest).
    rewrite fmap_app. apply NoDup_app.
    destruct (Hwf ty per) as [Hnd Hty]; [left|].
    unfold PyDict.keys in Hkeys. cbn [fmap list_fmap fst] in Hkeys.
    apply NoDup_cons in Hkeys as [Hfresh Hkeys].
    split; [|split].
    + rewrite <- list_fmap_compose. unfold compose. cbn [snd].
      rewrite list_fmap_id. exact Hnd.
    + intros h Hh Hh'.
      apply list_elem_of_fmap in Hh as ([ty1 h1] & -> & Hh).
      apply list_elem_of_fmap in Hh as (h2 & [= -> ->] & Hh2).
      apply list_elem_of_fmap in Hh' as ([ty3 h3] & Heq & Hh3). cbn [snd] in Heq. subst h3.
      apply scan_list_elem in Hh3 as (per3 & Hentry3 & Hkey3).
      assert (type_of h2 = ty3) by (apply (Hwf ty3 per3); [right; exact Hentry3 | exact Hkey3]).
      assert (type_of h2 = ty) by (apply Hty, Hh2).
      apply Hfresh. apply (list_elem_of_fmap_2 fst) in Hentry3. cbn [fst] in Hentry3.
      congruence.
    + apply IH; [exact Hkeys|].
      intros ty' per' Hin. apply Hwf. right. exact Hin.
Qed.

Lemma call_on_changed_fold (team : Z) (l : list (Z * HintType)) (ctx : Context) :
  let ctx' := foldl (λ ctx '(player, hint_type), call_on_changed ctx team player hint_type)
                    ctx l in
  on_changed_triggerable_hints ctx' =
    (on_changed_triggerable_hints ctx ++ map (λ x : Z * HintType, (team, x.1, x.2)) l)%list ∧
  team_data ctx' = team_data ctx.
Proof.
  revert ctx. induction l as [|[p ty] l IH]; intros ctx; cbn [foldl map].
  - rewrite app_nil_r. split; reflexivity.
  - destruct (IH (call_on_changed ctx team p ty)) as [Hlog Hdata].
    cbv zeta in Hlog, Hdata |- *. rewrite Hlog, Hdata. cbn.
    rewrite <- app_assoc. split; reflexivity.
Qed.

Lemma get_team_data_same_tables (h : TriggeredHint) (ctx ctx' : Context) (team : Z) :
  team_data ctx' = team_data ctx → get_team_data h ctx' team = get_team_data h ctx team.
Proof. unfold get_team_data. intros ->. reflexivity. Qed.

Lemma scan_list_has_record (ctx : Context) (team : Z) (all_team_data : gmap Z TeamData)
    (for_team : TeamData) (ty : HintType) (h : TriggeredHint) :
  team_data ctx = Some all_team_data → all_team_data !! team = Some for_team →
  well_formed_team_data for_team →
  (ty, h) ∈ scan_list for_team →
  type_of h = ty ∧ ∃ d, get_team_data h ctx team = Ok d.
Proof.
  intros Hall Hteam [Hkeys Hwf] (per & Hentry & Hh)%scan_list_elem.
  destruct (Hwf ty per Hentry) as [_ Hty]. specialize (Hty h Hh). split; [exact Hty|].
  destruct (PyDict_get_Some_of_key per h Hh) as [d Hd].
  exists d. apply get_team_data_Ok. exists all_team_data, for_team, per.
  repeat split; try assumption.
  rewrite Hty. apply PyDict_get_of_elem; assumption.
Qed.

Lemma record_in_scan_list (ctx : Context) (team : Z) (all_team_data : gmap Z TeamData)
    (for_team : TeamData) (h : TriggeredHint) (d : HintData) :
  team_data ctx = Some all_team_data → all_team_data !! team = Some for_team →
  get_team_data h ctx team = Ok d →
  (type_of h, h) ∈ scan_list for_team.
Proof.
  intros Hall Hteam (all & ft & per & Hall' & Hteam' & Hper & Hd)%get_team_data_Ok.
  rewrite Hall in Hall'. injection Hall' as <-.
  rewrite Hteam in Hteam'. injection Hteam' as <-.
  apply scan_list_elem. exists per. split.
  - apply PyDict_get_elem, Hper.
  - eapply PyDict_get_key, Hd.
Qed.

Lemma call_on_changed_fold_frame (team : Z) (l : list (Z * HintType)) (ctx : Context) :
  let ctx' := foldl (λ ctx '(player, hint_type), call_on_changed ctx team player hint_type)
                    ctx l in
  triggerable_hints ctx' = triggerable_hints ctx ∧
  indexes_FreeTrigger ctx' = indexes_FreeTrigger ctx ∧
  location_checks ctx' = location_checks ctx ∧
  notify_triggered_hints ctx' = notify_triggered_hints ctx.
Proof.
  revert ctx. induction l as [|[p ty] l IH]; intros ctx; cbn [foldl].
  - repeat split.
  - destruct (IH (call_on_changed ctx team p ty)) as (H1 & H2 & H3 & H4).
    cbv zeta in H1, H2, H3, H4 |- *. rewrite H1, H2, H3, H4. repeat split.
Qed.

(** The check state that [checks_available] asks for lets [get_release_data]
    return for every stale hint of the team. *)
Lemma checks_available_release_data (ctx : Context) (team : Z)
    (all_team_data : gmap Z TeamData) (for_team : TeamData) (h : TriggeredHint) (d : HintData) :
  team_data ctx = Some all_team_data → all_team_data !! team = Some for_team →
  checks_available ctx team for_team →
  get_team_data h ctx team = Ok d → release_state d = stale →
  ∃ data, get_release_data h ctx team = Ok data.
Proof.
  intros Hall Hteam Hchecks (all & ft & per & Hall' & Hteam' & Hper & Hd)%get_team_data_Ok Hs.
  rewrite Hall in Hall'. injection Hall' as <-.
  rewrite Hteam in Hteam'. injection Hteam' as <-.
  apply get_release_data_returns. intros p Hp.
  apply (Hchecks (type_of h) per h d p); [| |exact Hs|exact Hp].
  - apply PyDict_get_elem, Hper.
  - apply PyDict_get_elem, Hd.
Qed.

(** C8 (one notification per recipient and hint type): let the tables of the
    team exist, with every hint filed under its type, and let the check state
    have an entry for the player of every stale location set that lists a
    location (the one entry the pass reads).  Then [broadcast_updates]
    returns.  The calls of the callback it adds are all for this team and no
    call occurs twice.  There is a call for [(player, hint type)] exactly
    when some hint of this type with this player among its recipients was
    stale or fresh before the pass; equally, exactly when some such hint was
    not broadcasted before the pass and is broadcasted after it.  Every
    record that was stale or fresh is broadcasted after the pass, a stale one
    with the release data computed from the check state; an unreleased or
    broadcasted record keeps its state and its data.  Nothing else of the
    context changes. *)
Theorem C8_broadcast_updates_once_per_pair (fuel : nat) (ctx : Context) (team : Z)
    (all_team_data : gmap Z TeamData) (for_team : TeamData) :
  team_data ctx = Some all_team_data →
  all_team_data !! team = Some for_team →
  well_formed_team_data for_team →
  checks_available ctx team for_team →
  ∃ (ctx' : Context) (calls : list (Z * Z * HintType)),
    broadcast_updates (S fuel) ctx team = Ok ctx' ∧
    on_changed_triggerable_hints ctx' = (on_changed_triggerable_hints ctx ++ calls)%list ∧
    NoDup calls ∧
    (∀ (t p : Z) (ty : HintType),
       (t, p, ty) ∈ calls ↔
       t = team ∧ ∃ h d, type_of h = ty ∧ p ∈ get_recipients h ∧
                         get_team_data h ctx team = Ok d ∧
                         (release_state d = stale ∨ release_state d = fresh)) ∧
    (∀ (t p : Z) (ty : HintType),
       (t, p, ty) ∈ calls ↔
       t = team ∧ ∃ h, type_of h = ty ∧ p ∈ get_recipients h ∧
                       newly_broadcasted ctx ctx' team h) ∧
    (∀ h d, get_team_data h ctx team = Ok d →
       ∃ d', get_team_data h ctx' team = Ok d' ∧
             release_state d' = after_broadcast (release_state d) ∧
             (release_state d = stale →
              ∃ data, get_release_data h ctx team = Ok data ∧ release_data d' = Some data) ∧
             (release_state d ≠ stale → release_data d' = release_data d)) ∧
    triggerable_hints ctx' = triggerable_hints ctx ∧
    indexes_FreeTrigger ctx' = indexes_FreeTrigger ctx ∧
    location_checks ctx' = location_checks ctx ∧
    notify_triggered_hints ctx' = notify_triggered_hints ctx.
Proof.
  intros Hall Hteam Hwf Hchecks.
  cbn [broadcast_updates].
  rewrite (ensure_team_init_initialised _ ctx team all_team_data for_team Hall Hteam).
  cbn [mbind result_bind].
  rewrite (collect_updates_flat ctx team all_team_data for_team Hall Hteam).
  destruct (scan_fold_spec team (scan_list for_team) ∅ ctx) as
    (acc & ctx1 & Hfold & Hfr & Hout & Hin & Hacc).
  { apply scan_list_NoDup, Hwf. }
  { intros [ty h] Hx. eapply scan_list_has_record; eassumption. }
  { intros [ty h] d _ Hd Hs. cbn [snd] in *.
    exact (checks_available_release_data ctx team all_team_data for_team h d
             Hall Hteam Hchecks Hd Hs). }
  rewrite Hfold. cbn [mbind result_bind].
  destruct (call_on_changed_fold team (elements acc) ctx1) as [Hlog Hdata].
  destruct (call_on_changed_fold_frame team (elements acc) ctx1) as (Hf1 & Hf2 & Hf3 & Hf4).
  cbv zeta in Hlog, Hdata, Hf1, Hf2, Hf3, Hf4.
  destruct Hfr as (Hg1 & Hg2 & Hg3 & Hg4 & Hg5).
  set (ctx' := foldl (λ ctx '(player, hint_type), call_on_changed ctx team player hint_type)
                     ctx1 (elements acc)) in *.
  assert (Hrecords : ∀ h d, get_team_data h ctx team = Ok d →
       ∃ d', get_team_data h ctx' team = Ok d' ∧
             release_state d' = after_broadcast (release_state d) ∧
             (release_state d = stale →
              ∃ data, get_release_data h ctx team = Ok data ∧ release_data d' = Some data) ∧
             (release_state d ≠ stale → release_data d' = release_data d)).
  { intros h d Hd.
    pose proof (record_in_scan_list ctx team all_team_data for_team h d Hall Hteam Hd) as Hx.
    destruct (Hin (type_of h, h) d Hx Hd) as (d1 & Hd1 & Hrest). cbn [snd] in *.
    exists d1. split; [|exact Hrest].
    rewrite (get_team_data_same_tables h ctx1 ctx' team Hdata). exact Hd1. }
  assert (Hcalls : ∀ t p ty,
            (t, p, ty) ∈ map (λ x : Z * HintType, (team, x.1, x.2)) (elements acc)
            ↔ t = team ∧ (p, ty) ∈ acc).
  { intros t p ty. rewrite list_elem_of_fmap. split.
    - intros ([p' ty'] & [= -> -> ->] & Hel). split; [reflexivity|].
      apply elem_of_elements, Hel.
    - intros [-> Hel]. exists (p, ty). split; [reflexivity | apply elem_of_elements, Hel]. }
  assert (Hfirst : ∀ t p ty,
            (t, p, ty) ∈ map (λ x : Z * HintType, (team, x.1, x.2)) (elements acc) ↔
            t = team ∧ ∃ h d, type_of h = ty ∧ p ∈ get_recipients h ∧
                              get_team_data h ctx team = Ok d ∧
                              (release_state d = stale ∨ release_state d = fresh)).
  { intros t p ty. rewrite Hcalls, Hacc. split.
    - intros [-> [Hempty|(h & d & Hx & Hd & Htrans & Hp)]].
      { exfalso. exact (not_elem_of_empty (C:=gset (Z * HintType)) _ Hempty). }
      split; [reflexivity|]. exists h, d.
      destruct (scan_list_has_record ctx team all_team_data for_team ty h Hall Hteam Hwf Hx)
        as [Hty _].
      split; [exact Hty|]. split; [exact Hp|]. split; [exact Hd|].
      destruct (release_state d); try discriminate; auto.
    - intros [-> (h & d & Hty & Hp & Hd & Hs)].
      split; [reflexivity|]. right. exists h, d.
      pose proof (record_in_scan_list ctx team all_team_data for_team h d Hall Hteam Hd) as Hx.
      rewrite Hty in Hx. split; [exact Hx|]. split; [exact Hd|]. split; [|exact Hp].
      destruct Hs as [-> | ->]; reflexivity. }
  exists ctx', (map (λ x : Z * HintType, (team, x.1, x.2)) (elements acc)).
  split; [reflexivity|]. split; [|split; [|split; [|split; [|split]]]].
  - rewrite Hlog, Hg4. reflexivity.
  - assert (Hinj : Inj (=) (=) (λ x : Z * HintType, (team, x.1, x.2))).
    { intros [p1 ty1] [p2 ty2] [= -> ->]. reflexivity. }
    apply (NoDup_fmap_2 _), NoDup_elements.
  - exact Hfirst.
  - intros t p ty. rewrite Hfirst. split.
    + intros [-> (h & d & Hty & Hp & Hd & Hs)]. split; [reflexivity|].
      exists h. split; [exact Hty|]. split; [exact Hp|].
      destruct (Hrecords h d Hd) as (d' & Hd' & Hstate & _).
      exists d, d'. split; [exact Hd|]. split; [|split; [exact Hd'|]].
      * destruct Hs as [Hs|Hs]; rewrite Hs; discriminate.
      * rewrite Hstate. destruct Hs as [-> | ->]; reflexivity.
    + intros [-> (h & Hty & Hp & d & d' & Hd & Hnot & Hd' & Hb)]. split; [reflexivity|].
      exists h, d. split; [exact Hty|]. split; [exact Hp|]. split; [exact Hd|].
      destruct (Hrecords h d Hd) as (d1 & Hd1 & Hstate & _).
      rewrite Hd1 in Hd'. injection Hd' as <-. rewrite Hstate in Hb.
      destruct (release_state d); auto; try discriminate. congruence.
  - exact Hrecords.
  - rewrite Hf1, Hf2, Hf3, Hf4, Hg1, Hg2, Hg3, Hg5. repeat split.
Qed.

Lemma team_0_tables_well_formed : well_formed_team_data team_0_tables.
Proof.
  split.
  - apply (bool_decide_unpack _). vm_compute. exact I.
  - intros ty for_type Hin. unfold team_0_tables in Hin. rewrite !elem_of_cons in Hin.
    destruct Hin as [[= -> ->]|[[= -> ->]|Hin]]; [ | | inversion Hin].
    + split; [apply (bool_decide_unpack _); vm_compute; exact I|].
      intros h Hh. cbn in Hh. rewrite !elem_of_cons in Hh.
      destruct Hh as [->|[->|Hh]]; [reflexivity | reflexivity | inversion Hh].
    + split; [apply (bool_decide_unpack _); vm_compute; exact I|].
      intros h Hh. cbn in Hh. rewrite !elem_of_cons in Hh.
      destruct Hh as [->|Hh]; [reflexivity | inversion Hh].
Defined.

Lemma team_0_tables_stale_region_well_formed :
  well_formed_team_data team_0_tables_stale_region.
Proof.
  split.
  - apply (bool_decide_unpack _). vm_compute. exact I.
  - intros ty for_type Hin. unfold team_0_tables_stale_region in Hin.
    rewrite !elem_of_cons in Hin.
    destruct Hin as [[= -> ->]|[[= -> ->]|Hin]]; [ | | inversion Hin].
    + split; [apply (bool_decide_unpack _); vm_compute; exact I|].
      intros h Hh. cbn in Hh. rewrite !elem_of_cons in Hh.
      destruct Hh as [->|[->|Hh]]; [reflexivity | reflexivity | inversion Hh].
    + split; [apply (bool_decide_unpack _); vm_compute; exact I|].
      intros h Hh. cbn in Hh. rewrite !elem_of_cons in Hh.
      destruct Hh as [->|Hh]; [reflexivity | inversion Hh].
Defined.

(** Only the stale location set of player 2 reads the check state. *)
Lemma ctx_stale_region_checks :
  checks_available ctx_stale_region 0 team_0_tables_stale_region.
Proof.
  intros ty for_type h d p Hin Hh Hs Hp. unfold team_0_tables_stale_region in Hin.
  rewrite !elem_of_cons in Hin.
  destruct Hin as [[= -> ->]|[[= -> ->]|Hin]]; [ | | inversion Hin];
    rewrite !elem_of_cons in Hh.
  - destruct Hh as [[= -> ->]|[[= -> ->]|Hh]]; [ | | inversion Hh]; discriminate Hp.
  - destruct Hh as [[= -> ->]|Hh]; [|inversion Hh].
    vm_compute in Hp. injection Hp as <-. vm_compute. eauto.
Defined.

Lemma C8_broadcast_updates_once_per_pair_witness :
  ∃ (ctx' : Context) (calls : list (Z * Z * HintType)),
    broadcast_updates 1 ctx_stale_region 0 = Ok ctx' ∧
    on_changed_triggerable_hints ctx' = calls ∧
    NoDup calls ∧
    (∀ c, c ∈ calls ↔ c = (0, 1, TextHint_type) ∨ c = (0, 2, LocationSetHint_type)) ∧
    get_team_data text_hint_a ctx' 0
      = Ok {| release_state := broadcasted; release_data := Some text_hint_a |} ∧
    get_team_data text_hint_b ctx' 0
      = Ok {| release_state := broadcasted; release_data := Some text_hint_b |} ∧
    get_team_data region_hint ctx' 0
      = Ok {| release_state := broadcasted;
              release_data :=
                Some (LocationSetHint 2 "Forest" "region_items" 8 {[ 10 := (5, 7) ]}) |} ∧
    notify_triggered_hints ctx' = [].
Proof.
  destruct (C8_broadcast_updates_once_per_pair 0 ctx_stale_region 0
              {[ 0 := team_0_tables_stale_region ]} team_0_tables_stale_region)
    as (ctx' & calls & Hrun & Hlog & Hnd & Hcalls & _ & Hrec & _ & _ & _ & Hnotify).
  - reflexivity.
  - vm_compute. reflexivity.
  - exact team_0_tables_stale_region_well_formed.
  - exact ctx_stale_region_checks.
  - exists ctx', calls. split; [exact Hrun|]. split; [exact Hlog|]. split; [exact Hnd|].
    assert (Ha : get_team_data text_hint_a ctx_stale_region 0
                 = Ok {| release_state := stale; release_data := None |})
      by (vm_compute; reflexivity).
    assert (Hb : get_team_data text_hint_b ctx_stale_region 0
                 = Ok {| release_state := fresh; release_data := Some text_hint_b |})
      by (vm_compute; reflexivity).
    assert (Hr : get_team_data region_hint ctx_stale_region 0
                 = Ok {| release_state := stale; release_data := None |})
      by (vm_compute; reflexivity).
    split; [|split; [|split; [|split]]].
    + intros [[t p] ty]. rewrite (Hcalls t p ty). split.
      * intros [-> (h & d & Hty & Hp & Hd & Hs)].
        pose proof (record_in_scan_list ctx_stale_region 0 _ team_0_tables_stale_region h d
                      eq_refl eq_refl Hd) as Hx.
        change (scan_list team_0_tables_stale_region)
          with [ (TextHint_type, text_hint_a); (TextHint_type, text_hint_b);
                 (LocationSetHint_type, region_hint) ] in Hx.
        rewrite !elem_of_cons in Hx.
        destruct Hx as [[= _ ->]|[[= _ ->]|[[= _ ->]|Hx]]]; [ | | | inversion Hx];
          cbn in Hty, Hp; apply list_elem_of_singleton in Hp; subst; auto.
      * intros [[= -> -> ->]|[= -> -> ->]]; (split; [reflexivity|]).
        -- exists text_hint_a, {| release_state := stale; release_data := None |}.
           split; [reflexivity|]. split; [left|]. split; [exact Ha | left; reflexivity].
        -- exists region_hint, {| release_state := stale; release_data := None |}.
           split; [reflexivity|]. split; [left|]. split; [exact Hr | left; reflexivity].
    + destruct (Hrec _ _ Ha) as ([s r] & Hd' & Hst & Hstale & _).
      destruct (Hstale eq_refl) as (data & Hdata & Hrd).
      cbn in Hst, Hrd, Hdata. injection Hdata as <-. subst s r. exact Hd'.
    + destruct (Hrec _ _ Hb) as ([s r] & Hd' & Hst & _ & Hkept).
      cbn in Hst, Hkept. rewrite Hkept in Hd' by discriminate. subst s. exact Hd'.
    + destruct (Hrec _ _ Hr) as ([s r] & Hd' & Hst & Hstale & _).
      destruct (Hstale eq_refl) as (data & Hdata & Hrd).
      assert (Hrel : get_release_data region_hint ctx_stale_region 0
                     = Ok (LocationSetHint 2 "Forest" "region_items" 8 {[ 10 := (5, 7) ]}))
        by (vm_compute; reflexivity).
      rewrite Hrel in Hdata. injection Hdata as <-.
      cbn in Hst, Hrd. subst s r. exact Hd'.
    + exact Hnotify.
Defined.

(** Without the check state of player 2 the pass raises while it computes the
    release data of the stale location set; the callback is not called. *)
Example broadcast_updates_missing_check_state :
  broadcast_updates 1 ctx_stale_region_no_checks 0 = Raise (KeyError "(0, 2)").
Proof. vm_compute. reflexivity. Qed.

(** Both text hints of player 1 become broadcasted in the pass, and the
    callback is called once. *)
Example broadcast_updates_two_hints_one_call :
  on_changed_triggerable_hints <$> broadcast_updates 1 ctx_two_released 0
    = Ok [(0, 1, TextHint_type)] ∧
  (broadcast_updates 1 ctx_two_released 0 ≫= λ ctx',
     release_state <$> get_team_data text_hint_a ctx' 0) = Ok broadcasted ∧
  (broadcast_updates 1 ctx_two_released 0 ≫= λ ctx',
     release_state <$> get_team_data text_hint_b ctx' 0) = Ok broadcasted ∧
  (broadcast_updates 1 ctx_two_released 0 ≫= λ ctx',
     release_state <$> get_team_data region_hint ctx' 0) = Ok unreleased.
Proof. repeat split; vm_compute; reflexivity. Qed.

(** A second pass calls nothing. *)
Example broadcast_updates_again_no_call :
  (broadcast_updates 1 ctx_two_released 0 ≫= λ ctx',
     on_changed_triggerable_hints <$> broadcast_updates 1 ctx' 0)
    = Ok [(0, 1, TextHint_type)].
Proof. vm_compute. reflexivity. Qed.

(** ** Hint release state machine: what initialisation establishes *)

Lemma PyDict_keys_set_elem {K V} `{EqDecision K} (d : PyDict.t K V) (k k' : K) (v : V) :
  k' ∈ PyDict.keys (PyDict.set d k v) ↔ k' = k ∨ k' ∈ PyDict.keys d.
Proof.
  unfold PyDict.keys. induction d as [|[k0 v0] d IH]; cbn [PyDict.set].
  - cbn. rewrite elem_of_cons. reflexivity.
  - destruct (decide (k0 = k)) as [->|Hne]; cbn [fmap list_fmap fst].
    + rewrite !elem_of_cons. tauto.
    + rewrite !elem_of_cons, IH. tauto.
Qed.

Lemma PyDict_set_NoDup {K V} `{EqDecision K} (d : PyDict.t K V) (k : K) (v : V) :
  NoDup (PyDict.keys d) → NoDup (PyDict.keys (PyDict.set d k v)).
Proof.
  induction d as [|[k0 v0] d IH]; cbn [PyDict.set].
  - intros _. apply NoDup_singleton.
  - unfold PyDict.keys in *. cbn [fmap list_fmap fst].
    intros [Hk0 Hnd]%NoDup_cons.
    destruct (decide (k0 = k)) as [->|Hne]; cbn [fmap list_fmap fst].
    + apply NoDup_cons. split; assumption.
    + apply NoDup_cons. split; [|apply IH, Hnd].
      intros [?|?]%PyDict_keys_set_elem; [congruence | contradiction].
Qed.

Lemma PyDict_elem_set {K V} `{EqDecision K} (d : PyDict.t K V) (k : K) (v : V) (x : K * V) :
  x ∈ PyDict.set d k v → x = (k, v) ∨ x ∈ d.
Proof.
  induction d as [|[k0 v0] d IH]; cbn [PyDict.set].
  - intros ->%list_elem_of_singleton. left. reflexivity.
  - destruct (decide (k0 = k)) as [->|Hne]; rewrite !elem_of_cons.
    + tauto.
    + intros [H|H]; [tauto|]. apply IH in H. tauto.
Qed.

(** Storing a table of hints of the right type keeps the tables well formed. *)
Lemma set_table_well_formed (for_team : TeamData) (ty : HintType)
    (for_type : PyDict.t TriggeredHint HintData) :
  well_formed_team_data for_team →
  NoDup (PyDict.keys for_type) →
  (∀ h, h ∈ PyDict.keys for_type → type_of h = ty) →
  well_formed_team_data (PyDict.set for_team ty for_type).
Proof.
  intros [Hkeys Hwf] Hnd Hty. split; [apply PyDict_set_NoDup, Hkeys|].
  intros ty' per' [[= -> ->]|Hin]%PyDict_elem_set; [split; assumption | apply Hwf, Hin].
Qed.

Lemma set_record_well_formed (for_team : TeamData) (h : TriggeredHint)
    (for_type : PyDict.t TriggeredHint HintData) (d : HintData) :
  well_formed_team_data for_team →
  PyDict.get for_team (type_of h) = Some for_type ∨
    (PyDict.get for_team (type_of h) = None ∧ for_type = []) →
  well_formed_team_data (PyDict.set for_team (type_of h) (PyDict.set for_type h d)).
Proof.
  intros Hwf Hper.
  assert (Hold : NoDup (PyDict.keys for_type) ∧
                 ∀ h', h' ∈ PyDict.keys for_type → type_of h' = type_of h).
  { destruct Hper as [Hper|[_ ->]].
    - apply Hwf. apply PyDict_get_elem, Hper.
    - split; [constructor | intros h' Hh'; inversion Hh']. }
  destruct Hold as [Hnd Hty].
  apply set_table_well_formed; [exact Hwf | apply PyDict_set_NoDup, Hnd|].
  intros h' [->|Hh']%PyDict_keys_set_elem; [reflexivity | apply Hty, Hh'].
Qed.

Lemma update_team_data_initialised (self : TriggeredHint) (ctx ctx' : Context) (team : Z)
    (f : HintData → HintData) :
  team_initialised ctx team →
  update_team_data self ctx team f = Ok ctx' →
  team_initialised ctx' team ∧ same_outside_team_data ctx ctx'.
Proof.
  intros (all & ft & Hall & Hteam & Hwf). unfold update_team_data.
  rewrite Hall. cbn [getitem mbind result_bind]. rewrite Hteam. cbn [getitem mbind result_bind].
  destruct (PyDict.get ft (type_of self)) as [per|] eqn:Hper; [|discriminate].
  cbn [getitem mbind result_bind].
  destruct (PyDict.get per self) as [d|]; [|discriminate].
  cbn [getitem mbind result_bind]. intros [= <-]. split; [|repeat split].
  eexists _, _. split; [reflexivity|]. split; [apply lookup_insert_eq|].
  apply set_record_well_formed; [exact Hwf | left; exact Hper].
Qed.

Lemma init_team_data_initialised (self : TriggeredHint) (ctx ctx' : Context) (team : Z) :
  team_initialised ctx team →
  init_team_data self ctx team = Ok ctx' →
  team_initialised ctx' team ∧ same_outside_team_data ctx ctx'.
Proof.
  intros (all & ft & Hall & Hteam & Hwf). unfold init_team_data.
  rewrite Hall. cbn [getitem mbind result_bind]. rewrite Hteam. cbn [getitem mbind result_bind].
  intros [= <-]. split; [|repeat split].
  eexists _, _. split; [reflexivity|]. split; [apply lookup_insert_eq|].
  apply set_record_well_formed; [exact Hwf|].
  destruct (PyDict.get ft (type_of self)); [left | right; split]; reflexivity.
Qed.

Lemma keeps_bind {A B} (team : Z) (ctx : Context) (p1 : A → Context) (p2 : B → Context)
    (m : result A) (k : A → result B) :
  keeps_initialised team ctx p1 m →
  (∀ a, team_initialised (p1 a) team → triggerable_hints (p1 a) = triggerable_hints ctx →
        keeps_initialised team ctx p2 (k a)) →
  keeps_initialised team ctx p2 (m ≫= k).
Proof.
  destruct m as [a|e]; cbn [mbind result_bind]; [|auto].
  intros [Hinit Hhints] Hk. apply Hk; assumption.
Qed.

Lemma keeps_bind_pure {A B} (team : Z) (ctx : Context) (p : B → Context)
    (m : result A) (k : A → result B) :
  (∀ e, m = Raise e → e ≠ RecursionError) →
  (∀ a, m = Ok a → keeps_initialised team ctx p (k a)) →
  keeps_initialised team ctx p (m ≫= k).
Proof.
  destruct m as [a|e]; cbn [mbind result_bind]; intros Hm Hk; [apply Hk | apply Hm]; reflexivity.
Qed.

Lemma keeps_rebase {A} (team : Z) (ctx ctx0 : Context) (p : A → Context) (m : result A) :
  triggerable_hints ctx = triggerable_hints ctx0 →
  keeps_initialised team ctx p m → keeps_initialised team ctx0 p m.
Proof. destruct m; cbn; [intros <- | intros _]; auto. Qed.

Lemma keeps_Ok {A} (team : Z) (ctx : Context) (p : A → Context) (a : A) :
  team_initialised (p a) team → triggerable_hints (p a) = triggerable_hints ctx →
  keeps_initialised team ctx p (Ok a).
Proof. cbn. auto. Qed.

Lemma getitem_no_recursion {A} (key : string) (o : option A) (e : PyExc) :
  getitem key o = Raise e → e ≠ RecursionError.
Proof. destruct o; cbn; [discriminate | intros [= <-]; discriminate]. Qed.

Lemma get_team_data_no_recursion (self : TriggeredHint) (ctx : Context) (team : Z) (e : PyExc) :
  get_team_data self ctx team = Raise e → e ≠ RecursionError.
Proof.
  unfold get_team_data.
  destruct (team_data ctx) as [all|]; cbn; [|intros [= <-]; discriminate].
  destruct (all !! team) as [ft|]; cbn; [|intros [= <-]; discriminate].
  destruct (PyDict.get ft (type_of self)) as [per|]; cbn; [|intros [= <-]; discriminate].
  apply getitem_no_recursion.
Qed.

Lemma get_release_data_no_recursion (self : TriggeredHint) (ctx : Context) (team : Z)
    (e : PyExc) :
  get_release_data self ctx team = Raise e → e ≠ RecursionError.
Proof.
  destruct self as [p text | p label kind total pld]; cbn; [discriminate|].
  case_bool_decide; [discriminate|].
  destruct (location_checks ctx !! (team, p)); cbn; [discriminate | intros [= <-]; discriminate].
Qed.

Lemma as_message_parts_no_recursion (self : TriggeredHint) (e : PyExc) :
  as_message_parts self = Raise e → e ≠ RecursionError.
Proof.
  destruct self as [p text | p label kind total pld]; cbn; [discriminate|].
  destruct (_ || _); [discriminate | intros [= <-]; discriminate].
Qed.

Lemma update_team_data_keeps (self : TriggeredHint) (ctx : Context) (team : Z)
    (f : HintData → HintData) :
  team_initialised ctx team →
  keeps_initialised team ctx id (update_team_data self ctx team f).
Proof.
  intros Hinit. destruct (update_team_data self ctx team f) as [ctx'|e] eqn:Hrun; cbn.
  - destruct (update_team_data_initialised self ctx ctx' team f Hinit Hrun) as [H Hfr].
    split; [exact H | apply Hfr].
  - revert Hrun. unfold update_team_data.
    destruct (team_data ctx) as [all|]; cbn; [|intros [= <-]; discriminate].
    destruct (all !! team) as [ft|]; cbn; [|intros [= <-]; discriminate].
    destruct (PyDict.get ft (type_of self)) as [per|]; cbn; [|intros [= <-]; discriminate].
    destruct (PyDict.get per self); cbn; [discriminate | intros [= <-]; discriminate].
Qed.

Lemma init_team_data_keeps (self : TriggeredHint) (ctx : Context) (team : Z) :
  team_initialised ctx team →
  keeps_initialised team ctx id (init_team_data self ctx team).
Proof.
  intros Hinit. destruct (init_team_data self ctx team) as [ctx'|e] eqn:Hrun; cbn.
  - destruct (init_team_data_initialised self ctx ctx' team Hinit Hrun) as [H Hfr].
    split; [exact H | apply Hfr].
  - revert Hrun. unfold init_team_data.
    destruct (team_data ctx) as [all|]; cbn; [|intros [= <-]; discriminate].
    destruct (all !! team) as [ft|]; cbn; [discriminate | intros [= <-]; discriminate].
Qed.

Lemma re_check_keeps (self : TriggeredHint) (ctx : Context) (team : Z) :
  team_initialised ctx team →
  keeps_initialised team ctx snd (re_check self ctx team).
Proof.
  intros Hinit. unfold re_check.
  apply keeps_bind_pure; [apply get_team_data_no_recursion|]. intros d _.
  case_bool_decide; [cbn; discriminate|].
  case_bool_decide; [|apply keeps_Ok; [exact Hinit | reflexivity]].
  apply keeps_bind_pure; [apply get_release_data_no_recursion|]. intros data _.
  eapply keeps_bind; [apply update_team_data_keeps, Hinit|]. intros ctx1 Hinit1 Hhints1.
  eapply keeps_bind.
  { eapply keeps_rebase; [exact Hhints1 | apply update_team_data_keeps, Hinit1]. }
  intros ctx2 Hinit2 Hhints2.
  apply keeps_bind_pure; [apply get_team_data_no_recursion|]. intros d2 _.
  apply keeps_Ok; assumption.
Qed.

Lemma check_and_set_broadcasted_keeps (self : TriggeredHint) (ctx : Context) (team : Z) :
  team_initialised ctx team →
  keeps_initialised team ctx snd (check_and_set_broadcasted self ctx team).
Proof.
  intros Hinit. unfold check_and_set_broadcasted.
  apply keeps_bind_pure; [apply get_team_data_no_recursion|]. intros d _.
  apply (keeps_bind team ctx id).
  { case_bool_decide; [|apply keeps_Ok; [exact Hinit | reflexivity]].
    pose proof (re_check_keeps self ctx team Hinit) as Hre.
    destruct (re_check self ctx team) as [[r c]|e]; exact Hre. }
  intros ctx1 Hinit1 Hhints1.
  apply keeps_bind_pure; [apply get_team_data_no_recursion|]. intros d1 _.
  case_bool_decide; [|apply keeps_Ok; assumption].
  apply (keeps_bind team ctx id).
  { eapply keeps_rebase; [exact Hhints1 | apply update_team_data_keeps, Hinit1]. }
  intros ctx2 Hinit2 Hhints2. apply keeps_Ok; assumption.
Qed.

Lemma foldM_keeps {A B} (team : Z) (ctx : Context) (p : B → Context)
    (f : B → A → result B) (l : list A) (acc : B) :
  (∀ acc x, team_initialised (p acc) team →
            triggerable_hints (p acc) = triggerable_hints ctx →
            keeps_initialised team ctx p (f acc x)) →
  team_initialised (p acc) team → triggerable_hints (p acc) = triggerable_hints ctx →
  keeps_initialised team ctx p (foldM f acc l).
Proof.
  intros Hf. revert acc. induction l as [|x l IH]; intros acc Hinit Hhints.
  - apply keeps_Ok; assumption.
  - rewrite foldM_cons. eapply keeps_bind; [apply Hf; assumption|].
    intros acc' Hinit' Hhints'. apply IH; assumption.
Qed.

Lemma release_keeps (self : TriggeredHint) (ctx : Context) (team : Z) :
  team_initialised ctx team →
  keeps_initialised team ctx snd (TriggeredHint_.release self ctx team).
Proof.
  intros Hinit. unfold TriggeredHint_.release.
  apply keeps_bind_pure; [apply get_team_data_no_recursion|]. intros d _.
  case_bool_decide; [|apply keeps_Ok; [exact Hinit | reflexivity]].
  eapply keeps_bind; [apply update_team_data_keeps, Hinit|].
  intros ctx1 Hinit1 Hhints1. apply keeps_Ok; assumption.
Qed.

Lemma triggerable_release_keeps (self : TriggerableHint) (ctx : Context) (team : Z) :
  team_initialised ctx team →
  keeps_initialised team ctx id (TriggerableHint_.release self ctx team).
Proof.
  intros Hinit. unfold TriggerableHint_.release.
  eapply keeps_bind; [apply release_keeps, Hinit|].
  intros [released ctx1] Hinit1 Hhints1. cbn [snd] in Hinit1, Hhints1.
  destruct released; [|apply keeps_Ok; assumption].
  destruct (trigger self) as [|finding_player location]; [apply keeps_Ok; assumption|].
  eapply keeps_bind.
  { eapply keeps_rebase; [exact Hhints1 | apply re_check_keeps, Hinit1]. }
  intros [data ctx2] Hinit2 Hhints2. cbn [snd] in Hinit2, Hhints2.
  apply keeps_bind_pure.
  { destruct data; [discriminate | intros e [= <-]; discriminate]. }
  intros data' _.
  apply keeps_bind_pure; [apply as_message_parts_no_recursion|]. intros hint_parts _.
  apply keeps_bind_pure.
  { intros e. destruct (_ && _); [discriminate|].
    case_bool_decide; [|discriminate].
    destruct (_ !! 0%nat); cbn; [discriminate | intros [= <-]; discriminate]. }
  intros parts _. apply keeps_Ok; assumption.
Qed.

Lemma FreeTrigger_release_all_keeps (ctx : Context) (team : Z) :
  team_initialised ctx team →
  keeps_initialised team ctx id (FreeTrigger_release_all ctx team).
Proof.
  intros Hinit. unfold FreeTrigger_release_all.
  apply (foldM_keeps team ctx id); [|exact Hinit | reflexivity].
  intros ctx1 th Hinit1 Hhints1.
  eapply keeps_rebase; [exact Hhints1 | apply triggerable_release_keeps, Hinit1].
Qed.

Lemma collect_updates_keeps (ctx : Context) (team : Z) :
  team_initialised ctx team →
  keeps_initialised team ctx snd (collect_updates ctx team).
Proof.
  intros Hinit. unfold collect_updates.
  apply keeps_bind_pure; [apply getitem_no_recursion|]. intros all _.
  apply keeps_bind_pure; [apply getitem_no_recursion|]. intros ft _.
  apply (foldM_keeps team ctx snd); [|exact Hinit | reflexivity].
  intros [needed ctx1] [ty per] Hinit1 Hhints1. cbn [snd] in Hinit1, Hhints1.
  apply (foldM_keeps team ctx snd); [|exact Hinit1 | exact Hhints1].
  intros [needed' ctx2] h Hinit2 Hhints2. cbn [snd] in Hinit2, Hhints2.
  eapply keeps_bind.
  { eapply keeps_rebase; [exact Hhints2 | apply check_and_set_broadcasted_keeps, Hinit2]. }
  intros [changed ctx3] Hinit3 Hhints3. cbn [snd] in Hinit3, Hhints3.
  destruct changed; apply keeps_Ok; assumption.
Qed.

Lemma call_on_changed_fold_initialised (team : Z) (l : list (Z * HintType)) (ctx : Context) :
  team_initialised ctx team →
  let ctx' := foldl (λ ctx '(player, hint_type), call_on_changed ctx team player hint_type)
                    ctx l in
  team_initialised ctx' team ∧ triggerable_hints ctx' = triggerable_hints ctx.
Proof.
  revert ctx. induction l as [|[p ty] l IH]; intros ctx Hinit; cbn [foldl].
  - split; [exact Hinit | reflexivity].
  - apply (IH (call_on_changed ctx team p ty)). exact Hinit.
Qed.

(** On an initialised team [broadcast_updates] does not call itself again. *)
Lemma broadcast_updates_keeps (fuel : nat) (ctx : Context) (team : Z) :
  team_initialised ctx team →
  keeps_initialised team ctx id (broadcast_updates (S fuel) ctx team).
Proof.
  intros Hinit. pose proof Hinit as (all & ft & Hall & Hteam & Hwf).
  cbn [broadcast_updates].
  rewrite (ensure_team_init_initialised _ ctx team all ft Hall Hteam).
  cbn [mbind result_bind].
  eapply keeps_bind; [apply collect_updates_keeps, Hinit|].
  intros [needed ctx1] Hinit1 Hhints1. cbn [snd] in Hinit1, Hhints1.
  destruct (call_on_changed_fold_initialised team (elements needed) ctx1 Hinit1) as [H1 H2].
  apply keeps_Ok; [exact H1 | cbn [id]; congruence].
Qed.

(** With two units of fuel [ensure_team_init] never runs out of it, and when
    it returns for a context with configured hints the team is initialised:
    its tables exist and are well formed. *)
Lemma ensure_team_init_establishes (fuel : nat) (ctx : Context) (team : Z) :
  triggerable_hints ctx ≠ [] →
  (∀ all_team_data for_team,
     team_data ctx = Some all_team_data → all_team_data !! team = Some for_team →
     well_formed_team_data for_team) →
  keeps_initialised team ctx id (ensure_team_init (S fuel) ctx team).
Proof.
  intros Hhints Hwf. unfold ensure_team_init, ensure_team_init_with.
  rewrite bool_decide_eq_false_2 by exact Hhints.
  case_bool_decide as Hteam.
  - destruct Hteam as [ft Hft]. apply keeps_Ok; [|reflexivity].
    exists (default ∅ (team_data ctx)), ft. split; [reflexivity|]. split; [exact Hft|].
    destruct (team_data ctx) as [all|] eqn:Hall; cbn in Hft.
    + apply (Hwf all ft eq_refl Hft).
    + rewrite lookup_empty in Hft. discriminate.
  - set (ctx0 := with_team_data ctx (Some (<[team := []]> (default ∅ (team_data ctx))))).
    assert (Hinit0 : team_initialised ctx0 team).
    { eexists _, []. split; [reflexivity|]. split; [apply lookup_insert_eq|].
      split; [constructor | intros ty per Hin; inversion Hin]. }
    eapply keeps_bind.
    { apply (foldM_keeps team ctx id); [|exact Hinit0 | reflexivity].
      intros ctx1 th Hinit1 Hhints1.
      eapply keeps_rebase; [exact Hhints1 | apply init_team_data_keeps, Hinit1]. }
    intros ctx1 Hinit1 Hhints1. cbn [id] in Hinit1, Hhints1.
    eapply keeps_bind.
    { eapply keeps_rebase; [exact Hhints1 | apply FreeTrigger_release_all_keeps, Hinit1]. }
    intros ctx2 Hinit2 Hhints2. cbn [id] in Hinit2, Hhints2.
    eapply keeps_rebase; [exact Hhints2 | apply broadcast_updates_keeps, Hinit2].
Qed.

(** The projection of a location-set hint keeps the checked locations. *)
Example get_release_data_filters :
  get_release_data region_hint ctx_two_released 0
    = Ok (LocationSetHint 2 "Forest" "region_items" 8 {[ 10 := (5, 7) ]}).
Proof. vm_compute. reflexivity. Qed.

(** * Further properties *)

(** ** Location store *)

(** X1 (construction with positive player ids): for a mapping whose player
    ids are all positive, construction succeeds exactly when the ids are
    [1..N] for some [N >= 1]; the store then has an entry for every slot from
    1 to its size, so indexing it with such a slot does not raise. *)
Theorem LocationStore_positive_ids_exact (values : _LocationStore.t) :
  (∀ k : Z, k ∈ dom values → 1 ≤ k) →
  (_LocationStore.__init__ values = Ok values ↔ contiguous_players values) ∧
  (_LocationStore.__init__ values = Ok values →
   ∀ slot : Z, 1 ≤ slot ≤ Z.of_nat (size values) → is_Some (values !! slot)).
Proof.
  intros Hpos. split; [apply LocationStore_init_positive_keys, Hpos|].
  intros Hok slot Hslot.
  apply (LocationStore_init_positive_keys values Hpos) in Hok as (N & HN & Hdom).
  apply elem_of_dom, Hdom.
  rewrite <- size_dom, (dom_contiguous values N Hdom), size_list_to_set_seqZ in Hslot by lia.
  lia.
Qed.

Lemma LocationStore_positive_ids_exact_witness :
  (_LocationStore.__init__ store_two_players = Ok store_two_players ↔
   contiguous_players store_two_players) ∧
  (_LocationStore.__init__ store_two_players = Ok store_two_players →
   ∀ slot : Z, 1 ≤ slot ≤ Z.of_nat (size store_two_players) →
               is_Some (store_two_players !! slot)).
Proof.
  apply (LocationStore_positive_ids_exact store_two_players).
  apply (bool_decide_unpack (set_Forall (λ k : Z, 1 ≤ k) (dom store_two_players))).
  vm_compute. exact I.
Defined.

(** X2 (what construction never accepts): the empty mapping is rejected, a
    mapping that files a location under player 0 is rejected, every rejection
    is a [ValueError], and an accepted store is the mapping that was given. *)
Theorem LocationStore_init_rejections (values : _LocationStore.t) :
  _LocationStore.__init__ ∅ = Raise (ValueError "Rejecting game with 0 players") ∧
  (default [] (values !! 0) ≠ [] → raises (_LocationStore.__init__ values)) ∧
  (∀ e, _LocationStore.__init__ values = Raise e → ∃ msg, e = ValueError msg) ∧
  (∀ self, _LocationStore.__init__ values = Ok self → self = values).
Proof.
  split; [reflexivity|]. split; [|split].
  - intros H0. destruct (_LocationStore.__init__ values) as [self|e] eqn:Hrun.
    + apply LocationStore_init_Ok_iff in Hrun as (_ & _ & _ & Hrun). contradiction.
    + exists e. reflexivity.
  - apply LocationStore_init_raises_ValueError.
  - intros self Hrun. apply LocationStore_init_Ok_iff in Hrun. tauto.
Qed.

Lemma LocationStore_init_rejections_witness :
  raises (_LocationStore.__init__ store_player_0).
Proof.
  apply (LocationStore_init_rejections store_player_0). vm_compute. discriminate.
Defined.

Lemma filter_sublist {A} (P : A → Prop) `{∀ x, Decision (P x)} (l : list A) :
  sublist (filter P l) l.
Proof.
  induction l as [|x l IH]; [constructor|].
  destruct (decide (P x)).
  - rewrite filter_cons_True by assumption. constructor. exact IH.
  - rewrite filter_cons_False by assumption. constructor. exact IH.
Qed.

Lemma filter_complement_Permutation {A} (P : A → Prop) `{∀ x, Decision (P x)} (l : list A) :
  (filter P l ++ filter (λ x, ¬ P x) l)%list ≡ₚ l.
Proof.
  induction l as [|x l IH]; [reflexivity|].
  destruct (decide (P x)).
  - rewrite filter_cons_True, (filter_cons_False (λ x, ¬ P x)) by tauto.
    cbn. rewrite IH. reflexivity.
  - rewrite filter_cons_False, (filter_cons_True (λ x, ¬ P x)) by tauto.
    rewrite <- Permutation_middle, IH. reflexivity.
Qed.

(** X3 (order and multiplicity of checked and missing): when both queries
    return, each of the two lists keeps the order in which the store holds
    the locations of the slot, and the two lists together are a
    rearrangement of these locations: every location occurs once, in one of
    them. *)
Theorem LocationStore_checked_missing_order (self : _LocationStore.t) (state : CheckState)
    (team slot : Z) (locations : LocationData) (c m : list Z) :
  self !! slot = Some locations →
  _LocationStore.get_checked self state team slot = Ok c →
  _LocationStore.get_missing self state team slot = Ok m →
  sublist c (PyDict.keys locations) ∧ sublist m (PyDict.keys locations) ∧
  (c ++ m)%list ≡ₚ PyDict.keys locations.
Proof.
  intros Hslot. unfold _LocationStore.get_checked, _LocationStore.get_missing.
  destruct (state !! (team, slot)) as [checked|]; [|discriminate].
  rewrite Hslot. cbn [getitem mbind result_bind]. case_bool_decide as Hempty.
  - intros [= <-] [= <-]. split; [apply sublist_nil_l|]. split; reflexivity.
  - intros [= <-] [= <-]. split; [apply filter_sublist|]. split; [apply filter_sublist|].
    apply (filter_complement_Permutation (λ x, x ∈ checked)).
Qed.

Lemma LocationStore_checked_missing_order_witness :
  sublist [11] [10; 11; 12] ∧ sublist [10; 12] [10; 11; 12] ∧
  ([11] ++ [10; 12])%list ≡ₚ [10; 11; 12].
Proof.
  apply (LocationStore_checked_missing_order store_two_players state_one_checked 0 1
           [(10, (7, 2, 0)); (11, (3, 1, 1)); (12, (7, 1, 0))] [11] [10; 12]);
    vm_compute; reflexivity.
Defined.

(** X4 (missing keys and the fast path): without an entry of the state for
    [(team, slot)] all three queries raise a [KeyError].  With an empty
    checked set [get_checked] returns the empty list without looking the slot
    up, so also for a slot the store does not have, while [get_missing] and
    [get_remaining] raise a [KeyError] for such a slot. *)
Theorem LocationStore_query_key_errors (self : _LocationStore.t) (state : CheckState)
    (team slot : Z) :
  (state !! (team, slot) = None →
   _LocationStore.get_checked self state team slot = Raise (KeyError (repr_pair team slot)) ∧
   _LocationStore.get_missing self state team slot = Raise (KeyError (repr_pair team slot)) ∧
   _LocationStore.get_remaining self state team slot = Raise (KeyError (repr_pair team slot))) ∧
  (state !! (team, slot) = Some ∅ →
   _LocationStore.get_checked self state team slot = Ok []) ∧
  (is_Some (state !! (team, slot)) → self !! slot = None →
   _LocationStore.get_missing self state team slot = Raise (KeyError (py_str slot)) ∧
   _LocationStore.get_remaining self state team slot = Raise (KeyError (py_str slot))).
Proof.
  unfold _LocationStore.get_checked, _LocationStore.get_missing, _LocationStore.get_remaining.
  split; [|split].
  - intros ->. repeat split.
  - intros ->. cbn. rewrite bool_decide_eq_true_2 by reflexivity. reflexivity.
  - intros [checked ->] ->. cbn. split; [case_bool_decide; reflexivity | reflexivity].
Qed.

Lemma LocationStore_query_key_errors_witness :
  _LocationStore.get_checked store_two_players state_one_checked 0 7 = Raise (KeyError "(0, 7)") ∧
  _LocationStore.get_checked ∅ state_one_checked 0 2 = Ok [] ∧
  _LocationStore.get_missing ∅ state_one_checked 0 2 = Raise (KeyError "2").
Proof.
  split; [|split].
  - apply (LocationStore_query_key_errors store_two_players state_one_checked 0 7).
    vm_compute. reflexivity.
  - apply (LocationStore_query_key_errors ∅ state_one_checked 0 2).
    vm_compute. reflexivity.
  - apply (LocationStore_query_key_errors ∅ state_one_checked 0 2);
      [vm_compute; eauto | reflexivity].
Defined.

Lemma get_checked_eq (self : _LocationStore.t) (state : CheckState) (team slot : Z)
    (checked : gset Z) (locations : LocationData) :
  state !! (team, slot) = Some checked → self !! slot = Some locations →
  _LocationStore.get_checked self state team slot
    = Ok (filter (λ x, x ∈ checked) (PyDict.keys locations)).
Proof.
  intros Hstate Hslot. unfold _LocationStore.get_checked. rewrite Hstate, Hslot.
  cbn [getitem mbind result_bind]. case_bool_decide as Hempty; [|reflexivity].
  f_equal. symmetry. apply filter_none. intros x _. rewrite Hempty. apply not_elem_of_empty.
Qed.

Lemma get_missing_eq (self : _LocationStore.t) (state : CheckState) (team slot : Z)
    (checked : gset Z) (locations : LocationData) :
  state !! (team, slot) = Some checked → self !! slot = Some locations →
  _LocationStore.get_missing self state team slot
    = Ok (filter (λ x, x ∉ checked) (PyDict.keys locations)).
Proof.
  intros Hstate Hslot. unfold _LocationStore.get_missing. rewrite Hstate, Hslot.
  cbn [getitem mbind result_bind]. case_bool_decide as Hempty; [|reflexivity].
  f_equal. symmetry. apply filter_not_elem_of_empty, Hempty.
Qed.

Lemma get_remaining_eq (self : _LocationStore.t) (state : CheckState) (team slot : Z)
    (checked : gset Z) (locations : LocationData) :
  state !! (team, slot) = Some checked → self !! slot = Some locations →
  ∃ r, _LocationStore.get_remaining self state team slot = Ok r ∧
       length r = length (filter (λ x, x ∉ checked) (PyDict.keys locations)).
Proof.
  intros Hstate Hslot. unfold _LocationStore.get_remaining. rewrite Hstate, Hslot.
  cbn [getitem mbind result_bind].
  set (missing := filter (λ x : Z, x ∉ checked) (PyDict.keys locations)).
  assert (Hkeys : ∀ x, x ∈ missing → x ∈ PyDict.keys locations).
  { intros x Hx. apply list_elem_of_filter in Hx. tauto. }
  rewrite (get_remaining_items locations missing Hkeys). cbn [mbind result_bind].
  eexists. split; [reflexivity|].
  rewrite (Permutation_length (merge_sort_Permutation Z.le _)).
  clear - Hkeys. induction missing as [|x l IH]; [reflexivity|]. cbn [omap list_omap].
  destruct (PyDict_get_Some_of_key locations x) as [e He]; [apply Hkeys; left|].
  rewrite He. cbn. f_equal. apply IH. intros y Hy. apply Hkeys. right. exact Hy.
Qed.

Lemma filter_sublist_mono {A} (P Q : A → Prop) `{∀ x, Decision (P x)} `{∀ x, Decision (Q x)}
    (l : list A) :
  (∀ x, P x → Q x) → sublist (filter P l) (filter Q l).
Proof.
  intros HPQ. induction l as [|x l IH]; [constructor|].
  destruct (decide (P x)) as [HP|HP].
  - rewrite !filter_cons_True by auto. constructor. exact IH.
  - rewrite (filter_cons_False P) by assumption. destruct (decide (Q x)).
    + rewrite filter_cons_True by assumption. constructor. exact IH.
    + rewrite filter_cons_False by assumption. exact IH.
Qed.

(** X5 (checking more leaves less): when the checked set of a slot grows, the
    list [get_missing] returns shrinks to a sublist of the former one and the
    list [get_checked] returns grows from a sublist of the later one; the
    number of remaining items does not grow. *)
Theorem LocationStore_missing_antitone (self : _LocationStore.t) (state state' : CheckState)
    (team slot : Z) (checked checked' : gset Z) (locations : LocationData) :
  self !! slot = Some locations →
  state !! (team, slot) = Some checked →
  state' !! (team, slot) = Some checked' →
  checked ⊆ checked' →
  ∃ c c' m m' r r',
    _LocationStore.get_checked self state team slot = Ok c ∧
    _LocationStore.get_checked self state' team slot = Ok c' ∧
    _LocationStore.get_missing self state team slot = Ok m ∧
    _LocationStore.get_missing self state' team slot = Ok m' ∧
    _LocationStore.get_remaining self state team slot = Ok r ∧
    _LocationStore.get_remaining self state' team slot = Ok r' ∧
    sublist c c' ∧ sublist m' m ∧ (length r' ≤ length r)%nat.
Proof.
  intros Hslot Hstate Hstate' Hsub.
  destruct (get_remaining_eq self state team slot checked locations Hstate Hslot)
    as (r & Hr & Hlen).
  destruct (get_remaining_eq self state' team slot checked' locations Hstate' Hslot)
    as (r' & Hr' & Hlen').
  eexists _, _, _, _, r, r'.
  rewrite (get_checked_eq self state team slot checked locations Hstate Hslot).
  rewrite (get_checked_eq self state' team slot checked' locations Hstate' Hslot).
  rewrite (get_missing_eq self state team slot checked locations Hstate Hslot).
  rewrite (get_missing_eq self state' team slot checked' locations Hstate' Hslot).
  repeat (split; [reflexivity || assumption|]).
  assert (Hm : sublist (filter (λ x, x ∉ checked') (PyDict.keys locations))
                       (filter (λ x, x ∉ checked) (PyDict.keys locations))).
  { apply filter_sublist_mono. intros x Hx Hc. apply Hx, Hsub, Hc. }
  split; [apply filter_sublist_mono; intros x Hx; apply Hsub, Hx|].
  split; [exact Hm|].
  rewrite Hlen, Hlen'. apply sublist_length, Hm.
Qed.

Lemma LocationStore_missing_antitone_witness :
  ∃ c c' m m' r r',
    _LocationStore.get_checked store_two_players state_one_checked 0 1 = Ok c ∧
    _LocationStore.get_checked store_two_players state_two_checked 0 1 = Ok c' ∧
    _LocationStore.get_missing store_two_players state_one_checked 0 1 = Ok m ∧
    _LocationStore.get_missing store_two_players state_two_checked 0 1 = Ok m' ∧
    _LocationStore.get_remaining store_two_players state_one_checked 0 1 = Ok r ∧
    _LocationStore.get_remaining store_two_players state_two_checked 0 1 = Ok r' ∧
    sublist c c' ∧ sublist m' m ∧ (length r' ≤ length r)%nat.
Proof.
  apply (LocationStore_missing_antitone store_two_players state_one_checked
           state_two_checked 0 1 {[ 11 ]} {[ 10; 11 ]}
           [(10, (7, 2, 0)); (11, (3, 1, 1)); (12, (7, 1, 0))]);
    [vm_compute; reflexivity .. |].
  apply (bool_decide_unpack _). vm_compute. exact I.
Defined.

Lemma find_item_elem_of (self : _LocationStore.t) (slots : gset Z)
    (seeked_item_id : Z) (x : Z * Z * Z * Z * Z) :
  x ∈ _LocationStore_queries.find_item self slots seeked_item_id ↔
  ∃ finding_player data location_id receiving_player item_flags,
    x = (finding_player, location_id, seeked_item_id, receiving_player, item_flags) ∧
    self !! finding_player = Some data ∧
    (location_id, (seeked_item_id, receiving_player, item_flags)) ∈ data ∧
    receiving_player ∈ slots.
Proof.
  unfold _LocationStore_queries.find_item, _LocationStore_queries.find_item_in.
  rewrite list_elem_of_In, in_concat. split.
  - intros (l & Hl & Hx). apply in_map_iff in Hl as ([fp data] & <- & Hfp).
    apply in_concat in Hx as (l' & Hl' & Hx).
    apply in_map_iff in Hl' as ([loc [[item recv] flags]] & <- & Hloc).
    cbn [fst snd] in Hx.
    destruct (bool_decide (recv ∈ slots)) eqn:Hrecv; cbn [andb] in Hx; [|inversion Hx].
    destruct (bool_decide (item = seeked_item_id)) eqn:Hitem; [|inversion Hx].
    apply bool_decide_eq_true in Hrecv, Hitem. subst item.
    destruct Hx as [<-|[]].
    exists fp, data, loc, recv, flags. split; [reflexivity|].
    split; [apply elem_of_map_to_list, list_elem_of_In, Hfp|].
    split; [apply list_elem_of_In, Hloc | exact Hrecv].
  - intros (fp & data & loc & recv & flags & -> & Hfp & Hloc & Hrecv).
    eexists. split.
    + apply in_map_iff. exists (fp, data). split; [reflexivity|].
      apply list_elem_of_In, elem_of_map_to_list, Hfp.
    + apply in_concat. eexists. split.
      * apply in_map_iff. exists (loc, (seeked_item_id, recv, flags)).
        split; [reflexivity | apply list_elem_of_In, Hloc].
      * cbn [fst snd]. rewrite !bool_decide_eq_true_2 by (reflexivity || assumption).
        left. reflexivity.
Qed.

(** In whatever order the players of the store are taken, the generator
    yields the same tuples, each as often. *)
Lemma find_item_in_Permutation (items items' : list (Z * LocationData)) (slots : gset Z)
    (seeked_item_id : Z) :
  items ≡ₚ items' →
  _LocationStore_queries.find_item_in items slots seeked_item_id
  ≡ₚ _LocationStore_queries.find_item_in items' slots seeked_item_id.
Proof.
  unfold _LocationStore_queries.find_item_in.
  induction 1 as [|x l l' _ IH|x y l|l1 l2 l3 _ IH1 _ IH2]; cbn [map concat].
  - reflexivity.
  - apply Permutation_app; [reflexivity | exact IH].
  - rewrite !app_assoc. apply Permutation_app; [apply Permutation_app_comm | reflexivity].
  - etransitivity; eassumption.
Qed.

(** X6 (what [find_item] yields): a tuple is yielded exactly when it is a
    placement of the store, [(finding player, location, item, receiving
    player, flags)], of the item looked for, with its receiving player among
    the given slots. *)
Theorem LocationStore_find_item_spec (self : _LocationStore.t) (slots : gset Z)
    (seeked_item_id : Z) (x : Z * Z * Z * Z * Z) :
  x ∈ _LocationStore_queries.find_item self slots seeked_item_id ↔
  ∃ finding_player data location_id receiving_player item_flags,
    x = (finding_player, location_id, seeked_item_id, receiving_player, item_flags) ∧
    self !! finding_player = Some data ∧
    (location_id, (seeked_item_id, receiving_player, item_flags)) ∈ data ∧
    receiving_player ∈ slots.
Proof. apply find_item_elem_of. Qed.

Lemma get_for_player_inner (slot source : Z) (data : LocationData)
    (all_locations : gmap Z (gset Z)) :
  let result :=
    foldl (λ all_locations (location : Z * LocationEntry),
             if bool_decide (location.2.1.2 = slot) then
               <[source := default ∅ (all_locations !! source) ∪ {[ location.1 ]}]>
                 all_locations
             else all_locations)
          all_locations data in
  (∀ s loc, loc ∈ default ∅ (result !! s) ↔
            loc ∈ default ∅ (all_locations !! s) ∨
            (s = source ∧ ∃ entry, (loc, entry) ∈ data ∧ entry.1.2 = slot)) ∧
  ((∀ s set, all_locations !! s = Some set → set ≠ ∅) →
   ∀ s set, result !! s = Some set → set ≠ ∅).
Proof.
  revert all_locations. induction data as [|[loc0 entry0] data IH]; intros all; cbn [foldl].
  - split; [|auto]. intros s loc. split; [auto|].
    intros [H|(_ & entry & Hin & _)]; [exact H | inversion Hin].
  - cbn [fst snd]. case_bool_decide as Hslot.
    + specialize (IH (<[source := default ∅ (all !! source) ∪ {[loc0]}]> all)).
      cbv zeta in IH. destruct IH as [IHmem IHne]. split.
      * intros s loc. rewrite IHmem. destruct (decide (s = source)) as [->|Hs].
        -- rewrite lookup_insert_eq. cbn [default from_option id].
           rewrite elem_of_union, elem_of_singleton. split.
           ++ intros [[H| ->]|(_ & entry & Hin & He)]; [auto | |].
              ** right. split; [reflexivity|]. exists entry0. split; [left | exact Hslot].
              ** right. split; [reflexivity|]. exists entry. split; [right; exact Hin | exact He].
           ++ intros [H|(_ & entry & Hin & He)]; [auto|].
              apply elem_of_cons in Hin as [[= -> ->]|Hin]; [auto|].
              right. split; [reflexivity|]. eauto.
        -- rewrite lookup_insert_ne by congruence. split.
           ++ intros [H|(Heq & _)]; [auto | contradiction].
           ++ intros [H|(Heq & _)]; [auto | contradiction].
      * intros Hall. apply IHne. intros s set.
        destruct (decide (s = source)) as [->|Hs].
        -- rewrite lookup_insert_eq. intros [= <-] Hempty.
           assert (H : loc0 ∈ (∅ : gset Z))
             by (rewrite <- Hempty; apply elem_of_union_r, elem_of_singleton; reflexivity).
           exact (not_elem_of_empty (C:=gset Z) _ H).
        -- rewrite lookup_insert_ne by congruence. apply Hall.
    + specialize (IH all). cbv zeta in IH. destruct IH as [IHmem IHne]. split; [|exact IHne].
      intros s loc. rewrite IHmem. split.
      * intros [H|(-> & entry & Hin & He)]; [auto|]. right. split; [reflexivity|].
        exists entry. split; [right; exact Hin | exact He].
      * intros [H|(-> & entry & Hin & He)]; [auto|].
        apply elem_of_cons in Hin as [[= -> ->]|Hin]; [contradiction|].
        right. split; [reflexivity|]. eauto.
Qed.

Lemma get_for_player_outer (slot : Z) (L : list (Z * LocationData))
    (all_locations : gmap Z (gset Z)) :
  let result :=
    foldl (λ all_locations (player_data : Z * LocationData),
             foldl (λ all_locations (location : Z * LocationEntry),
                      if bool_decide (location.2.1.2 = slot) then
                        <[player_data.1 :=
                            default ∅ (all_locations !! player_data.1) ∪ {[ location.1 ]}]>
                          all_locations
                      else all_locations)
                   all_locations player_data.2)
          all_locations L in
  (∀ s loc, loc ∈ default ∅ (result !! s) ↔
            loc ∈ default ∅ (all_locations !! s) ∨
            ∃ data entry, (s, data) ∈ L ∧ (loc, entry) ∈ data ∧ entry.1.2 = slot) ∧
  ((∀ s set, all_locations !! s = Some set → set ≠ ∅) →
   ∀ s set, result !! s = Some set → set ≠ ∅).
Proof.
  revert all_locations. induction L as [|[source data] L IH]; intros all; cbn [foldl].
  - split; [|auto]. intros s loc. split; [auto|].
    intros [H|(data & entry & Hin & _)]; [exact H | inversion Hin].
  - cbn [fst snd].
    destruct (get_for_player_inner slot source data all) as [Hmem Hne].
    cbv zeta in Hmem, Hne.
    match goal with |- context [foldl _ (foldl ?f all data) L] =>
      set (mid := foldl f all data) in * end.
    specialize (IH mid). cbv zeta in IH. destruct IH as [IHmem IHne]. split.
    + intros s loc. rewrite IHmem, Hmem. split.
      * intros [[H|(-> & entry & Hin & He)]|(data' & entry & HL & Hin & He)].
        -- auto.
        -- right. exists data, entry. split; [left | auto].
        -- right. exists data', entry. split; [right; exact HL | auto].
      * intros [H|(data' & entry & HL & Hin & He)]; [auto|].
        apply elem_of_cons in HL as [[= -> ->]|HL].
        -- left. right. split; [reflexivity | eauto].
        -- right. eauto.
    + intros Hall. apply IHne, Hne, Hall.
Qed.

(** X7 (what [get_for_player] collects): location [l] is in the set filed
    under source player [s] exactly when the store has [l] among the
    locations of [s] with the given slot as receiving player; a source player
    gets a key only together with a location, so no set of the result is
    empty; and every tuple [find_item] yields for this slot alone has its
    location in the set of its finding player. *)
Theorem LocationStore_get_for_player_spec (self : _LocationStore.t) (slot : Z) :
  (∀ source location_id,
     location_id ∈ default ∅ (_LocationStore_queries.get_for_player self slot !! source) ↔
     ∃ data entry, self !! source = Some data ∧ (location_id, entry) ∈ data ∧
                   entry.1.2 = slot) ∧
  (∀ source set,
     _LocationStore_queries.get_for_player self slot !! source = Some set → set ≠ ∅) ∧
  (∀ item finding_player location_id receiving_player item_flags,
     (finding_player, location_id, item, receiving_player, item_flags)
       ∈ _LocationStore_queries.find_item self {[ slot ]} item →
     location_id
       ∈ default ∅ (_LocationStore_queries.get_for_player self slot !! finding_player)).
Proof.
  destruct (get_for_player_outer slot (map_to_list self) ∅) as [Hmem Hne].
  cbv zeta in Hmem, Hne. fold (_LocationStore_queries.get_for_player self slot) in Hmem, Hne.
  assert (Hspec : ∀ source location_id,
     location_id ∈ default ∅ (_LocationStore_queries.get_for_player self slot !! source) ↔
     ∃ data entry, self !! source = Some data ∧ (location_id, entry) ∈ data ∧
                   entry.1.2 = slot).
  { intros s loc. rewrite Hmem, lookup_empty. cbn [default from_option id]. split.
    - intros [H|(data & entry & HL & Hin & He)].
      + exfalso. exact (not_elem_of_empty (C:=gset Z) _ H).
      + exists data, entry. split; [apply elem_of_map_to_list, HL | auto].
    - intros (data & entry & HL & Hin & He). right.
      exists data, entry. split; [apply elem_of_map_to_list, HL | auto]. }
  split; [exact Hspec|]. split.
  - apply Hne. intros s set. rewrite lookup_empty. discriminate.
  - intros item fp loc recv flags Hfound.
    apply find_item_elem_of in Hfound
      as (fp' & data & loc' & recv' & flags' & [= -> -> -> ->] & Hfp & Hloc & Hrecv).
    apply Hspec. exists data, (item, recv', flags'). split; [exact Hfp|].
    split; [exact Hloc|]. cbn. apply elem_of_singleton in Hrecv. exact Hrecv.
Qed.

(** ** Integers printed and read back *)

Lemma digit_of_pretty_N_char (d : N) :
  (d < 10)%N → digit_of (pretty_N_char d) = Some (Z.of_N d).
Proof.
  intros Hd.
  assert (Hcases : d = 0%N ∨ d = 1%N ∨ d = 2%N ∨ d = 3%N ∨ d = 4%N ∨ d = 5%N ∨
                   d = 6%N ∨ d = 7%N ∨ d = 8%N ∨ d = 9%N) by lia.
  repeat (destruct Hcases as [->|Hcases]; [reflexivity|]). subst d. reflexivity.
Qed.

Lemma is_space_pretty_N_char (d : N) : is_space (pretty_N_char d) = false.
Proof. destruct d as [|[[[|[]|]|[[]|[]|]|]|[[|[]|]|[|[]|]|]|]]; reflexivity. Qed.

Lemma list_ascii_of_string_cons (c : ascii) (s : string) :
  list_ascii_of_string (String c s) = c :: list_ascii_of_string s.
Proof. reflexivity. Qed.

(** Reading the digits [pretty_N_go x s] puts before [s] amounts to starting
    the reading of [s] with the value [x]. *)
Lemma parse_digits_pretty_N_go (x : N) :
  ∀ (s : string) (after_digit : bool),
  (0 < x)%N →
  parse_digits (list_ascii_of_string (pretty_N_go x s)) 0 after_digit
  = parse_digits (list_ascii_of_string s) (Z.of_N x) true.
Proof.
  induction (N.lt_wf_0 x) as [x _ IH]. intros s after_digit Hx.
  rewrite pretty_N_go_step by exact Hx.
  assert (Hd : (x `mod` 10 < 10)%N) by (apply N.mod_lt; lia).
  destruct (decide (0 < x `div` 10)%N) as [Hdiv|Hdiv].
  - rewrite IH; [|apply N.div_lt; lia | exact Hdiv].
    rewrite list_ascii_of_string_cons. cbn [parse_digits].
    rewrite (digit_of_pretty_N_char _ Hd). f_equal.
    rewrite <- N2Z.inj_mul with (n := 10%N), <- N2Z.inj_add. f_equal.
    rewrite (N.div_mod x 10) at 3 by lia. reflexivity.
  - assert (Hzero : (x `div` 10 = 0)%N) by (apply N.le_0_r, N.nlt_ge, Hdiv). rewrite Hzero, pretty_N_go_0.
    rewrite list_ascii_of_string_cons. cbn [parse_digits].
    rewrite (digit_of_pretty_N_char _ Hd). f_equal.
    rewrite (N.div_mod x 10) at 2 by lia. rewrite Hzero. lia.
Qed.

Lemma pretty_N_go_no_space (x : N) :
  ∀ s : string,
  Forall (λ c, is_space c = false) (list_ascii_of_string s) →
  Forall (λ c, is_space c = false) (list_ascii_of_string (pretty_N_go x s)).
Proof.
  induction (N.lt_wf_0 x) as [x _ IH]. intros s Hs.
  destruct (decide (0 < x)%N) as [Hx|Hx].
  - rewrite pretty_N_go_step by exact Hx. apply IH; [apply N.div_lt; lia|].
    rewrite list_ascii_of_string_cons. constructor; [apply is_space_pretty_N_char | exact Hs].
  - assert (x = 0%N) as -> by lia. rewrite pretty_N_go_0. exact Hs.
Qed.

Lemma pretty_N_go_head (x : N) :
  ∀ s : string, (0 < x)%N →
  ∃ d rest, (d < 10)%N ∧
    list_ascii_of_string (pretty_N_go x s) = pretty_N_char d :: rest.
Proof.
  induction (N.lt_wf_0 x) as [x _ IH]. intros s Hx.
  rewrite pretty_N_go_step by exact Hx.
  destruct (decide (0 < x `div` 10)%N) as [Hdiv|Hdiv].
  - apply IH; [apply N.div_lt; lia | exact Hdiv].
  - assert (Hzero : (x `div` 10 = 0)%N) by (apply N.le_0_r, N.nlt_ge, Hdiv). rewrite Hzero, pretty_N_go_0.
    eexists _, _. split; [|reflexivity]. apply N.mod_lt. lia.
Qed.

Lemma lstrip_no_space (l : list ascii) :
  Forall (λ c, is_space c = false) l → lstrip l = l.
Proof. destruct 1 as [|c l Hc _]; [reflexivity|]. cbn. rewrite Hc. reflexivity. Qed.

Lemma strip_no_space (l : list ascii) :
  Forall (λ c, is_space c = false) l → strip l = l.
Proof.
  intros Hl. unfold strip. rewrite (lstrip_no_space l Hl).
  rewrite lstrip_no_space; [apply rev_involutive|].
  apply Forall_forall. intros c Hc. rewrite Forall_forall in Hl. apply Hl.
  apply list_elem_of_In, in_rev, list_elem_of_In. exact Hc.
Qed.

Lemma py_int_of_string_positive (p : positive) :
  py_int_of_string (pretty (N.pos p)) = Ok (Z.pos p).
Proof.
  unfold py_int_of_string, pretty, pretty_N.
  rewrite decide_False by discriminate.
  rewrite strip_no_space by (apply pretty_N_go_no_space; constructor).
  destruct (pretty_N_go_head (N.pos p) "" eq_refl) as (d & rest & Hd & Hhead).
  assert (Hparse : parse_digits (list_ascii_of_string (pretty_N_go (N.pos p) "")) 0 false
                   = Some (Z.pos p)).
  { rewrite parse_digits_pretty_N_go by reflexivity. reflexivity. }
  rewrite Hhead in *.
  assert (Hsign : pretty_N_char d ≠ "-"%char ∧ pretty_N_char d ≠ "+"%char).
  { destruct d as [|[[[|[]|]|[[]|[]|]|]|[[|[]|]|[|[]|]|]|]]; split; discriminate. }
  destruct Hsign as [Hminus Hplus].
  destruct (pretty_N_char d) as [[] [] [] [] [] [] [] []];
    try (rewrite Hparse; reflexivity); congruence.
Qed.

(** [int(str(n))] is [n]. *)
Lemma py_int_of_string_py_str (n : Z) : py_int_of_string (py_str n) = Ok n.
Proof.
  unfold py_str, pretty, pretty_Z. destruct n as [|p|p].
  - reflexivity.
  - apply py_int_of_string_positive.
  - pose proof (py_int_of_string_positive p) as Hpos.
    unfold py_int_of_string in *. unfold pretty, pretty_positive in *.
    change (list_ascii_of_string ("-" +:+ pretty (N.pos p)))
      with ("-"%char :: list_ascii_of_string (pretty (N.pos p))).
    assert (Hns : Forall (λ c, is_space c = false) (list_ascii_of_string (pretty (N.pos p)))).
    { unfold pretty, pretty_N. rewrite decide_False by discriminate.
      apply pretty_N_go_no_space. constructor. }
    rewrite strip_no_space by (constructor; [reflexivity | exact Hns]).
    rewrite strip_no_space in Hpos by exact Hns.
    assert (Hparse : parse_digits (list_ascii_of_string (pretty (N.pos p))) 0 false
                     = Some (Z.pos p)).
    { unfold pretty, pretty_N. rewrite decide_False by discriminate.
      rewrite parse_digits_pretty_N_go by reflexivity. reflexivity. }
    rewrite Hparse. reflexivity.
Qed.

(** ** Hints: re-checking *)

(** X8 (re-checking a hint): a hint that is found is returned as it is and
    the check state is not read; for a hint that is not found the checks of
    its finding player are read, the [KeyError] of the key [(team, finding
    player)] is raised when the state has no entry for them, and otherwise
    the hint comes back with [found] telling
    whether its location is checked and every other field as before.
    Re-checking the result against the same state returns it unchanged. *)
Theorem Hint_re_check_spec (self : Hint.t) (location_checks : CheckState) (team : Z) :
  (Hint.found self = true → Hint.re_check self location_checks team = Ok self) ∧
  (Hint.found self = false →
   location_checks !! (team, Hint.finding_player self) = None →
   Hint.re_check self location_checks team
     = Raise (KeyError (repr_pair team (Hint.finding_player self)))) ∧
  (Hint.found self = false →
   ∀ checks, location_checks !! (team, Hint.finding_player self) = Some checks →
     Hint.re_check self location_checks team =
       Ok (Hint.mk (Hint.receiving_player self) (Hint.finding_player self)
             (Hint.location self) (Hint.item self)
             (bool_decide (Hint.location self ∈ checks))
             (Hint.entrance self) (Hint.item_flags self))) ∧
  (∀ h, Hint.re_check self location_checks team = Ok h →
        Hint.re_check h location_checks team = Ok h).
Proof.
  unfold Hint.re_check. split; [|split; [|split]].
  - intros ->. reflexivity.
  - intros -> ->. reflexivity.
  - intros Hfound checks Hchecks. rewrite Hfound, Hchecks. cbn.
    case_bool_decide; [reflexivity|].
    destruct self; cbn in *. rewrite Hfound. reflexivity.
  - intros h. destruct (Hint.found self) eqn:Hfound.
    + intros [= <-]. rewrite Hfound. reflexivity.
    + destruct (location_checks !! (team, Hint.finding_player self)) as [checks|] eqn:Hchecks;
        [|discriminate].
      cbn. case_bool_decide as Hin.
      * intros [= <-]. reflexivity.
      * intros [= <-]. rewrite Hfound, Hchecks. cbn.
        rewrite bool_decide_eq_false_2 by exact Hin. reflexivity.
Qed.

Lemma Hint_re_check_spec_witness :
  Hint.re_check hint_found ∅ 0 = Ok hint_found ∧
  Hint.re_check hint_not_found ∅ 0 = Raise (KeyError "(0, 2)") ∧
  Hint.re_check hint_not_found checks_location_100 0 = Ok hint_found ∧
  Hint.re_check hint_found checks_location_100 0 = Ok hint_found.
Proof.
  split; [|split; [|split]].
  - apply (Hint_re_check_spec hint_found ∅ 0). reflexivity.
  - destruct (Hint_re_check_spec hint_not_found ∅ 0) as (_ & H & _).
    rewrite (H eq_refl eq_refl). vm_compute. reflexivity.
  - destruct (Hint_re_check_spec hint_not_found checks_location_100 0) as (_ & _ & H & _).
    rewrite (H eq_refl {[ 100 ]}); vm_compute; reflexivity.
  - apply (Hint_re_check_spec hint_not_found checks_location_100 0).
    vm_compute. reflexivity.
Defined.

(** ** Renderer: colours, fallback and raw output *)

Lemma color_code_known (code : string) (n : Z) :
  PyDict.get color_codes code = Some n →
  color_code [code] = Ok (ESC ++ "[" ++ py_str n ++ "m")%string.
Proof. intros H. unfold color_code. cbn [mapM_result]. rewrite H. reflexivity. Qed.

Lemma color_codes_prefix (codes : list string) :
  mapM_result (λ code, color_code [code])
    (filter (λ code, is_Some (PyDict.get color_codes code)) codes)
  = Ok (map (λ n, ESC ++ "[" ++ py_str n ++ "m")%string
            (omap (PyDict.get color_codes) codes)).
Proof.
  induction codes as [|code codes IH]; [reflexivity|].
  cbn [omap list_omap]. destruct (PyDict.get color_codes code) as [n|] eqn:Hcode.
  - rewrite filter_cons_True by (rewrite Hcode; eauto).
    cbn [mapM_result]. rewrite (color_code_known code n Hcode), IH. reflexivity.
  - rewrite filter_cons_False by (rewrite Hcode; intros [? ?]; discriminate). exact IH.
Qed.

Lemma handle_color_paired_aux (node : JSONMessagePart.t) (c : string) :
  color node = Some c → ∃ s, JSONtoTextParser._handle_color false node = Ok s.
Proof.
  intros Hc. unfold JSONtoTextParser._handle_color. rewrite Hc.
  cbn [getitem mbind result_bind]. rewrite color_codes_prefix. eexists. reflexivity.
Qed.

(** X9 (colour handler): the raw parser returns the text of the part.  The
    colour parser raises a [KeyError] for a part without colour; for a part
    with a colour it does not raise, whatever the colour names are: it puts
    the codes of the names it knows before the text, skips the others, and
    ends with the reset code. *)
Theorem handle_color_paired (node : JSONMessagePart.t) :
  JSONtoTextParser._handle_color true node = Ok (JSONtoTextParser._handle_text node) ∧
  (color node = None →
   JSONtoTextParser._handle_color false node = Raise (KeyError "color")) ∧
  (∀ c, color node = Some c →
   JSONtoTextParser._handle_color false node =
   Ok (join "" (map (λ n, ESC ++ "[" ++ py_str n ++ "m")%string
                    (omap (PyDict.get color_codes) (split ";" c)))
       ++ JSONtoTextParser._handle_text node ++ ESC ++ "[0m")%string).
Proof.
  split; [reflexivity|]. unfold JSONtoTextParser._handle_color. split.
  - intros ->. reflexivity.
  - intros c ->. cbn [getitem mbind result_bind]. rewrite color_codes_prefix. reflexivity.
Qed.

Lemma handle_color_total (raw : bool) (c : string) (node : JSONMessagePart.t) :
  ∃ s, JSONtoTextParser._handle_color raw (set_color c node) = Ok s.
Proof.
  destruct raw.
  - eexists. reflexivity.
  - destruct (handle_color_paired_aux (set_color c node) c eq_refl) as [s Hs]. eauto.
Qed.

(** X10 (name parts always render): for a part of type [item_name],
    [location_name], [player_name] or [entrance_name] the handler returns,
    for both parsers and whatever the part holds, and the part it leaves is
    the input with its colour set. *)
Theorem name_parts_always_render (raw : bool) (ctx : RenderContext)
    (node : JSONMessagePart.t) (ty : string) :
  type node = Some ty → ty ∈ name_types →
  ∃ s c, JSONtoTextParser.handle_node raw ctx node = Ok (s, set_color c node).
Proof.
  intros Hty Hin. unfold name_types in Hin. rewrite !elem_of_cons in Hin.
  destruct Hin as [->|[->|[->|[->|Hin]]]]; [.. | inversion Hin].
  - rewrite (handle_node_dispatch raw ctx node "item_name"
               (JSONtoTextParser._handle_item_name raw) Hty eq_refl).
    rewrite _handle_item_name_bucket.
    destruct (handle_color_total raw (item_color_bucket (default 0 (flags node))) node)
      as [s Hs].
    rewrite Hs. eexists _, _. reflexivity.
  - rewrite (handle_node_dispatch raw ctx node "location_name"
               (JSONtoTextParser._handle_location_name raw) Hty eq_refl).
    unfold JSONtoTextParser._handle_location_name.
    destruct (handle_color_total raw "green" node) as [s Hs].
    rewrite Hs. eexists _, _. reflexivity.
  - rewrite (handle_node_dispatch raw ctx node "player_name"
               (JSONtoTextParser._handle_player_name raw) Hty eq_refl).
    unfold JSONtoTextParser._handle_player_name.
    destruct (handle_color_total raw "yellow" node) as [s Hs].
    rewrite Hs. eexists _, _. reflexivity.
  - rewrite (handle_node_dispatch raw ctx node "entrance_name"
               (JSONtoTextParser._handle_entrance_name raw) Hty eq_refl).
    unfold JSONtoTextParser._handle_entrance_name.
    destruct (handle_color_total raw "blue" node) as [s Hs].
    rewrite Hs. eexists _, _. reflexivity.
Qed.

Lemma name_parts_always_render_witness :
  ∃ s c, JSONtoTextParser.handle_node false ctx_render part_location
         = Ok (s, set_color c part_location).
Proof.
  apply (name_parts_always_render false ctx_render part_location "location_name").
  - reflexivity.
  - apply (bool_decide_unpack _). vm_compute. exact I.
Defined.

Lemma handlers_get_None (raw : bool) (ctx : RenderContext) (ty : string) :
  ty ∉ handled_types → PyDict.get (JSONtoTextParser.handlers raw ctx) ty = None.
Proof.
  intros Hty. unfold JSONtoTextParser.handlers, handled_types in *. cbn [PyDict.get].
  repeat (destruct (decide _) as [<-|_];
          [exfalso; apply Hty; apply (bool_decide_unpack _); vm_compute; exact I|]).
  reflexivity.
Qed.

(** X11 (fallback to plain text): a part without type, of type [text], or of
    a type that has no handler is rendered as its text, the empty string when
    it has none, and is left as it is; this never raises. *)
Theorem unhandled_parts_render_as_text (raw : bool) (ctx : RenderContext)
    (node : JSONMessagePart.t) :
  (type node = None ∨ type node = Some "text" ∨
   ∃ ty, type node = Some ty ∧ ty ∉ handled_types) →
  JSONtoTextParser.handle_node raw ctx node = Ok (default "" (text node), node).
Proof.
  unfold JSONtoTextParser.handle_node.
  intros [->|[->|(ty & -> & Hty)]]; [reflexivity | reflexivity |].
  rewrite (handlers_get_None raw ctx ty Hty). reflexivity.
Qed.

Lemma unhandled_parts_render_as_text_witness :
  JSONtoTextParser.handle_node false ctx_render part_unknown_type
  = Ok ("hello", part_unknown_type).
Proof.
  apply (unhandled_parts_render_as_text false ctx_render part_unknown_type).
  right. right. exists "hint_status". split; [reflexivity|].
  apply (bool_decide_unpack _). vm_compute. exact I.
Defined.

Lemma raw_returning_text (node node' : JSONMessagePart.t) (s : string) :
  JSONtoTextParser.returning node (JSONtoTextParser._handle_color true node) = Ok (s, node') →
  s = default "" (text node').
Proof. intros [-> [= <-]]%returning_Ok_inv. reflexivity. Qed.

Lemma raw_handle_node_text (ctx : RenderContext) (node node' : JSONMessagePart.t) (s : string) :
  JSONtoTextParser.handle_node true ctx node = Ok (s, node') →
  s = default "" (text node').
Proof.
  unfold JSONtoTextParser.handle_node.
  destruct (type node) as [ty|]; [|intros [= <- <-]; reflexivity].
  unfold JSONtoTextParser.handlers. cbn [PyDict.get].
  repeat (destruct (decide _) as [_|_]); cbn [default from_option id].
  - apply raw_returning_text.
  - intros [= <- <-]. reflexivity.
  - unfold JSONtoTextParser._handle_player_id. intros H.
    apply bind_Ok_inv in H as (node_text & _ & H).
    apply bind_Ok_inv in H as (player & _ & H).
    apply bind_Ok_inv in H as (name & _ & H).
    apply raw_returning_text in H. exact H.
  - apply raw_returning_text.
  - rewrite _handle_item_name_bucket. apply raw_returning_text.
  - unfold JSONtoTextParser._handle_item_id. intros H.
    apply bind_Ok_inv in H as (node_text & _ & H).
    apply bind_Ok_inv in H as (item_id & _ & H).
    apply bind_Ok_inv in H as (owner & _ & H).
    rewrite _handle_item_name_bucket in H. apply raw_returning_text in H. exact H.
  - apply raw_returning_text.
  - unfold JSONtoTextParser._handle_location_id. intros H.
    apply bind_Ok_inv in H as (node_text & _ & H).
    apply bind_Ok_inv in H as (location_id & _ & H).
    apply bind_Ok_inv in H as (owner & _ & H).
    apply raw_returning_text in H. exact H.
  - apply raw_returning_text.
  - intros [= <- <-]. reflexivity.
Qed.

(** X12 (raw output): what the raw parser returns for a list of parts is the
    texts of the parts, as rendering leaves them, one after the other; it
    adds no colour code of its own. *)
Theorem raw_render_joins_texts (ctx : RenderContext) (parts parts' : list JSONMessagePart.t)
    (s : string) :
  JSONtoTextParser.__call__ true ctx parts = Ok (s, parts') →
  s = joined_texts parts' ∧ length parts' = length parts.
Proof.
  revert s parts'. induction parts as [|node parts IH]; intros s parts'.
  - intros [= <- <-]. split; reflexivity.
  - cbn [JSONtoTextParser.__call__]. intros H.
    apply bind_Ok_inv in H as ([s1 node'] & Hnode & H).
    apply bind_Ok_inv in H as ([s2 rest'] & Hrest & H).
    injection H as <- <-.
    apply raw_handle_node_text in Hnode as ->.
    apply IH in Hrest as [-> Hlen]. split; [reflexivity | cbn; f_equal; exact Hlen].
Qed.

Lemma raw_render_joins_texts_witness :
  "Item 5" = joined_texts [JSONMessagePart.mk (Some "Item 5") (Some "item_id") (Some "plum")
                             (Some 2) (Some 1)] ∧
  length [JSONMessagePart.mk (Some "Item 5") (Some "item_id") (Some "plum") (Some 2) (Some 1)]
    = length [part_item_5].
Proof.
  apply (raw_render_joins_texts ctx_render [part_item_5]). vm_compute. reflexivity.
Defined.

(** ** Renderer: the parts the module builds *)

Lemma render_item_part (raw : bool) (ctx : RenderContext) (item_id player item_flags : Z) :
  ∃ s,
    JSONtoTextParser.handle_node raw ctx
      (JSONMessagePart.mk (Some (py_str item_id)) (Some "item_id") None
         (Some player) (Some item_flags))
    = Ok (s, JSONMessagePart.mk (Some (item_names_lookup_in_slot ctx item_id player))
               (Some "item_id") (Some (item_color_bucket item_flags))
               (Some player) (Some item_flags)) ∧
    (raw = true → s = item_names_lookup_in_slot ctx item_id player).
Proof.
  match goal with |- context [JSONtoTextParser.handle_node raw ctx ?n] =>
    rewrite (handle_node_dispatch raw ctx n "item_id"
               (JSONtoTextParser._handle_item_id raw ctx) eq_refl eq_refl) end.
  unfold JSONtoTextParser._handle_item_id. cbn [text getitem mbind result_bind].
  rewrite py_int_of_string_py_str. cbn [JSONMessagePart.player getitem mbind result_bind].
  rewrite _handle_item_name_bucket. cbn [flags set_text default from_option id].
  destruct raw.
  - eexists. split; [reflexivity | intros _; reflexivity].
  - destruct (handle_color_total false (item_color_bucket item_flags)
                (JSONMessagePart.mk (Some (item_names_lookup_in_slot ctx item_id player))
                   (Some "item_id") None (Some player) (Some item_flags))) as [s Hs].
    unfold set_color, set_text in *. cbn in Hs |- *. rewrite Hs.
    eexists. split; [reflexivity | discriminate].
Qed.

Lemma render_location_part (raw : bool) (ctx : RenderContext) (location_id player : Z) :
  ∃ s,
    JSONtoTextParser.handle_node raw ctx
      (JSONMessagePart.mk (Some (py_str location_id)) (Some "location_id") None
         (Some player) None)
    = Ok (s, JSONMessagePart.mk (Some (location_names_lookup_in_slot ctx location_id player))
               (Some "location_id") (Some "green") (Some player) None) ∧
    (raw = true → s = location_names_lookup_in_slot ctx location_id player).
Proof.
  match goal with |- context [JSONtoTextParser.handle_node raw ctx ?n] =>
    rewrite (handle_node_dispatch raw ctx n "location_id"
               (JSONtoTextParser._handle_location_id raw ctx) eq_refl eq_refl) end.
  unfold JSONtoTextParser._handle_location_id. cbn [text getitem mbind result_bind].
  rewrite py_int_of_string_py_str. cbn [JSONMessagePart.player getitem mbind result_bind].
  unfold JSONtoTextParser._handle_location_name.
  destruct raw.
  - eexists. split; [reflexivity | intros _; reflexivity].
  - destruct (handle_color_total false "green"
                (JSONMessagePart.mk (Some (location_names_lookup_in_slot ctx location_id player))
                   (Some "location_id") None (Some player) None)) as [s Hs].
    unfold set_color, set_text in *. cbn in Hs |- *. rewrite Hs.
    eexists. split; [reflexivity | discriminate].
Qed.

Lemma render_player_part (raw : bool) (ctx : RenderContext) (player_id : Z) (name : string) :
  player_names ctx !! player_id = Some name →
  ∃ s,
    JSONtoTextParser.handle_node raw ctx
      (JSONMessagePart.mk (Some (py_str player_id)) (Some "player_id") None None None)
    = Ok (s, JSONMessagePart.mk (Some name) (Some "player_id")
               (Some (if bool_decide (player_id = slot ctx) then "magenta" else "yellow"))
               None None) ∧
    (raw = true → s = name).
Proof.
  intros Hname.
  match goal with |- context [JSONtoTextParser.handle_node raw ctx ?n] =>
    rewrite (handle_node_dispatch raw ctx n "player_id"
               (JSONtoTextParser._handle_player_id raw ctx) eq_refl eq_refl) end.
  unfold JSONtoTextParser._handle_player_id. cbn [text getitem mbind result_bind].
  rewrite py_int_of_string_py_str. cbn [getitem mbind result_bind]. rewrite Hname.
  cbn [getitem mbind result_bind].
  destruct raw.
  - eexists. split; [reflexivity | intros _; reflexivity].
  - destruct (handle_color_total false
                (if bool_decide (player_id = slot ctx) then "magenta" else "yellow")
                (JSONMessagePart.mk (Some name) (Some "player_id") None None None)) as [s Hs].
    unfold set_color, set_text in *. cbn in Hs |- *. rewrite Hs.
    eexists. split; [reflexivity | discriminate].
Qed.

(** X13 (the builders and the renderer agree): the part [add_json_item]
    builds for an item renders to the name the item lookup gives for this
    item id and this player, and is left with that name as text and the
    colour bucket of its flags; the part [add_json_location] builds renders
    to the name the location lookup gives, in green; a [player_id] part
    renders to the name of the player when the context knows it and raises a
    [KeyError] otherwise.  So an id printed into a part is read back as the
    same id. *)
Theorem built_parts_render (raw : bool) (ctx : RenderContext) :
  (∀ item_id player item_flags, ∃ s,
     JSONtoTextParser.__call__ raw ctx (add_json_item [] item_id player item_flags)
     = Ok (s, [JSONMessagePart.mk (Some (item_names_lookup_in_slot ctx item_id player))
                 (Some "item_id") (Some (item_color_bucket item_flags))
                 (Some player) (Some item_flags)]) ∧
     (raw = true → s = item_names_lookup_in_slot ctx item_id player)) ∧
  (∀ location_id player, ∃ s,
     JSONtoTextParser.__call__ raw ctx (add_json_location [] location_id player)
     = Ok (s, [JSONMessagePart.mk (Some (location_names_lookup_in_slot ctx location_id player))
                 (Some "location_id") (Some "green") (Some player) None]) ∧
     (raw = true → s = location_names_lookup_in_slot ctx location_id player)) ∧
  (∀ player_id,
     match player_names ctx !! player_id with
     | Some name => ∃ s,
         JSONtoTextParser.__call__ raw ctx
           (add_json_text [] (py_str player_id) (Some "player_id") None)
         = Ok (s, [JSONMessagePart.mk (Some name) (Some "player_id")
                     (Some (if bool_decide (player_id = slot ctx) then "magenta" else "yellow"))
                     None None]) ∧
         (raw = true → s = name)
     | None =>
         JSONtoTextParser.__call__ raw ctx
           (add_json_text [] (py_str player_id) (Some "player_id") None)
         = Raise (KeyError (py_str player_id))
     end).
Proof.
  split; [|split].
  - intros item_id player item_flags.
    destruct (render_item_part raw ctx item_id player item_flags) as (s & Hs & Hraw).
    exists s. split; [|exact Hraw].
    unfold add_json_item. cbn [app JSONtoTextParser.__call__]. rewrite Hs.
    cbn [mbind result_bind]. rewrite append_empty_r. reflexivity.
  - intros location_id player.
    destruct (render_location_part raw ctx location_id player) as (s & Hs & Hraw).
    exists s. split; [|exact Hraw].
    unfold add_json_location. cbn [app JSONtoTextParser.__call__]. rewrite Hs.
    cbn [mbind result_bind]. rewrite append_empty_r. reflexivity.
  - intros player_id. destruct (player_names ctx !! player_id) as [name|] eqn:Hname.
    + destruct (render_player_part raw ctx player_id name Hname) as (s & Hs & Hraw).
      exists s. split; [|exact Hraw].
      unfold add_json_text. cbn [app JSONtoTextParser.__call__]. rewrite Hs.
      cbn [mbind result_bind]. rewrite append_empty_r. reflexivity.
    + unfold add_json_text. cbn [app JSONtoTextParser.__call__].
      match goal with |- context [JSONtoTextParser.handle_node raw ctx ?n] =>
    rewrite (handle_node_dispatch raw ctx n "player_id"
               (JSONtoTextParser._handle_player_id raw ctx) eq_refl eq_refl) end.
      unfold JSONtoTextParser._handle_player_id. cbn [text getitem mbind result_bind].
      rewrite py_int_of_string_py_str. cbn [getitem mbind result_bind]. rewrite Hname.
      reflexivity.
Qed.

Lemma append_assoc (s1 s2 s3 : string) : ((s1 ++ s2) ++ s3 = s1 ++ s2 ++ s3)%string.
Proof.
  induction s1 as [|c s1 IH]; [reflexivity|].
  change (String c ((s1 ++ s2) ++ s3) = String c (s1 ++ s2 ++ s3))%string.
  f_equal. exact IH.
Qed.

Lemma call_cons_Ok (raw : bool) (ctx : RenderContext) (node node' : JSONMessagePart.t)
    (rest rest' : list JSONMessagePart.t) (s s' : string) :
  JSONtoTextParser.handle_node raw ctx node = Ok (s, node') →
  JSONtoTextParser.__call__ raw ctx rest = Ok (s', rest') →
  JSONtoTextParser.__call__ raw ctx (node :: rest) = Ok ((s ++ s')%string, node' :: rest').
Proof. intros Hnode Hrest. cbn [JSONtoTextParser.__call__]. rewrite Hnode, Hrest. reflexivity. Qed.

(** X14 (the text of a hint message): when the context knows the names of the
    receiving and of the finding player, the raw parser renders the parts of
    [as_network_message] without raising, to the sentence made of these
    names, the names the lookups give for the item (of the receiving player)
    and the location (of the finding player), the entrance if the hint has
    one, and the found status. *)
Theorem Hint_message_raw_text (ctx : RenderContext) (h : Hint.t) (receiver finder : string) :
  player_names ctx !! Hint.receiving_player h = Some receiver →
  player_names ctx !! Hint.finding_player h = Some finder →
  ∃ parts',
    JSONtoTextParser.__call__ true ctx (msg_data (Hint_as_network_message h)) =
    Ok ("[Hint]: " ++ receiver ++ "'s "
        ++ item_names_lookup_in_slot ctx (Hint.item h) (Hint.receiving_player h)
        ++ " is at "
        ++ location_names_lookup_in_slot ctx (Hint.location h) (Hint.finding_player h)
        ++ " in " ++ finder
        ++ (if bool_decide (Hint.entrance h ≠ "")
            then "'s World at " ++ Hint.entrance h else "'s World")
        ++ ". " ++ (if Hint.found h then "(found)" else "(not found)"),
        parts')%string.
Proof.
  intros Hreceiver Hfinder.
  destruct (render_player_part true ctx _ receiver Hreceiver) as (s1 & Hs1 & Hr1).
  destruct (render_player_part true ctx _ finder Hfinder) as (s2 & Hs2 & Hr2).
  destruct (render_item_part true ctx (Hint.item h) (Hint.receiving_player h)
              (Hint.item_flags h)) as (s3 & Hs3 & Hr3).
  destruct (render_location_part true ctx (Hint.location h) (Hint.finding_player h))
    as (s4 & Hs4 & Hr4).
  rewrite (Hr1 eq_refl) in Hs1. rewrite (Hr2 eq_refl) in Hs2.
  rewrite (Hr3 eq_refl) in Hs3. rewrite (Hr4 eq_refl) in Hs4.
  clear Hr1 Hr2 Hr3 Hr4.
  unfold Hint_as_network_message. cbn [msg_data].
  unfold add_json_text, add_json_item, add_json_location.
  destruct (bool_decide (Hint.entrance h ≠ "")); destruct (Hint.found h); cbn [app].
  all: eexists; etransitivity;
    [ eapply call_cons_Ok; [reflexivity|];
      eapply call_cons_Ok; [exact Hs1|];
      eapply call_cons_Ok; [reflexivity|];
      eapply call_cons_Ok; [exact Hs3|];
      eapply call_cons_Ok; [reflexivity|];
      eapply call_cons_Ok; [exact Hs4|];
      eapply call_cons_Ok; [reflexivity|];
      eapply call_cons_Ok; [exact Hs2|];
      repeat (eapply call_cons_Ok; [reflexivity|]);
      reflexivity
    | cbn [default from_option id text];
      rewrite ?append_empty_r, ?append_assoc; reflexivity ].
Qed.

Lemma Hint_message_raw_text_witness :
  ∃ parts',
    JSONtoTextParser.__call__ true ctx_render (msg_data (Hint_as_network_message hint_with_entrance)) =
    Ok ("[Hint]: Alice's Item 5 is at Location 100 in Bob's World at Cave. (not found)",
        parts').
Proof.
  destruct (Hint_message_raw_text ctx_render hint_with_entrance "Alice" "Bob")
    as [parts' Hrender]; [vm_compute; reflexivity ..|].
  exists parts'. rewrite Hrender. vm_compute. reflexivity.
Defined.

(** ** Hint release state machine: single operations *)

Lemma update_team_data_Ok_inv (self : TriggeredHint) (ctx ctx' : Context) (team : Z)
    (f : HintData → HintData) :
  update_team_data self ctx team f = Ok ctx' →
  ∃ d, get_team_data self ctx team = Ok d ∧
       get_team_data self ctx' team = Ok (f d) ∧
       (∀ h, h ≠ self → get_team_data h ctx' team = get_team_data h ctx team) ∧
       same_outside_team_data ctx ctx'.
Proof.
  intros Hrun.
  destruct (get_team_data self ctx team) as [d|e] eqn:Hget.
  - exists d. split; [reflexivity|].
    destruct (update_team_data_spec self ctx team f d Hget) as (ctx1 & Hup & H).
    rewrite Hrun in Hup. injection Hup as <-. exact H.
  - exfalso. revert Hrun Hget. unfold update_team_data, get_team_data.
    destruct (team_data ctx) as [all|]; cbn; [|discriminate].
    destruct (all !! team) as [ft|]; cbn; [|discriminate].
    destruct (PyDict.get ft (type_of self)) as [per|]; cbn; [|discriminate].
    destruct (PyDict.get per self); cbn; discriminate.
Qed.





(** X17 (release data is cached): for a fresh or broadcasted hint [re_check]
    returns the stored release data, reads no check state and changes
    nothing; for a stale hint it stores the projection [get_release_data]
    computes now, makes the hint fresh and returns that projection. *)
Theorem re_check_caches (self : TriggeredHint) (ctx : Context) (team : Z) (d : HintData) :
  get_team_data self ctx team = Ok d →
  ((release_state d = fresh ∨ release_state d = broadcasted) →
   re_check self ctx team = Ok (release_data d, ctx)) ∧
  (release_state d = stale →
   ∀ data, get_release_data self ctx team = Ok data →
   ∃ ctx',
     re_check self ctx team = Ok (Some data, ctx') ∧
     get_team_data self ctx' team
       = Ok {| release_state := fresh; release_data := Some data |} ∧
     (∀ h, h ≠ self → get_team_data h ctx' team = get_team_data h ctx team) ∧
     same_outside_team_data ctx ctx' ∧
     re_check self ctx' team = Ok (Some data, ctx')).
Proof.
  intros Hget. unfold re_check. rewrite Hget. cbn [mbind result_bind]. split.
  - intros [Hstate|Hstate]; rewrite Hstate; reflexivity.
  - intros Hstate data Hdata. rewrite Hstate. cbn. rewrite Hdata. cbn [mbind result_bind].
    destruct (update_team_data_spec self ctx team (set_release_data (Some data)) d Hget)
      as (ctx1 & Hup1 & Hget1 & Hoth1 & Hfr1).
    rewrite Hup1. cbn [mbind result_bind].
    destruct (update_team_data_spec self ctx1 team (set_release_state fresh) _ Hget1)
      as (ctx2 & Hup2 & Hget2 & Hoth2 & Hfr2).
    rewrite Hup2. cbn [mbind result_bind]. rewrite Hget2. cbn.
    exists ctx2. split; [reflexivity|]. split; [exact Hget2|]. split; [|split].
    + intros h Hne. rewrite Hoth2, Hoth1 by exact Hne. reflexivity.
    + eapply same_outside_team_data_trans; eassumption.
    + rewrite Hget2. reflexivity.
Qed.

Lemma re_check_caches_witness :
  re_check text_hint_b ctx_two_released 0 = Ok (Some text_hint_b, ctx_two_released).
Proof.
  apply (re_check_caches text_hint_b ctx_two_released 0
           {| release_state := fresh; release_data := Some text_hint_b |}).
  - vm_compute. reflexivity.
  - left. reflexivity.
Defined.

(** ** Hint release state machine: released hints stay released *)

Lemma released_in_iff (ctx : Context) (team : Z) (h : TriggeredHint) :
  released_in ctx team h ↔
  ∃ d, get_team_data h ctx team = Ok d ∧ release_state d ≠ unreleased.
Proof.
  unfold released_in, is_released. split.
  - destruct (get_team_data h ctx team) as [d|e]; cbn; [|discriminate].
    intros [= H]. exists d. split; [reflexivity|]. apply bool_decide_eq_true in H. exact H.
  - intros (d & -> & Hd). cbn. rewrite bool_decide_eq_true_2 by exact Hd. reflexivity.
Qed.

Lemma released_in_same_tables (ctx ctx' : Context) (team : Z) (h : TriggeredHint) :
  team_data ctx' = team_data ctx → released_in ctx team h → released_in ctx' team h.
Proof.
  unfold released_in, is_released. intros Heq.
  rewrite (get_team_data_same_tables h ctx ctx' team Heq). auto.
Qed.

Lemma stays_bind {A B} (team : Z) (h : TriggeredHint) (p1 : A → Context) (p2 : B → Context)
    (m : result A) (k : A → result B) :
  stays_released team h p1 m →
  (∀ a, released_in (p1 a) team h → stays_released team h p2 (k a)) →
  stays_released team h p2 (m ≫= k).
Proof.
  intros Hm Hk b. destruct m as [a|e]; cbn [mbind result_bind]; [|discriminate].
  apply Hk, Hm. reflexivity.
Qed.

Lemma stays_bind_pure {A B} (team : Z) (h : TriggeredHint) (p : B → Context)
    (m : result A) (k : A → result B) :
  (∀ a, stays_released team h p (k a)) → stays_released team h p (m ≫= k).
Proof.
  intros Hk b. destruct m as [a|e]; cbn [mbind result_bind]; [apply Hk | discriminate].
Qed.

Lemma stays_Ok {A} (team : Z) (h : TriggeredHint) (p : A → Context) (a : A) :
  released_in (p a) team h → stays_released team h p (Ok a).
Proof. intros H a' [= <-]. exact H. Qed.

Lemma foldM_stays {A B} (team : Z) (h : TriggeredHint) (p : B → Context)
    (f : B → A → result B) (l : list A) (acc : B) :
  (∀ acc x, released_in (p acc) team h → stays_released team h p (f acc x)) →
  released_in (p acc) team h → stays_released team h p (foldM f acc l).
Proof.
  intros Hf. revert acc. induction l as [|x l IH]; intros acc Hacc.
  - apply stays_Ok, Hacc.
  - rewrite foldM_cons. eapply stays_bind; [apply Hf, Hacc|]. intros acc' Hacc'. apply IH, Hacc'.
Qed.

Lemma update_team_data_stays (self h : TriggeredHint) (ctx : Context) (team : Z)
    (f : HintData → HintData) :
  (∀ d, release_state d ≠ unreleased → release_state (f d) ≠ unreleased) →
  released_in ctx team h →
  stays_released team h id (update_team_data self ctx team f).
Proof.
  intros Hf (d & Hget & Hd)%released_in_iff ctx' Hrun.
  destruct (update_team_data_Ok_inv self ctx ctx' team f Hrun) as (d0 & Hget0 & Hget' & Hoth & _).
  apply released_in_iff. cbn [id]. destruct (decide (h = self)) as [->|Hne].
  - rewrite Hget in Hget0. injection Hget0 as <-. exists (f d). split; [exact Hget'|]. apply Hf, Hd.
  - exists d. split; [|exact Hd]. rewrite (Hoth h Hne). exact Hget.
Qed.

Lemma re_check_stays (self h : TriggeredHint) (ctx : Context) (team : Z) :
  released_in ctx team h → stays_released team h snd (re_check self ctx team).
Proof.
  intros Hrel. unfold re_check. apply stays_bind_pure. intros d.
  case_bool_decide; [intros a; discriminate|].
  case_bool_decide; [|apply stays_Ok, Hrel].
  apply stays_bind_pure. intros data.
  eapply stays_bind; [apply update_team_data_stays; [auto | exact Hrel]|].
  intros ctx1 Hrel1. cbn [id] in Hrel1.
  eapply stays_bind; [apply update_team_data_stays; [cbn; discriminate | exact Hrel1]|].
  intros ctx2 Hrel2. cbn [id] in Hrel2.
  apply stays_bind_pure. intros d2. apply stays_Ok, Hrel2.
Qed.

Lemma release_stays (self h : TriggeredHint) (ctx : Context) (team : Z) :
  released_in ctx team h → stays_released team h snd (TriggeredHint_.release self ctx team).
Proof.
  intros Hrel. unfold TriggeredHint_.release. apply stays_bind_pure. intros d.
  case_bool_decide; [|apply stays_Ok, Hrel].
  eapply stays_bind; [apply update_team_data_stays; [cbn; discriminate | exact Hrel]|].
  intros ctx1 Hrel1. apply stays_Ok, Hrel1.
Qed.



Lemma triggerable_release_stays (self : TriggerableHint) (h : TriggeredHint) (ctx : Context)
    (team : Z) :
  released_in ctx team h → stays_released team h id (TriggerableHint_.release self ctx team).
Proof.
  intros Hrel. unfold TriggerableHint_.release.
  eapply stays_bind; [apply release_stays, Hrel|].
  intros [released ctx1] Hrel1. cbn [snd] in Hrel1.
  destruct released; [|apply stays_Ok, Hrel1].
  destruct (trigger self) as [|finding_player location]; [apply stays_Ok, Hrel1|].
  eapply stays_bind; [apply re_check_stays, Hrel1|].
  intros [data ctx2] Hrel2. cbn [snd] in Hrel2.
  apply stays_bind_pure. intros data'. apply stays_bind_pure. intros hint_parts.
  apply stays_bind_pure. intros parts. apply stays_Ok.
  eapply released_in_same_tables; [|exact Hrel2]. reflexivity.
Qed.

Lemma release_fold_stays (h : TriggeredHint) (team : Z) (l : list TriggerableHint)
    (ctx : Context) :
  released_in ctx team h →
  stays_released team h id
    (foldM (λ ctx triggerable_hint, TriggerableHint_.release triggerable_hint ctx team) ctx l).
Proof.
  apply (foldM_stays team h id). intros ctx1 th Hrel1. apply triggerable_release_stays, Hrel1.
Qed.





(** ** Hint release state machine: broadcasting *)

Lemma check_and_set_broadcasted_Ok_inv (self : TriggeredHint) (ctx ctx' : Context)
    (team : Z) (b : bool) :
  check_and_set_broadcasted self ctx team = Ok (b, ctx') →
  ∃ d d',
    get_team_data self ctx team = Ok d ∧ b = transitions (release_state d) ∧
    get_team_data self ctx' team = Ok d' ∧
    release_state d' = after_broadcast (release_state d) ∧
    (∀ h, h ≠ self → get_team_data h ctx' team = get_team_data h ctx team) ∧
    same_outside_team_data ctx ctx'.
Proof.
  intros Hrun.
  destruct (get_team_data self ctx team) as [d|e] eqn:Hget.
  2: { unfold check_and_set_broadcasted in Hrun. rewrite Hget in Hrun. discriminate. }
  assert (Hrel : release_state d = stale → ∃ data, get_release_data self ctx team = Ok data).
  { intros Hstate. destruct (get_release_data self ctx team) as [data|e] eqn:Hdata; [eauto|].
    exfalso. unfold check_and_set_broadcasted, re_check in Hrun.
    rewrite Hget in Hrun. cbn [mbind result_bind] in Hrun.
    rewrite Hstate in Hrun. cbn in Hrun. rewrite Hdata in Hrun. discriminate. }
  destruct (check_and_set_broadcasted_run self ctx team d Hget Hrel)
    as (ctx1 & d1 & Hrun1 & Hget1 & Hstate1 & Hoth1 & Hfr1 & _).
  rewrite Hrun in Hrun1. injection Hrun1 as -> <-. exists d, d1. split; [reflexivity|].
  split; [reflexivity|]. auto.
Qed.

(** X19 (a broadcast is reported once): when [check_and_set_broadcasted]
    returns, a second call on the context it leaves answers [False] and
    changes nothing, whatever the first answer was. *)
Theorem broadcast_reported_once (self : TriggeredHint) (ctx ctx' : Context) (team : Z)
    (b : bool) :
  check_and_set_broadcasted self ctx team = Ok (b, ctx') →
  check_and_set_broadcasted self ctx' team = Ok (false, ctx').
Proof.
  intros (d & d' & _ & _ & Hget' & Hstate' & _)%check_and_set_broadcasted_Ok_inv.
  unfold check_and_set_broadcasted. rewrite Hget'. cbn [mbind result_bind].
  rewrite Hstate'.
  destruct (release_state d); cbn [after_broadcast bool_decide decide_rel]; simpl;
    rewrite Hget'; cbn [mbind result_bind]; rewrite Hstate'; reflexivity.
Qed.

Lemma broadcast_reported_once_witness :
  ∃ ctx', check_and_set_broadcasted text_hint_a ctx_two_released 0 = Ok (true, ctx') ∧
          check_and_set_broadcasted text_hint_a ctx' 0 = Ok (false, ctx').
Proof.
  eexists. split; [vm_compute; reflexivity|].
  apply (broadcast_reported_once text_hint_a ctx_two_released _ 0 true).
  vm_compute. reflexivity.
Defined.

(** X20 (marking stale re-arms the broadcast): for a released hint whose
    recipients have an entry in the check state, [mark_stale] followed by
    [check_and_set_broadcasted] answers [True] and leaves the hint
    broadcasted, whatever released state it was in. *)
Theorem mark_stale_rearms (self : TriggeredHint) (ctx : Context) (team : Z) :
  released_in ctx team self →
  (∀ p, p ∈ get_recipients self → is_Some (location_checks ctx !! (team, p))) →
  ∃ ctx1 ctx2 d,
    mark_stale self ctx team = Ok ctx1 ∧
    check_and_set_broadcasted self ctx1 team = Ok (true, ctx2) ∧
    get_team_data self ctx2 team = Ok d ∧ release_state d = broadcasted.
Proof.
  intros (d & Hget & Hd)%released_in_iff Hchecks.
  unfold mark_stale. rewrite Hget. cbn [mbind result_bind].
  rewrite bool_decide_eq_true_2 by exact Hd.
  destruct (update_team_data_spec self ctx team (set_release_state stale) d Hget)
    as (ctx1 & Hup & Hget1 & _ & Hfr).
  assert (Hchecks1 : ∀ p, p ∈ get_recipients self →
                          is_Some (location_checks ctx1 !! (team, p))).
  { destruct Hfr as (_ & _ & -> & _). exact Hchecks. }
  destruct (check_and_set_broadcasted_spec self ctx1 team _ Hget1 Hchecks1)
    as (ctx2 & d2 & Hrun & Hget2 & Hstate2 & _).
  exists ctx1, ctx2, d2. split; [exact Hup|]. split; [exact Hrun|]. split; [exact Hget2|].
  exact Hstate2.
Qed.

Lemma mark_stale_rearms_witness :
  ∃ ctx1 ctx2 d,
    mark_stale text_hint_b ctx_two_released 0 = Ok ctx1 ∧
    check_and_set_broadcasted text_hint_b ctx1 0 = Ok (true, ctx2) ∧
    get_team_data text_hint_b ctx2 0 = Ok d ∧ release_state d = broadcasted.
Proof.
  apply (mark_stale_rearms text_hint_b ctx_two_released 0).
  - vm_compute. reflexivity.
  - intros p Hp. apply list_elem_of_singleton in Hp as ->. vm_compute. eauto.
Defined.

(** ** Hint release state machine: passes of [broadcast_updates] *)

Lemma check_and_set_broadcasted_settled (h : TriggeredHint) (ctx : Context) (team : Z)
    (d : HintData) :
  get_team_data h ctx team = Ok d → transitions (release_state d) = false →
  check_and_set_broadcasted h ctx team = Ok (false, ctx).
Proof.
  intros Hget Hstate. unfold check_and_set_broadcasted. rewrite Hget. cbn [mbind result_bind].
  destruct (release_state d) eqn:Hs; try discriminate Hstate;
    cbn [bool_decide decide_rel]; simpl; rewrite Hget; cbn [mbind result_bind]; rewrite Hs;
    reflexivity.
Qed.

Lemma scan_fold_quiet (team : Z) (L : list (HintType * TriggeredHint))
    (acc : gset (Z * HintType)) (ctx : Context) :
  (∀ x, x ∈ L → ∃ d, get_team_data x.2 ctx team = Ok d ∧
                      transitions (release_state d) = false) →
  foldM (scan_step team) (acc, ctx) L = Ok (acc, ctx).
Proof.
  induction L as [|[ty h] L IH]; intros Hall; [reflexivity|].
  rewrite foldM_cons, scan_step_unfold.
  destruct (Hall (ty, h)) as (d & Hget & Hstate); [left|].
  rewrite (check_and_set_broadcasted_settled h ctx team d Hget Hstate).
  cbn [mbind result_bind fst snd]. apply IH. intros x Hx. apply Hall. right. exact Hx.
Qed.

Lemma scan_fold_settles (team : Z) (L : list (HintType * TriggeredHint)) :
  ∀ (acc acc' : gset (Z * HintType)) (ctx ctx' : Context),
  foldM (scan_step team) (acc, ctx) L = Ok (acc', ctx') →
  ∀ h d', get_team_data h ctx' team = Ok d' →
    (∃ d, get_team_data h ctx team = Ok d) ∧
    ((h ∈ L.*2 ∨ ∀ d, get_team_data h ctx team = Ok d →
                      transitions (release_state d) = false) →
     transitions (release_state d') = false).
Proof.
  induction L as [|[ty h0] L IH]; intros acc acc' ctx ctx' Hfold h d' Hget'.
  - injection Hfold as <- <-. split; [eauto|]. intros [Hin|Hset]; [inversion Hin|].
    apply Hset, Hget'.
  - rewrite foldM_cons, scan_step_unfold in Hfold.
    apply bind_Ok_inv in Hfold as ([acc1 ctx1] & Hstep & Hfold).
    apply bind_Ok_inv in Hstep as ([b c1] & Hcheck & Hstep). cbn [fst snd] in Hstep.
    assert (c1 = ctx1) as -> by (destruct b; injection Hstep as _ <-; reflexivity).
    apply check_and_set_broadcasted_Ok_inv in Hcheck
      as (d0 & d0' & Hget0 & _ & Hget0' & Hstate0 & Hoth & _).
    destruct (IH acc1 acc' ctx1 ctx' Hfold h d' Hget') as [[d1 Hget1] Hsettle].
    destruct (decide (h = h0)) as [->|Hne].
    + split; [eauto|]. intros _. apply Hsettle. right. intros d Hd.
      rewrite Hget0' in Hd. injection Hd as <-. rewrite Hstate0.
      destruct (release_state d0); reflexivity.
    + rewrite (Hoth h Hne) in Hget1. split; [eauto|].
      intros [Hin|Hset]; apply Hsettle.
      * left. cbn [fmap list_fmap snd] in Hin. apply elem_of_cons in Hin as [Heq|Hin];
          [contradiction | exact Hin].
      * right. intros d Hd. rewrite (Hoth h Hne) in Hd. apply Hset, Hd.
Qed.

Lemma ensure_team_init_Ok_initialised (fuel : nat) (ctx ctx' : Context) (team : Z) :
  triggerable_hints ctx ≠ [] →
  (∀ all_team_data for_team,
     team_data ctx = Some all_team_data → all_team_data !! team = Some for_team →
     well_formed_team_data for_team) →
  ensure_team_init fuel ctx team = Ok ctx' → team_initialised ctx' team.
Proof.
  intros Hhints Hwf Hrun. destruct fuel as [|fuel].
  - revert Hrun. unfold ensure_team_init, ensure_team_init_with.
    rewrite bool_decide_eq_false_2 by exact Hhints.
    case_bool_decide as Hteam.
    + intros [= <-]. destruct Hteam as [ft Hft].
      exists (default ∅ (team_data ctx)), ft. split; [reflexivity|]. split; [exact Hft|].
      destruct (team_data ctx) as [all|] eqn:Hall; cbn in Hft.
      * apply (Hwf all ft eq_refl Hft).
      * rewrite lookup_empty in Hft. discriminate.
    + intros (c1 & _ & (c2 & _ & Hrun)%bind_Ok_inv)%bind_Ok_inv. discriminate Hrun.
  - pose proof (ensure_team_init_establishes fuel ctx team Hhints Hwf) as Hkeeps.
    rewrite Hrun in Hkeeps. apply Hkeeps.
Qed.

(** X21 (a pass of [broadcast_updates] settles the team): let the tables of
    the team, when they exist, be well formed.  When [broadcast_updates]
    returns, a second pass on the context it leaves returns this very
    context: no hint changes state and the callback is not called. *)
Theorem broadcast_updates_settles (fuel fuel' : nat) (ctx ctx' : Context) (team : Z) :
  (∀ all_team_data for_team,
     team_data ctx = Some all_team_data → all_team_data !! team = Some for_team →
     well_formed_team_data for_team) →
  broadcast_updates fuel ctx team = Ok ctx' →
  broadcast_updates (S fuel') ctx' team = Ok ctx'.
Proof.
  intros Hwf Hrun. destruct fuel as [|fuel]; [discriminate Hrun|].
  cbn [broadcast_updates] in Hrun.
  apply bind_Ok_inv in Hrun as (ctx0 & Hensure & Hrun).
  apply bind_Ok_inv in Hrun as ([needed ctx1] & Hcollect & Hrun).
  injection Hrun as <-.
  assert (Hinit0 : team_initialised ctx0 team).
  { destruct (decide (triggerable_hints ctx = [])) as [Hnil|Hhints].
    - unfold ensure_team_init_with in Hensure.
      rewrite bool_decide_eq_true_2 in Hensure by exact Hnil. injection Hensure as <-.
      unfold collect_updates in Hcollect.
      apply bind_Ok_inv in Hcollect as (all & Hall & Hcollect).
      apply bind_Ok_inv in Hcollect as (ft & Hft & _).
      destruct (team_data ctx) as [all'|] eqn:Hall'; [|discriminate Hall].
      injection Hall as ->.
      destruct (all !! team) as [ft'|] eqn:Hft'; [|discriminate Hft].
      injection Hft as ->.
      exists all, ft. split; [exact Hall'|]. split; [exact Hft'|]. eapply Hwf; eauto.
    - eapply ensure_team_init_Ok_initialised; eassumption. }
  pose proof (collect_updates_keeps ctx0 team Hinit0) as Hkeeps.
  rewrite Hcollect in Hkeeps. destruct Hkeeps as [Hinit1 _]. cbn [snd] in Hinit1.
  destruct Hinit0 as (all0 & ft0 & Hall0 & Hteam0 & Hwf0).
  destruct Hinit1 as (all1 & ft1 & Hall1 & Hteam1 & Hwf1).
  rewrite (collect_updates_flat ctx0 team all0 ft0 Hall0 Hteam0) in Hcollect.
  destruct (call_on_changed_fold team (elements needed) ctx1) as [_ Hdata].
  cbv zeta in Hdata.
  set (ctx' := foldl _ ctx1 (elements needed)) in *.
  assert (Hall' : team_data ctx' = Some all1) by congruence.
  cbn [broadcast_updates].
  rewrite (ensure_team_init_initialised _ ctx' team all1 ft1 Hall' Hteam1).
  cbn [mbind result_bind].
  rewrite (collect_updates_flat ctx' team all1 ft1 Hall' Hteam1).
  rewrite scan_fold_quiet.
  - cbn [mbind result_bind]. rewrite elements_empty. reflexivity.
  - intros [ty h] Hx. cbn [snd].
    destruct (scan_list_has_record ctx1 team all1 ft1 ty h Hall1 Hteam1 Hwf1 Hx)
      as [_ [d1 Hget1]].
    exists d1. rewrite (get_team_data_same_tables h ctx1 ctx' team Hdata).
    split; [exact Hget1|].
    destruct (scan_fold_settles team _ _ _ _ _ Hcollect h d1 Hget1) as [[d0 Hget0] Hsettle].
    apply Hsettle. left.
    apply (list_elem_of_fmap_2 snd _ (type_of h, h)).
    exact (record_in_scan_list ctx0 team all0 ft0 h d0 Hall0 Hteam0 Hget0).
Qed.

Lemma broadcast_updates_settles_witness :
  ∃ ctx', broadcast_updates 1 ctx_two_released 0 = Ok ctx' ∧
          broadcast_updates 1 ctx' 0 = Ok ctx'.
Proof.
  eexists. split; [vm_compute; reflexivity|].
  apply (broadcast_updates_settles 1 0 ctx_two_released _ 0).
  - intros all ft [= <-] Hft. apply lookup_singleton_Some in Hft as [_ <-].
    apply team_0_tables_well_formed.
  - vm_compute. reflexivity.
Defined.

(** ** Initialisation of a team *)

(** X22 (initialisation is established once): for a context with configured
    hints whose tables of the team, when they exist, are well formed,
    [ensure_team_init] does not exhaust a fuel of two nested calls; when it
    returns, the team is initialised, the configured hints are the same, and
    every later [ensure_team_init] returns the context as it is. *)
Theorem ensure_team_init_initialises (fuel : nat) (ctx : Context) (team : Z) :
  triggerable_hints ctx ≠ [] →
  (∀ all_team_data for_team,
     team_data ctx = Some all_team_data → all_team_data !! team = Some for_team →
     well_formed_team_data for_team) →
  ensure_team_init (S fuel) ctx team ≠ Raise RecursionError ∧
  ∀ ctx', ensure_team_init (S fuel) ctx team = Ok ctx' →
    team_initialised ctx' team ∧
    triggerable_hints ctx' = triggerable_hints ctx ∧
    ∀ fuel', ensure_team_init fuel' ctx' team = Ok ctx'.
Proof.
  intros Hhints Hwf.
  pose proof (ensure_team_init_establishes fuel ctx team Hhints Hwf) as Hkeeps.
  destruct (ensure_team_init (S fuel) ctx team) as [ctx1|e]; cbn in Hkeeps.
  - split; [discriminate|]. intros ctx' [= <-]. destruct Hkeeps as [Hinit Hsame].
    split; [exact Hinit|]. split; [exact Hsame|]. intros fuel'.
    destruct Hinit as (all & ft & Hall & Hteam & _).
    apply (ensure_team_init_initialised _ ctx1 team all ft Hall Hteam).
  - split; [congruence | discriminate].
Qed.

Lemma ensure_team_init_initialises_witness :
  ensure_team_init 1 ctx_fresh 0 ≠ Raise RecursionError ∧
  ∀ ctx', ensure_team_init 1 ctx_fresh 0 = Ok ctx' →
    team_initialised ctx' 0 ∧
    triggerable_hints ctx' = triggerable_hints ctx_fresh ∧
    ∀ fuel', ensure_team_init fuel' ctx' 0 = Ok ctx'.
Proof.
  apply (ensure_team_init_initialises 0 ctx_fresh 0).
  - discriminate.
  - intros all ft Hall. discriminate Hall.
Defined.

Lemma release_Ok_inv (self : TriggeredHint) (ctx ctx' : Context) (team : Z) (b : bool) :
  TriggeredHint_.release self ctx team = Ok (b, ctx') →
  (∃ d, get_team_data self ctx team = Ok d) ∧
  released_in ctx' team self ∧
  (∀ h, h ≠ self → get_team_data h ctx' team = get_team_data h ctx team).
Proof.
  unfold TriggeredHint_.release.
  intros (d & Hget & Hrun)%bind_Ok_inv. split; [eauto|].
  destruct (bool_decide (release_state d = unreleased)) eqn:Hstate.
  - apply bind_Ok_inv in Hrun as (ctx1 & Hup & [= _ <-]).
    apply update_team_data_Ok_inv in Hup as (d0 & _ & Hget1 & Hoth & _).
    split; [|exact Hoth]. apply released_in_iff. eexists. split; [exact Hget1|]. discriminate.
  - injection Hrun as _ <-. split; [|reflexivity].
    apply released_in_iff. exists d. split; [exact Hget|].
    apply bool_decide_eq_false in Hstate. exact Hstate.
Qed.

Lemma re_check_Ok_inv (self : TriggeredHint) (ctx ctx' : Context) (team : Z)
    (r : option TriggeredHint) :
  re_check self ctx team = Ok (r, ctx') →
  ∀ h, h ≠ self → get_team_data h ctx' team = get_team_data h ctx team.
Proof.
  unfold re_check. intros (d & Hget & Hrun)%bind_Ok_inv.
  destruct (bool_decide (release_state d = unreleased)); [discriminate Hrun|].
  destruct (bool_decide (release_state d = stale)).
  - apply bind_Ok_inv in Hrun as (data & _ & Hrun).
    apply bind_Ok_inv in Hrun as (ctx1 & Hup1 & Hrun).
    apply bind_Ok_inv in Hrun as (ctx2 & Hup2 & Hrun).
    apply bind_Ok_inv in Hrun as (d2 & _ & [= _ <-]).
    apply update_team_data_Ok_inv in Hup1 as (? & _ & _ & Hoth1 & _).
    apply update_team_data_Ok_inv in Hup2 as (? & _ & _ & Hoth2 & _).
    intros h Hne. rewrite Hoth2, Hoth1 by exact Hne. reflexivity.
  - injection Hrun as _ <-. reflexivity.
Qed.

Lemma triggerable_release_Ok_inv (th : TriggerableHint) (ctx ctx' : Context) (team : Z) :
  TriggerableHint_.release th ctx team = Ok ctx' →
  (∃ d, get_team_data (hint th) ctx team = Ok d) ∧
  released_in ctx' team (hint th) ∧
  (∀ h, h ≠ hint th → get_team_data h ctx' team = get_team_data h ctx team).
Proof.
  unfold TriggerableHint_.release.
  intros ([b ctx1] & Hrel & Hrun)%bind_Ok_inv.
  apply release_Ok_inv in Hrel as (Hrec & Hrel1 & Hoth1). split; [exact Hrec|].
  destruct b; [|injection Hrun as <-; auto].
  destruct (trigger th) as [|finding_player location]; [injection Hrun as <-; auto|].
  apply bind_Ok_inv in Hrun as ([data ctx2] & Hre & Hrun).
  apply bind_Ok_inv in Hrun as (data' & _ & Hrun).
  apply bind_Ok_inv in Hrun as (hint_parts & _ & Hrun).
  apply bind_Ok_inv in Hrun as (parts & _ & [= <-]).
  split.
  - eapply released_in_same_tables; [reflexivity|].
    apply (re_check_stays (hint th) (hint th) ctx1 team Hrel1 (data, ctx2) Hre).
  - intros h Hne. rewrite <- (Hoth1 h Hne), <- (re_check_Ok_inv _ _ _ _ _ Hre h Hne).
    reflexivity.
Qed.

(** A pass of releases over a list of triggerable hints. *)
Lemma release_fold_spec (team : Z) (l : list TriggerableHint) :
  ∀ ctx ctx' : Context,
  foldM (λ ctx triggerable_hint, TriggerableHint_.release triggerable_hint ctx team) ctx l
    = Ok ctx' →
  (∀ h, h ∈ hint <$> l → released_in ctx' team h) ∧
  (∀ h, h ∉ hint <$> l → get_team_data h ctx' team = get_team_data h ctx team) ∧
  (∀ h d', get_team_data h ctx' team = Ok d' → ∃ d, get_team_data h ctx team = Ok d).
Proof.
  induction l as [|th l IH]; intros ctx ctx' Hrun.
  - injection Hrun as <-. split; [|split]; [|reflexivity|eauto].
    intros h Hin. inversion Hin.
  - rewrite foldM_cons in Hrun. apply bind_Ok_inv in Hrun as (ctx1 & Hstep & Hrun).
    apply triggerable_release_Ok_inv in Hstep as (Hrec & Hrel1 & Hoth1).
    destruct (IH ctx1 ctx' Hrun) as (Hin & Hout & Hdom). split; [|split].
    + intros h Hh. cbn [fmap list_fmap] in Hh. apply elem_of_cons in Hh as [->|Hh].
      * apply (release_fold_stays (hint th) team l ctx1 Hrel1 ctx' Hrun).
      * apply Hin, Hh.
    + intros h Hh. cbn [fmap list_fmap] in Hh. apply not_elem_of_cons in Hh as [Hne Hh].
      rewrite (Hout h Hh). apply Hoth1, Hne.
    + intros h d' Hget'. destruct (Hdom h d' Hget') as [d1 Hget1].
      destruct (decide (h = hint th)) as [->|Hne]; [exact Hrec|].
      rewrite (Hoth1 h Hne) in Hget1. eauto.
Qed.

Lemma init_team_data_spec (self : TriggeredHint) (ctx ctx' : Context) (team : Z) :
  init_team_data self ctx team = Ok ctx' →
  get_team_data self ctx' team = Ok {| release_state := unreleased; release_data := None |} ∧
  (∀ h d, h ≠ self → get_team_data h ctx' team = Ok d ↔ get_team_data h ctx team = Ok d) ∧
  same_outside_team_data ctx ctx'.
Proof.
  unfold init_team_data.
  destruct (team_data ctx) as [all|] eqn:Hall; cbn [getitem mbind result_bind]; [|discriminate].
  destruct (all !! team) as [ft|] eqn:Hft; cbn [getitem mbind result_bind]; [|discriminate].
  intros [= <-]. split; [|split]; [| |repeat split].
  - apply get_team_data_Ok. eexists _, _, _. split; [reflexivity|].
    split; [apply lookup_insert_eq|]. split; apply PyDict_get_set_eq.
  - intros h d Hne. rewrite !get_team_data_Ok. cbn [team_data with_team_data]. split.
    + intros (all' & ft' & per' & [= <-] & Hft' & Hper' & Hd).
      rewrite lookup_insert_eq in Hft'. injection Hft' as <-.
      destruct (decide (type_of self = type_of h)) as [Hty|Hty].
      * rewrite <- Hty, PyDict_get_set_eq in Hper'. injection Hper' as <-.
        rewrite PyDict_get_set_ne in Hd by congruence.
        destruct (PyDict.get ft (type_of self)) as [p|] eqn:Hp; cbn in Hd; [|discriminate Hd].
        exists all, ft, p. rewrite <- Hty. auto.
      * rewrite PyDict_get_set_ne in Hper' by exact Hty. exists all, ft, per'. auto.
    + intros (all' & ft' & per' & Hall' & Hft' & Hper' & Hd).
      rewrite Hall in Hall'. injection Hall' as <-. rewrite Hft in Hft'. injection Hft' as <-.
      destruct (decide (type_of self = type_of h)) as [Hty|Hty].
      * eexists _, _, _. split; [reflexivity|]. split; [apply lookup_insert_eq|].
        rewrite <- Hty. split; [apply PyDict_get_set_eq|].
        rewrite PyDict_get_set_ne by congruence. rewrite Hty, Hper'. exact Hd.
      * eexists _, _, per'. split; [reflexivity|]. split; [apply lookup_insert_eq|].
        split; [|exact Hd]. rewrite PyDict_get_set_ne by exact Hty. exact Hper'.
Qed.

(** The loop of [ensure_team_init] that creates the records. *)
Lemma init_fold_spec (team : Z) (l : list TriggerableHint) :
  ∀ ctx ctx' : Context,
  foldM (λ ctx triggerable_hint, init_team_data (hint triggerable_hint) ctx team) ctx l
    = Ok ctx' →
  (∀ h, h ∈ hint <$> l →
        get_team_data h ctx' team
          = Ok {| release_state := unreleased; release_data := None |}) ∧
  (∀ h d, h ∉ hint <$> l →
          get_team_data h ctx' team = Ok d ↔ get_team_data h ctx team = Ok d) ∧
  same_outside_team_data ctx ctx'.
Proof.
  induction l as [|th l IH]; intros ctx ctx' Hrun.
  - injection Hrun as <-. split; [|split]; [| |apply same_outside_team_data_refl].
    + intros h Hin. inversion Hin.
    + reflexivity.
  - rewrite foldM_cons in Hrun. apply bind_Ok_inv in Hrun as (ctx1 & Hstep & Hrun).
    apply init_team_data_spec in Hstep as (Hself & Hoth1 & Hfr1).
    destruct (IH ctx1 ctx' Hrun) as (Hin & Hout & Hfr). split; [|split].
    + intros h Hh. destruct (decide (h ∈ hint <$> l)) as [Hl|Hl]; [apply Hin, Hl|].
      cbn [fmap list_fmap] in Hh. apply elem_of_cons in Hh as [->|Hh]; [|contradiction].
      apply (Hout _ _ Hl). exact Hself.
    + intros h d Hh. cbn [fmap list_fmap] in Hh. apply not_elem_of_cons in Hh as [Hne Hh].
      rewrite (Hout h d Hh). apply Hoth1, Hne.
    + eapply same_outside_team_data_trans; eassumption.
Qed.

(** The state of every record after the scan of [broadcast_updates]. *)
Lemma scan_fold_states (team : Z) (L : list (HintType * TriggeredHint)) :
  ∀ (acc acc' : gset (Z * HintType)) (ctx ctx' : Context),
  foldM (scan_step team) (acc, ctx) L = Ok (acc', ctx') →
  ∀ h d, get_team_data h ctx team = Ok d →
    ∃ d', get_team_data h ctx' team = Ok d' ∧
          (h ∈ L.*2 → release_state d' = after_broadcast (release_state d)) ∧
          (h ∉ L.*2 → release_state d' = release_state d).
Proof.
  induction L as [|[ty h0] L IH]; intros acc acc' ctx ctx' Hfold h d Hget.
  - injection Hfold as <- <-. exists d. split; [exact Hget|]. split; [|reflexivity].
    intros Hin. inversion Hin.
  - rewrite foldM_cons, scan_step_unfold in Hfold.
    apply bind_Ok_inv in Hfold as ([acc1 ctx1] & Hstep & Hfold).
    apply bind_Ok_inv in Hstep as ([b c1] & Hcheck & Hstep). cbn [fst snd] in Hstep.
    assert (c1 = ctx1) as -> by (destruct b; injection Hstep as _ <-; reflexivity).
    apply check_and_set_broadcasted_Ok_inv in Hcheck
      as (d0 & d0' & Hget0 & _ & Hget0' & Hstate0 & Hoth & _).
    cbn [fmap list_fmap snd].
    destruct (decide (h = h0)) as [->|Hne].
    + rewrite Hget in Hget0. injection Hget0 as <-.
      destruct (IH acc1 acc' ctx1 ctx' Hfold h0 d0' Hget0') as (d' & Hget' & Hin & Hout).
      exists d'. split; [exact Hget'|]. split; [|intros Hnot; exfalso; apply Hnot; left].
      intros _. destruct (decide (h0 ∈ L.*2)) as [Hl|Hl].
      * rewrite (Hin Hl), Hstate0. destruct (release_state d); reflexivity.
      * rewrite (Hout Hl). exact Hstate0.
    + rewrite <- (Hoth h Hne) in Hget.
      destruct (IH acc1 acc' ctx1 ctx' Hfold h d Hget) as (d' & Hget' & Hin & Hout).
      exists d'. split; [exact Hget'|]. split.
      * intros [Heq|Hl]%elem_of_cons; [contradiction | apply Hin, Hl].
      * intros [_ Hl]%not_elem_of_cons. apply Hout, Hl.
Qed.

(** X23 (what the first initialisation leaves): let hints be configured and
    the team have no tables yet.  When [ensure_team_init] returns, exactly the
    configured hints have a record for the team; the record of a hint that is
    filed in the index of the free triggers is broadcasted, the record of any
    other configured hint is unreleased. *)
Theorem ensure_team_init_first_run (fuel : nat) (ctx ctx' : Context) (team : Z) :
  triggerable_hints ctx ≠ [] →
  (∀ all_team_data, team_data ctx = Some all_team_data → all_team_data !! team = None) →
  ensure_team_init fuel ctx team = Ok ctx' →
  ∀ h,
    (h ∈ hint <$> triggerable_hints ctx →
     ∃ d, get_team_data h ctx' team = Ok d ∧
          release_state d =
            if bool_decide (h ∈ hint <$> indexes_FreeTrigger ctx)
            then broadcasted else unreleased) ∧
    (h ∉ hint <$> triggerable_hints ctx → ∀ d, get_team_data h ctx' team ≠ Ok d).
Proof.
  intros Hhints Hfresh Hrun.
  assert (Hnone : default ∅ (team_data ctx) !! team = None).
  { destruct (team_data ctx) as [all|] eqn:Hall; cbn; [apply Hfresh; reflexivity|].
    apply lookup_empty. }
  unfold ensure_team_init, ensure_team_init_with in Hrun.
  rewrite bool_decide_eq_false_2 in Hrun by exact Hhints.
  rewrite bool_decide_eq_false_2 in Hrun by (rewrite Hnone; intros [? ?]; discriminate).
  cbv zeta in Hrun.
  set (ctx0 := with_team_data _ (Some (<[team := []]> _))) in Hrun.
  apply bind_Ok_inv in Hrun as (ctx1 & Hinit & Hrun).
  apply bind_Ok_inv in Hrun as (ctx2 & Hrelease & Hbroadcast).
  change (triggerable_hints ctx0) with (triggerable_hints ctx) in Hinit.
  apply init_fold_spec in Hinit as (Hin1 & Hout1 & Hfr1).
  assert (Hempty0 : ∀ h d, get_team_data h ctx0 team ≠ Ok d).
  { intros h d (all & ft & per & [= <-] & Hft & Hper & _)%get_team_data_Ok.
    rewrite lookup_insert_eq in Hft. injection Hft as <-. discriminate Hper. }
  unfold FreeTrigger_release_all in Hrelease.
  assert (Hindex : indexes_FreeTrigger ctx1 = indexes_FreeTrigger ctx).
  { destruct Hfr1 as (_ & -> & _). reflexivity. }
  rewrite Hindex in Hrelease.
  apply release_fold_spec in Hrelease as (Hin2 & Hout2 & Hdom2).
  assert (Hrec2 : ∀ h, h ∈ hint <$> triggerable_hints ctx →
            ∃ d2, get_team_data h ctx2 team = Ok d2 ∧
                  after_broadcast (release_state d2) =
                    if bool_decide (h ∈ hint <$> indexes_FreeTrigger ctx)
                    then broadcasted else unreleased).
  { intros h Hh. case_bool_decide as Hfree.
    - destruct (proj1 (released_in_iff ctx2 team h) (Hin2 h Hfree)) as (d2 & Hget2 & Hd2).
      exists d2. split; [exact Hget2|]. destruct (release_state d2); [contradiction|..];
        reflexivity.
    - eexists. rewrite (Hout2 h Hfree). split; [apply Hin1, Hh | reflexivity]. }
  destruct fuel as [|fuel]; [discriminate Hbroadcast|].
  cbn [broadcast_updates] in Hbroadcast.
  assert (Htables : ∃ all2 ft2, team_data ctx2 = Some all2 ∧ all2 !! team = Some ft2).
  { destruct (triggerable_hints ctx) as [|th l] eqn:Hl; [contradiction|].
    destruct (Hrec2 (hint th)) as (d2 & Hget2 & _); [left|].
    apply get_team_data_Ok in Hget2 as (all2 & ft2 & _ & Hall2 & Hft2 & _). eauto. }
  destruct Htables as (all2 & ft2 & Hall2 & Hft2).
  rewrite (ensure_team_init_initialised _ ctx2 team all2 ft2 Hall2 Hft2) in Hbroadcast.
  cbn [mbind result_bind] in Hbroadcast.
  apply bind_Ok_inv in Hbroadcast as ([needed ctx3] & Hcollect & [= <-]).
  rewrite (collect_updates_flat ctx2 team all2 ft2 Hall2 Hft2) in Hcollect.
  destruct (call_on_changed_fold team (elements needed) ctx3) as [_ Hdata].
  cbv zeta in Hdata.
  intros h. rewrite (get_team_data_same_tables h ctx3 _ team Hdata). split.
  - intros Hh. destruct (Hrec2 h Hh) as (d2 & Hget2 & Hstate2).
    destruct (scan_fold_states team _ _ _ _ _ Hcollect h d2 Hget2) as (d3 & Hget3 & Hin3 & _).
    exists d3. split; [exact Hget3|]. rewrite <- Hstate2. apply Hin3.
    apply (list_elem_of_fmap_2 snd _ (type_of h, h)).
    exact (record_in_scan_list ctx2 team all2 ft2 h d2 Hall2 Hft2 Hget2).
  - intros Hh d Hget3.
    destruct (scan_fold_settles team _ _ _ _ _ Hcollect h d Hget3) as [[d2 Hget2] _].
    destruct (Hdom2 h d2 Hget2) as [d1 Hget1].
    apply (Hout1 h d1 Hh) in Hget1. exact (Hempty0 h d1 Hget1).
Qed.

Lemma ensure_team_init_first_run_witness :
  ∃ ctx', ensure_team_init 1 ctx_fresh 0 = Ok ctx' ∧
    ∀ h,
      (h ∈ hint <$> triggerable_hints ctx_fresh →
       ∃ d, get_team_data h ctx' 0 = Ok d ∧
            release_state d =
              if bool_decide (h ∈ hint <$> indexes_FreeTrigger ctx_fresh)
              then broadcasted else unreleased) ∧
      (h ∉ hint <$> triggerable_hints ctx_fresh → ∀ d, get_team_data h ctx' 0 ≠ Ok d).
Proof.
  eexists. split; [vm_compute; reflexivity|].
  apply (ensure_team_init_first_run 1 ctx_fresh _ 0).
  - discriminate.
  - intros all Hall. discriminate Hall.
  - vm_compute. reflexivity.
Defined.

(** ** The indexes *)

Lemma index_get_insert (index : LocationIndex) (player location p l : Z)
    (hints : list TriggerableHint) :
  index_get (<[player := <[location := hints]> (default ∅ (index !! player))]> index) p l
  = if bool_decide (p = player ∧ l = location) then hints else index_get index p l.
Proof.
  unfold index_get. destruct (decide (p = player)) as [->|Hp].
  - rewrite lookup_insert_eq. cbn [default from_option id].
    destruct (decide (l = location)) as [->|Hl].
    + rewrite lookup_insert_eq, bool_decide_eq_true_2 by auto. reflexivity.
    + rewrite lookup_insert_ne by congruence.
      rewrite bool_decide_eq_false_2 by (intros [_ ?]; contradiction). reflexivity.
  - rewrite lookup_insert_ne by congruence.
    rewrite bool_decide_eq_false_2 by (intros [? _]; contradiction). reflexivity.
Qed.

Lemma index_locations_fold (parent : TriggerableHint) (locations : list Z) :
  ∀ (player_data : gmap Z (list TriggerableHint)) (l : Z),
  NoDup locations →
  default [] (foldl (λ player_data location,
                       <[location := (default [] (player_data !! location) ++ [parent])%list]>
                         player_data)
                    player_data locations !! l)
  = (default [] (player_data !! l) ++ if bool_decide (l ∈ locations) then [parent] else [])%list.
Proof.
  induction locations as [|k ks IH]; intros player_data l Hnd; cbn [foldl].
  - rewrite bool_decide_eq_false_2 by (intros H; inversion H). rewrite app_nil_r. reflexivity.
  - apply NoDup_cons in Hnd as [Hk Hks]. rewrite IH by exact Hks.
    destruct (decide (l = k)) as [->|Hl].
    + rewrite lookup_insert_eq. cbn [default from_option id].
      rewrite bool_decide_eq_false_2 by exact Hk.
      rewrite bool_decide_eq_true_2 by left. rewrite app_nil_r. reflexivity.
    + rewrite lookup_insert_ne by congruence. f_equal.
      destruct (decide (l ∈ ks)) as [Hin|Hin].
      * rewrite !bool_decide_eq_true_2; [reflexivity | right; exact Hin | exact Hin].
      * rewrite !bool_decide_eq_false_2; [reflexivity | | exact Hin].
        intros [?|?]%elem_of_cons; contradiction.
Qed.

Lemma elem_of_map_keys {A} (m : gmap Z A) (k : Z) :
  k ∈ (map_to_list m).*1 ↔ is_Some (m !! k).
Proof.
  split.
  - intros ([k' v] & -> & Hin%elem_of_map_to_list)%list_elem_of_fmap. eauto.
  - intros [v Hv]. apply (list_elem_of_fmap_2 fst _ (k, v)), elem_of_map_to_list, Hv.
Qed.

Lemma TriggeredHint_index_get (self : TriggeredHint) (indexes : Indexes)
    (parent : TriggerableHint) (p l : Z) :
  indexes_LocationTrigger (TriggeredHint_index self indexes parent)
    = indexes_LocationTrigger indexes ∧
  index_get (indexes_LocationSetHint (TriggeredHint_index self indexes parent)) p l
    = (index_get (indexes_LocationSetHint indexes) p l
       ++ if bool_decide (tracks_location p l self) then [parent] else [])%list.
Proof.
  destruct self as [player text | player label kind total pld]; cbn [TriggeredHint_index].
  - split; [reflexivity|].
    rewrite bool_decide_eq_false_2 by (intros []). rewrite app_nil_r. reflexivity.
  - split; [reflexivity|]. cbn [indexes_LocationSetHint].
    unfold index_get at 1. destruct (decide (p = player)) as [->|Hp].
    + rewrite lookup_insert_eq. cbn [default from_option id].
      rewrite index_locations_fold by apply NoDup_fst_map_to_list.
      unfold index_get. f_equal.
      destruct (decide (l ∈ (map_to_list pld).*1)) as [Hin|Hin].
      * rewrite !bool_decide_eq_true_2; [reflexivity | | exact Hin].
        split; [reflexivity | apply elem_of_map_keys, Hin].
      * rewrite !bool_decide_eq_false_2; [reflexivity | | exact Hin].
        intros [_ Hsome]. apply Hin, elem_of_map_keys, Hsome.
    + rewrite lookup_insert_ne by congruence.
      rewrite bool_decide_eq_false_2 by (intros [? _]; congruence).
      rewrite app_nil_r. reflexivity.
Qed.

Lemma filter_singleton {A} (P : A → Prop) `{∀ x, Decision (P x)} (x : A) :
  filter P [x] = if bool_decide (P x) then [x] else [].
Proof.
  destruct (decide (P x)) as [Hx|Hx].
  - rewrite filter_cons_True, bool_decide_eq_true_2 by exact Hx. reflexivity.
  - rewrite filter_cons_False, bool_decide_eq_false_2 by exact Hx. reflexivity.
Qed.

Lemma index_step_indexed (st : Context * Indexes) (th : TriggerableHint) :
  indexed [th] st (index_step st th).
Proof.
  destruct st as [ctx indexes]. unfold indexed, index_step. cbn [fst snd].
  pose proof (TriggeredHint_index_get (hint th) indexes th) as Hhint.
  destruct (trigger th) as [|player location] eqn:Htrigger; cbn [Trigger_index fst snd].
  - split; [|split; [|split]].
    + rewrite filter_singleton, bool_decide_eq_true_2 by exact Htrigger. reflexivity.
    + intros p l. rewrite filter_singleton, bool_decide_eq_false_2 by congruence.
      rewrite app_nil_r, (proj1 (Hhint p l)). reflexivity.
    + intros p l. rewrite filter_singleton. apply (Hhint p l).
    + repeat split.
  - split; [|split; [|split]].
    + rewrite filter_singleton, bool_decide_eq_false_2 by congruence.
      rewrite app_nil_r. reflexivity.
    + intros p l. cbn [indexes_LocationTrigger]. rewrite (proj1 (Hhint p l)).
      rewrite index_get_insert, filter_singleton, Htrigger.
      destruct (decide (p = player ∧ l = location)) as [[-> ->]|Hne].
      * rewrite !bool_decide_eq_true_2 by auto. reflexivity.
      * rewrite !bool_decide_eq_false_2; [rewrite app_nil_r; reflexivity | | exact Hne].
        intros [= -> ->]. apply Hne. auto.
    + intros p l. rewrite filter_singleton. apply (Hhint p l).
    + repeat split.
Qed.

Lemma indexed_app (l1 l2 : list TriggerableHint) (st1 st2 st3 : Context * Indexes) :
  indexed l1 st1 st2 → indexed l2 st2 st3 → indexed (l1 ++ l2) st1 st3.
Proof.
  intros (Hf1 & Ht1 & Hs1 & ? & ? & ? & ? & ?) (Hf2 & Ht2 & Hs2 & ? & ? & ? & ? & ?).
  unfold indexed. rewrite Hf2, Hf1, filter_app, app_assoc.
  split; [reflexivity|]. split; [|split].
  - intros p l. rewrite Ht2, Ht1, filter_app, app_assoc. reflexivity.
  - intros p l. rewrite Hs2, Hs1, filter_app, app_assoc. reflexivity.
  - repeat split; congruence.
Qed.

Lemma index_fold_indexed (l : list TriggerableHint) (st : Context * Indexes) :
  indexed l st (foldl index_step st l).
Proof.
  revert st. induction l as [|th l IH]; intros st; cbn [foldl].
  - unfold indexed. rewrite !filter_nil, app_nil_r. split; [reflexivity|].
    split; [|split]; [intros p loc; rewrite filter_nil, app_nil_r; reflexivity ..|].
    repeat split.
  - apply (indexed_app [th] l st (index_step st th)); [apply index_step_indexed | apply IH].
Qed.

(** X24 (what [index_all] files where): one pass over the configured hints
    appends to the index of the free triggers the hints with a free trigger,
    to the index of a player and location the hints triggered by this
    location, and to the location-set index of a player and location the
    location sets of this player that list this location; each in the order
    of the configured hints, after what the index held.  It changes nothing
    else of the context. *)
Theorem index_all_spec (ctx : Context) (indexes : Indexes) :
  let hints := triggerable_hints ctx in
  let st' := index_all ctx indexes in
  indexes_FreeTrigger st'.1
    = (indexes_FreeTrigger ctx ++ filter (λ th, trigger th = FreeTrigger) hints)%list ∧
  (∀ player location,
     index_get (indexes_LocationTrigger st'.2) player location
     = (index_get (indexes_LocationTrigger indexes) player location
        ++ filter (λ th, trigger th = LocationTrigger player location) hints)%list) ∧
  (∀ player location,
     index_get (indexes_LocationSetHint st'.2) player location
     = (index_get (indexes_LocationSetHint indexes) player location
        ++ filter (λ th, tracks_location player location (hint th)) hints)%list) ∧
  triggerable_hints st'.1 = triggerable_hints ctx ∧
  team_data st'.1 = team_data ctx ∧
  location_checks st'.1 = location_checks ctx ∧
  on_changed_triggerable_hints st'.1 = on_changed_triggerable_hints ctx ∧
  notify_triggered_hints st'.1 = notify_triggered_hints ctx.
Proof. exact (index_fold_indexed (triggerable_hints ctx) (ctx, indexes)). Qed.

(** Indexing the three configured hints of [ctx_two_released]. *)
Example index_all_three_hints :
  let st' := index_all ctx_two_released no_indexes in
  index_get (indexes_LocationTrigger st'.2) 3 100
    = [ {| hint := region_hint; trigger := LocationTrigger 3 100 |} ] ∧
  index_get (indexes_LocationSetHint st'.2) 2 20
    = [ {| hint := region_hint; trigger := LocationTrigger 3 100 |} ] ∧
  index_get (indexes_LocationSetHint st'.2) 2 30 = [].
Proof. vm_compute. repeat split. Qed.

(** ** Release passes *)

Lemma release_frame (self : TriggeredHint) (ctx ctx' : Context) (team : Z) (b : bool) :
  TriggeredHint_.release self ctx team = Ok (b, ctx') → same_outside_team_data ctx ctx'.
Proof.
  unfold TriggeredHint_.release. intros (d & _ & Hrun)%bind_Ok_inv.
  destruct (bool_decide (release_state d = unreleased)).
  - apply bind_Ok_inv in Hrun as (ctx1 & Hup & [= _ <-]).
    apply update_team_data_Ok_inv in Hup as (? & _ & _ & _ & Hfr). exact Hfr.
  - injection Hrun as _ <-. apply same_outside_team_data_refl.
Qed.

Lemma re_check_frame (self : TriggeredHint) (ctx ctx' : Context) (team : Z)
    (r : option TriggeredHint) :
  re_check self ctx team = Ok (r, ctx') → same_outside_team_data ctx ctx'.
Proof.
  unfold re_check. intros (d & Hget & Hrun)%bind_Ok_inv.
  destruct (bool_decide (release_state d = unreleased)); [discriminate Hrun|].
  destruct (bool_decide (release_state d = stale)).
  - apply bind_Ok_inv in Hrun as (data & _ & Hrun).
    apply bind_Ok_inv in Hrun as (ctx1 & Hup1 & Hrun).
    apply bind_Ok_inv in Hrun as (ctx2 & Hup2 & Hrun).
    apply bind_Ok_inv in Hrun as (d2 & _ & [= _ <-]).
    apply update_team_data_Ok_inv in Hup1 as (? & _ & _ & _ & Hfr1).
    apply update_team_data_Ok_inv in Hup2 as (? & _ & _ & _ & Hfr2).
    eapply same_outside_team_data_trans; eassumption.
  - injection Hrun as _ <-. apply same_outside_team_data_refl.
Qed.

Lemma triggerable_release_frame (th : TriggerableHint) (ctx ctx' : Context) (team : Z) :
  TriggerableHint_.release th ctx team = Ok ctx' →
  triggerable_hints ctx' = triggerable_hints ctx ∧
  indexes_FreeTrigger ctx' = indexes_FreeTrigger ctx ∧
  location_checks ctx' = location_checks ctx ∧
  on_changed_triggerable_hints ctx' = on_changed_triggerable_hints ctx.
Proof.
  unfold TriggerableHint_.release.
  intros ([b ctx1] & Hrel & Hrun)%bind_Ok_inv.
  apply release_frame in Hrel as (H1 & H2 & H3 & H4 & _).
  destruct b; [|injection Hrun as <-; auto].
  destruct (trigger th) as [|finding_player location]; [injection Hrun as <-; auto|].
  apply bind_Ok_inv in Hrun as ([data ctx2] & Hre & Hrun).
  apply bind_Ok_inv in Hrun as (data' & _ & Hrun).
  apply bind_Ok_inv in Hrun as (hint_parts & _ & Hrun).
  apply bind_Ok_inv in Hrun as (parts & _ & [= <-]).
  apply re_check_frame in Hre as (G1 & G2 & G3 & G4 & _).
  cbn [call_notify triggerable_hints indexes_FreeTrigger location_checks
       on_changed_triggerable_hints].
  repeat split; congruence.
Qed.

Lemma release_fold_frame (team : Z) (l : list TriggerableHint) :
  ∀ ctx ctx' : Context,
  foldM (λ ctx triggerable_hint, TriggerableHint_.release triggerable_hint ctx team) ctx l
    = Ok ctx' →
  indexes_FreeTrigger ctx' = indexes_FreeTrigger ctx.
Proof.
  induction l as [|th l IH]; intros ctx ctx' Hrun.
  - injection Hrun as <-. reflexivity.
  - rewrite foldM_cons in Hrun. apply bind_Ok_inv in Hrun as (ctx1 & Hstep & Hrun).
    apply triggerable_release_frame in Hstep as (_ & Hindex & _).
    rewrite (IH ctx1 ctx' Hrun). exact Hindex.
Qed.

Lemma triggerable_release_released (th : TriggerableHint) (ctx : Context) (team : Z) :
  released_in ctx team (hint th) → TriggerableHint_.release th ctx team = Ok ctx.
Proof.
  intros (d & Hget & Hd)%released_in_iff.
  unfold TriggerableHint_.release, TriggeredHint_.release.
  rewrite Hget. cbn [mbind result_bind].
  rewrite (bool_decide_eq_false_2 (release_state d = unreleased)) by exact Hd. reflexivity.
Qed.

Lemma release_fold_released (team : Z) (l : list TriggerableHint) (ctx : Context) :
  (∀ h, h ∈ hint <$> l → released_in ctx team h) →
  foldM (λ ctx triggerable_hint, TriggerableHint_.release triggerable_hint ctx team) ctx l
    = Ok ctx.
Proof.
  induction l as [|th l IH]; intros Hall; [reflexivity|].
  rewrite foldM_cons, triggerable_release_released by (apply Hall; left).
  cbn [mbind result_bind]. apply IH. intros h Hh. apply Hall. right. exact Hh.
Qed.

(** X25 (a release pass runs once): when
    [LocationTrigger.release_for_location_check] returns, every hint filed
    under the location is released, and the same call on the context it
    leaves returns this context unchanged; the same holds for
    [FreeTrigger.release_all] and the hints of the free index. *)
Theorem release_pass_runs_once (indexes : Indexes) (ctx ctx' : Context)
    (team player location : Z) :
  (release_for_location_check indexes ctx team player location = Ok ctx' →
   (∀ th, th ∈ index_get (indexes_LocationTrigger indexes) player location →
          released_in ctx' team (hint th)) ∧
   release_for_location_check indexes ctx' team player location = Ok ctx') ∧
  (FreeTrigger_release_all ctx team = Ok ctx' →
   (∀ th, th ∈ indexes_FreeTrigger ctx → released_in ctx' team (hint th)) ∧
   FreeTrigger_release_all ctx' team = Ok ctx').
Proof.
  split; intros Hrun.
  - unfold release_for_location_check in *.
    destruct (release_fold_spec team _ ctx ctx' Hrun) as (Hin & _ & _). split.
    + intros th Hth. apply Hin, list_elem_of_fmap_2, Hth.
    + apply release_fold_released, Hin.
  - unfold FreeTrigger_release_all in *.
    rewrite (release_fold_frame team _ ctx ctx' Hrun).
    destruct (release_fold_spec team _ ctx ctx' Hrun) as (Hin & _ & _). split.
    + intros th Hth. apply Hin, list_elem_of_fmap_2, Hth.
    + apply release_fold_released, Hin.
Qed.

Lemma release_pass_runs_once_witness :
  ∃ ctx',
    release_for_location_check (index_all ctx_unreleased no_indexes).2 ctx_unreleased 0 3 100
      = Ok ctx' ∧
    released_in ctx' 0 text_hint_a ∧
    release_for_location_check (index_all ctx_unreleased no_indexes).2 ctx' 0 3 100 = Ok ctx'.
Proof.
  eexists. split; [vm_compute; reflexivity|].
  match goal with
  | |- released_in ?c _ _ ∧ _ =>
      destruct (proj1 (release_pass_runs_once (index_all ctx_unreleased no_indexes).2
                         ctx_unreleased c 0 3 100)) as [Hreleased Hagain]
  end.
  - vm_compute. reflexivity.
  - split; [|exact Hagain].
    apply (Hreleased {| hint := text_hint_a; trigger := LocationTrigger 3 100 |}).
    vm_compute. left.
Defined.




(** ** Checked locations and the location sets *)





(** * The wire codec, both directions *)

Lemma json_ind' (P : json → Prop) :
  P JNull → (∀ b, P (JBool b)) → (∀ n, P (JInt n)) → (∀ s, P (JStr s)) →
  (∀ l, Forall P l → P (JArr l)) →
  (∀ members, Forall (λ kv, P kv.2) members → P (JObj members)) →
  ∀ j, P j.
Proof.
  intros Hnull Hbool Hint Hstr Harr Hobj. fix IH 1. intros [ | b | n | s | l | members ].
  - exact Hnull.
  - apply Hbool.
  - apply Hint.
  - apply Hstr.
  - apply Harr. induction l as [|x l IHl]; constructor; [apply IH | exact IHl].
  - apply Hobj. induction members as [|[k x] members IHl]; constructor; [apply IH | exact IHl].
Qed.

Lemma mapM_result_map {A B} (f : A → result B) (g : A → B) (l : list A) :
  Forall (λ x, f x = Ok (g x)) l → mapM_result f l = Ok (map g l).
Proof.
  induction 1 as [|x l Hx _ IH]; [reflexivity|].
  cbn [mapM_result map]. rewrite Hx, IH. reflexivity.
Qed.

Lemma forallb_Forall {A} (f : A → bool) (l : list A) :
  forallb f l = true ↔ Forall (λ x, f x = true) l.
Proof.
  induction l as [|x l IH]; cbn [forallb].
  - split; [constructor | reflexivity].
  - rewrite andb_true_iff, IH, Forall_cons. reflexivity.
Qed.

Lemma PyDict_get_None {K V} `{EqDecision K} (d : PyDict.t K V) (k : K) :
  PyDict.get d k = None ↔ k ∉ PyDict.keys d.
Proof.
  split.
  - intros Hnone Hin. apply PyDict_get_Some_of_key in Hin as [v Hv]. congruence.
  - intros Hnot. destruct (PyDict.get d k) as [v|] eqn:Hv; [|reflexivity].
    exfalso. apply Hnot. eapply PyDict_get_key, Hv.
Qed.

Lemma PyDict_keys_of_pairs {K V} `{EqDecision K} (l : list (K * V)) (k : K) :
  k ∈ PyDict.keys (PyDict.of_pairs l) ↔ k ∈ l.*1.
Proof.
  unfold PyDict.of_pairs.
  assert (Hgen : ∀ acc : PyDict.t K V,
            k ∈ PyDict.keys (foldl (λ d kv, PyDict.set d kv.1 kv.2) acc l)
            ↔ k ∈ PyDict.keys acc ∨ k ∈ l.*1).
  { induction l as [|[k0 v0] l IH]; intros acc; cbn [foldl fmap list_fmap fst snd].
    - split; [auto | intros [H|H]; [exact H | inversion H]].
    - rewrite IH, PyDict_keys_set_elem, elem_of_cons. tauto. }
  rewrite Hgen. split; [intros [H|H]; [inversion H | exact H] | auto].
Qed.

Lemma _object_hook_no_class (d : pydict) :
  PyDict.get d "class" = None → _object_hook (VDict d) = Ok (VDict d).
Proof. intros Hclass. unfold _object_hook. rewrite Hclass. reflexivity. Qed.

(** X28 (untyped data passes the decoder unchanged): a document none of whose
    objects has a member named [class] decodes without raising, to the value
    the JSON parser alone would build: arrays as lists and objects as
    dictionaries in which a repeated key keeps its first position and its
    last value. *)
Theorem decode_untyped_data (j : json) :
  no_class j = true → decode j = Ok (tree_value j).
Proof.
  induction j as [ | b | n | s | l IH | members IH ] using json_ind'; try reflexivity.
  - cbn [no_class tree_value]. intros Hl%forallb_Forall. rewrite decode_JArr.
    rewrite (mapM_result_map decode tree_value); [reflexivity|].
    rewrite Forall_forall in IH, Hl |- *. intros x Hx. apply IH, Hl; exact Hx.
  - cbn [no_class tree_value].
    intros [Hclass%negb_true_iff%bool_decide_eq_false Hl%forallb_Forall]%andb_true_iff.
    rewrite decode_JObj.
    rewrite (mapM_result_map _ (λ kv : string * json, (kv.1, tree_value kv.2))).
    + cbn [mbind result_bind]. apply _object_hook_no_class.
      apply PyDict_get_None. rewrite PyDict_keys_of_pairs.
      rewrite <- list_fmap_compose. exact Hclass.
    + rewrite Forall_forall in IH, Hl |- *. intros kv Hkv.
      rewrite (IH kv Hkv (Hl kv Hkv)). reflexivity.
Qed.

Lemma decode_untyped_data_witness :
  decode (JObj [("cmd", JStr "Say"); ("text", JArr [JInt 1; JNull]); ("cmd", JStr "Bounce")])
  = Ok (VDict [("cmd", VStr "Bounce"); ("text", VList [VInt 1; VNone])]).
Proof.
  apply (decode_untyped_data
           (JObj [("cmd", JStr "Say"); ("text", JArr [JInt 1; JNull]); ("cmd", JStr "Bounce")])).
  vm_compute. reflexivity.
Defined.

Lemma mapM_result_Ok_inv {A B} (f : A → result B) (l : list A) (ys : list B) :
  mapM_result f l = Ok ys → Forall2 (λ x y, f x = Ok y) l ys.
Proof.
  revert ys. induction l as [|x l IH]; intros ys; cbn [mapM_result].
  - intros [= <-]. constructor.
  - intros (y & Hy & (ys' & Hys & [= <-])%bind_Ok_inv)%bind_Ok_inv.
    constructor; [exact Hy | apply IH, Hys].
Qed.

Lemma PyDict_of_pairs_elem {K V} `{EqDecision K} (l : list (K * V)) (x : K * V) :
  x ∈ PyDict.of_pairs l → x ∈ l.
Proof.
  unfold PyDict.of_pairs.
  assert (Hgen : ∀ acc : PyDict.t K V,
            x ∈ foldl (λ d kv, PyDict.set d kv.1 kv.2) acc l → x ∈ acc ∨ x ∈ l).
  { induction l as [|[k0 v0] l IH]; intros acc; cbn [foldl fst snd]; [auto|].
    intros [[->|H]%PyDict_elem_set|H]%IH.
    - right. left.
    - left. exact H.
    - right. right. exact H. }
  intros [H|H]%Hgen; [inversion H | exact H].
Qed.

Lemma allowlist_defaults_recognized (name : string) (cls : NamedTupleClass) (f : string) :
  PyDict.get allowlist name = Some cls →
  only_recognized (default VNone (PyDict.get (_field_defaults cls) f)) = true.
Proof.
  unfold allowlist. simpl.
  repeat (destruct (decide _) as [<-|?];
          [intros [= <-]; simpl; try destruct (decide _); reflexivity|]).
  discriminate.
Qed.

Lemma _object_hook_only_recognized (d : pydict) (v : pyval) :
  Forall (λ kv, only_recognized kv.2 = true) d →
  _object_hook (VDict d) = Ok v → only_recognized v = true.
Proof.
  intros Hd Hrun.
  assert (Hsame : only_recognized (VDict d) = true) by (apply forallb_Forall, Hd).
  destruct (PyDict.get d "class") as [c|] eqn:Hclass.
  2: { rewrite (_object_hook_no_class d Hclass) in Hrun. injection Hrun as <-. exact Hsame. }
  unfold _object_hook, table_get in Hrun. rewrite Hclass in Hrun.
  cbn [default from_option id] in Hrun.
  destruct (unhashable_type c) eqn:Hhash; [discriminate Hrun|].
  cbn [mbind result_bind] in Hrun.
  destruct c as [ | b | n | s | l | l | d' | cls' fs ];
    try (injection Hrun as <-; exact Hsame).
  destruct (PyDict.get custom_hooks s) as [hook|] eqn:Hhook.
  - apply custom_hooks_inv in Hhook as [-> ->]. unfold get_any_version in Hrun.
    apply bind_Ok_inv in Hrun as (major & _ & Hrun).
    apply bind_Ok_inv in Hrun as (minor & _ & Hrun).
    apply bind_Ok_inv in Hrun as (build & _ & [= <-]). reflexivity.
  - destruct (PyDict.get allowlist s) as [cls|] eqn:Hcls;
      [|injection Hrun as <-; exact Hsame].
    pose proof (delete_undeclared_keys (_fields cls) [] d) as Hdel. cbn [app] in Hdel.
    rewrite Hdel in Hrun by (intros key Hkey; inversion Hkey).
    rewrite namedtuple_new_declared in Hrun.
    destruct (filter _ (_fields cls)); [|discriminate Hrun].
    injection Hrun as <-. cbn [only_recognized].
    destruct (allowlist_inv s cls Hcls) as (-> & _ & Hrec).
    rewrite bool_decide_eq_true_2 by exact Hrec. cbn [andb].
    apply forallb_Forall, Forall_forall. intros x Hx.
    apply list_elem_of_In, in_map_iff in Hx as (f & <- & _).
    destruct (PyDict.get d f) as [y|] eqn:Hy; cbn [default from_option id].
    + rewrite Forall_forall in Hd. apply (Hd (f, y)), PyDict_get_elem, Hy.
    + apply (allowlist_defaults_recognized s cls f Hcls).
Qed.

(** X29 (the decoder builds recognized shapes only): whatever document
    [decode] accepts, every named tuple in the value it returns, at any
    depth, is a [Version], a [NetworkPlayer], a [NetworkItem] or a
    [NetworkSlot]. *)
Theorem decode_builds_recognized_only (j : json) :
  ∀ v, decode j = Ok v → only_recognized v = true.
Proof.
  induction j as [ | b | n | s | l IH | members IH ] using json_ind';
    try (intros v [= <-]; reflexivity).
  - intros v. rewrite decode_JArr.
    destruct (mapM_result decode l) as [vs|e] eqn:Hvs; [|discriminate].
    intros [= <-]. cbn [only_recognized]. apply forallb_Forall.
    apply mapM_result_Ok_inv in Hvs. clear -IH Hvs.
    induction Hvs as [|x y l vs Hxy _ IHl]; constructor.
    + apply Forall_cons in IH as [Hx _]. apply Hx, Hxy.
    + apply IHl. apply Forall_cons in IH as [_ Hl]. exact Hl.
  - intros v. rewrite decode_JObj.
    intros (pairs & Hpairs & Hhook)%bind_Ok_inv.
    apply (_object_hook_only_recognized _ v) in Hhook; [exact Hhook|].
    apply Forall_forall. intros kv Hkv%PyDict_of_pairs_elem.
    apply mapM_result_Ok_inv in Hpairs. clear -IH Hpairs Hkv.
    induction Hpairs as [|x y l vs Hxy _ IHl]; [inversion Hkv|].
    apply Forall_cons in IH as [Hx Hl].
    apply elem_of_cons in Hkv as [->|Hkv]; [|apply IHl; assumption].
    apply bind_Ok_inv in Hxy as (w & Hw & [= <-]). apply Hx, Hw.
Qed.

Lemma decode_builds_recognized_only_witness :
  ∃ v, decode json_nested_item = Ok v ∧ only_recognized v = true.
Proof.
  eexists. split; [vm_compute; reflexivity|].
  apply (decode_builds_recognized_only json_nested_item). vm_compute. reflexivity.
Defined.

(** ** Encoding and decoding again *)

Lemma pyobj_ind' (P : pyobj → Prop) :
  P ONone → (∀ b, P (OBool b)) → (∀ n, P (OInt n)) → (∀ s, P (OStr s)) →
  (∀ l, Forall P l → P (OList l)) →
  (∀ l, Forall P l → P (OTuple l)) →
  (∀ frozen l, Forall P l → P (OSet frozen l)) →
  (∀ d, Forall (λ kv, P kv.2) d → P (ODict d)) →
  (∀ cls fields, Forall (λ kv, P kv.2) fields → P (ONamedTuple cls fields)) →
  (∀ cls fields, Forall (λ kv, P kv.2) fields → P (ODataclass cls fields)) →
  ∀ o, P o.
Proof.
  intros Hnone Hbool Hint Hstr Hlist Htuple Hset Hdict Hnamed Hdata. fix IH 1.
  assert (Hl : ∀ l : list pyobj, Forall P l).
  { intros l. induction l as [|x l IHl]; constructor; [apply IH | exact IHl]. }
  assert (Hd : ∀ d : list (string * pyobj), Forall (λ kv, P kv.2) d).
  { intros d. induction d as [|[k x] d IHd]; constructor; [apply IH | exact IHd]. }
  intros [ | b | n | s | l | l | frozen l | d | cls fields | cls fields ].
  - exact Hnone.
  - apply Hbool.
  - apply Hint.
  - apply Hstr.
  - apply Hlist, Hl.
  - apply Htuple, Hl.
  - apply Hset, Hl.
  - apply Hdict, Hd.
  - apply Hnamed, Hd.
  - apply Hdata, Hd.
Qed.

Lemma _encode_list (l : list pyobj) :
  _encode (OList l) = JArr <$> mapM_result _encode l.
Proof.
  cbn [_encode]. f_equal. induction l as [|x l IH]; [reflexivity|].
  cbn [mapM_result]. rewrite IH. reflexivity.
Qed.

Lemma _encode_tuple (l : list pyobj) :
  _encode (OTuple l) = JArr <$> mapM_result _encode l.
Proof. apply _encode_list. Qed.

Lemma _encode_dict (d : list (string * pyobj)) :
  _encode (ODict d) =
  JObj <$> mapM_result (λ kv : string * pyobj, j ← _encode kv.2; Ok (kv.1, j)) d.
Proof.
  cbn [_encode]. f_equal. induction d as [|[k x] d IH]; [reflexivity|].
  cbn [mapM_result fst snd]. rewrite IH.
  destruct (_encode x); cbn [mbind result_bind]; [|reflexivity].
  destruct (mapM_result _ d); reflexivity.
Qed.

Lemma mapM_result_fmap {A B C} (f : B → result C) (g : A → B) (l : list A) :
  mapM_result f (map g l) = mapM_result (λ x, f (g x)) l.
Proof.
  induction l as [|x l IH]; [reflexivity|]. cbn [map mapM_result]. rewrite IH. reflexivity.
Qed.

Lemma mapM_result_ext_Forall {A B} (f g : A → result B) (l : list A) :
  Forall (λ x, f x = g x) l → mapM_result f l = mapM_result g l.
Proof.
  induction 1 as [|x l Hx _ IH]; [reflexivity|]. cbn [mapM_result]. rewrite Hx, IH. reflexivity.
Qed.

Lemma mapM_result_app {A B} (f : A → result B) (l1 l2 : list A) :
  mapM_result f (l1 ++ l2)%list =
  mapM_result f l1 ≫= λ ys1, mapM_result f l2 ≫= λ ys2, Ok (ys1 ++ ys2)%list.
Proof.
  induction l1 as [|x l1 IH]; cbn [app mapM_result mbind result_bind].
  - destruct (mapM_result f l2); reflexivity.
  - destruct (f x); cbn [mbind result_bind]; [|reflexivity]. rewrite IH.
    destruct (mapM_result f l1); cbn [mbind result_bind]; [|reflexivity].
    destruct (mapM_result f l2); reflexivity.
Qed.

Lemma keys_map_values {A B} (f : A → B) (d : list (string * A)) :
  (map (λ kv : string * A, (kv.1, f kv.2)) d).*1 = d.*1.
Proof. induction d as [|[k v] d IH]; [reflexivity|]. cbn. f_equal. exact IH. Qed.

Lemma PyDict_set_notin {K V} `{EqDecision K} (d : PyDict.t K V) (k : K) (v : V) :
  k ∉ PyDict.keys d → PyDict.set d k v = (d ++ [(k, v)])%list.
Proof.
  unfold PyDict.keys. induction d as [|[k0 v0] d IH]; cbn [PyDict.set app]; [reflexivity|].
  intros [Hne Hk]%not_elem_of_cons. cbn [fst] in Hne.
  rewrite decide_False by congruence. f_equal. apply IH, Hk.
Qed.

Lemma PyDict_of_pairs_NoDup {K V} `{EqDecision K} (l : list (K * V)) :
  NoDup l.*1 → PyDict.of_pairs l = l.
Proof.
  unfold PyDict.of_pairs.
  assert (Hgen : ∀ acc : PyDict.t K V,
            NoDup ((acc ++ l)%list).*1 →
            foldl (λ d kv, PyDict.set d kv.1 kv.2) acc l = (acc ++ l)%list).
  { induction l as [|[k v] l IH]; intros acc Hnd; cbn [foldl fst snd].
    - rewrite app_nil_r. reflexivity.
    - rewrite PyDict_set_notin.
      + rewrite IH; rewrite <- app_assoc; [reflexivity | exact Hnd].
      + rewrite fmap_app in Hnd. apply NoDup_app in Hnd as (_ & Hdis & _).
        intros Hk. apply (Hdis k Hk). left. }
  intros Hnd. apply (Hgen []). exact Hnd.
Qed.

Lemma list_passes (e : pyobj → result json) (l : list pyobj) :
  Forall (λ x, ∃ j, e x = Ok j ∧ decode j = Ok (received x)) l →
  ∃ js, mapM_result e l = Ok js ∧ mapM_result decode js = Ok (map received l).
Proof.
  induction 1 as [|x l (j & Hj & Hdec) _ (js & Hjs & Hdecs)].
  - exists []. split; reflexivity.
  - exists (j :: js). cbn [mapM_result map]. rewrite Hj, Hjs, Hdec, Hdecs.
    split; reflexivity.
Qed.

Lemma dict_passes (e : pyobj → result json) (d : list (string * pyobj)) :
  Forall (λ kv, ∃ j, e kv.2 = Ok j ∧ decode j = Ok (received kv.2)) d →
  ∃ members,
    mapM_result (λ kv : string * pyobj, j ← e kv.2; Ok (kv.1, j)) d = Ok members ∧
    mapM_result (λ kv : string * json, v ← decode kv.2; Ok (kv.1, v)) members
      = Ok (map (λ kv : string * pyobj, (kv.1, received kv.2)) d).
Proof.
  induction 1 as [|[k x] d (j & Hj & Hdec) _ (ms & Hms & Hdecs)].
  - exists []. split; reflexivity.
  - exists ((k, j) :: ms). cbn [mapM_result map fst snd] in *.
    rewrite Hj, Hms, Hdec. cbn [mbind result_bind fst snd]. rewrite Hdecs.
    split; reflexivity.
Qed.

Lemma passes_plain_dict (pairs : pydict) :
  NoDup pairs.*1 → "class" ∉ pairs.*1 →
  _object_hook (VDict (PyDict.of_pairs pairs)) = Ok (VDict pairs).
Proof.
  intros Hnd Hclass. rewrite (PyDict_of_pairs_NoDup pairs Hnd).
  apply _object_hook_no_class, PyDict_get_None, Hclass.
Qed.

Lemma plain_passes (o : pyobj) :
  plain_obj o = true → ∃ j, _encode o = Ok j ∧ decode j = Ok (received o).
Proof.
  induction o as [ | b | n | s | l IH | l IH | frozen l IH | d IH | cls fields IH
                 | cls fields IH ] using pyobj_ind';
    try discriminate; try (intros _; eexists; split; reflexivity).
  - cbn [plain_obj]. intros Hl%forallb_Forall.
    destruct (list_passes _encode l) as (js & Hjs & Hdec).
    { rewrite Forall_forall in IH, Hl |- *. intros x Hx. apply IH, Hl; exact Hx. }
    exists (JArr js). rewrite _encode_list, Hjs, decode_JArr, Hdec. split; reflexivity.
  - cbn [plain_obj]. intros Hl%forallb_Forall.
    destruct (list_passes _encode l) as (js & Hjs & Hdec).
    { rewrite Forall_forall in IH, Hl |- *. intros x Hx. apply IH, Hl; exact Hx. }
    exists (JArr js). rewrite _encode_tuple, Hjs, decode_JArr, Hdec. split; reflexivity.
  - cbn [plain_obj].
    intros [[Hnd%bool_decide_eq_true Hclass%negb_true_iff%bool_decide_eq_false]%andb_true_iff
              Hl%forallb_Forall]%andb_true_iff.
    destruct (dict_passes _encode d) as (ms & Hms & Hdec).
    { rewrite Forall_forall in IH, Hl |- *. intros x Hx. apply IH, Hl; exact Hx. }
    exists (JObj ms). rewrite _encode_dict, Hms, decode_JObj, Hdec.
    split; [reflexivity|]. cbn [mbind result_bind received].
    apply passes_plain_dict; rewrite keys_map_values; assumption.
Qed.

Lemma plain_asdict (o : pyobj) : plain_obj o = true → asdict_inner o = o.
Proof.
  induction o as [ | b | n | s | l IH | l IH | frozen l IH | d IH | cls fields IH
                 | cls fields IH ] using pyobj_ind';
    try discriminate; try reflexivity.
  - cbn [plain_obj asdict_inner]. intros Hl%forallb_Forall. f_equal.
    rewrite <- (map_id l) at 2. apply map_ext_in. intros x Hx%list_elem_of_In.
    rewrite Forall_forall in IH, Hl. apply IH, Hl; exact Hx.
  - cbn [plain_obj asdict_inner]. intros Hl%forallb_Forall. f_equal.
    rewrite <- (map_id l) at 2. apply map_ext_in. intros x Hx%list_elem_of_In.
    rewrite Forall_forall in IH, Hl. apply IH, Hl; exact Hx.
  - cbn [plain_obj asdict_inner]. intros [_ Hl%forallb_Forall]%andb_true_iff. f_equal.
    rewrite <- (map_id d) at 2. apply map_ext_in. intros [k x] Hx%list_elem_of_In.
    rewrite Forall_forall in IH, Hl. cbn [fst snd]. f_equal.
    exact (IH (k, x) Hx (Hl (k, x) Hx)).
Qed.

Lemma plain_scan (o : pyobj) :
  plain_obj o = true → _encode (_scan_for_TypedTuples o) = _encode o.
Proof.
  induction o as [ | b | n | s | l IH | l IH | frozen l IH | d IH | cls fields IH
                 | cls fields IH ] using pyobj_ind';
    try discriminate; try reflexivity.
  - cbn [plain_obj _scan_for_TypedTuples]. intros Hl%forallb_Forall.
    rewrite _encode_tuple, _encode_list, mapM_result_fmap. f_equal.
    apply mapM_result_ext_Forall. rewrite Forall_forall in IH, Hl |- *.
    intros x Hx. apply IH, Hl; exact Hx.
  - cbn [plain_obj _scan_for_TypedTuples]. intros Hl%forallb_Forall.
    rewrite !_encode_tuple, mapM_result_fmap. f_equal.
    apply mapM_result_ext_Forall. rewrite Forall_forall in IH, Hl |- *.
    intros x Hx. apply IH, Hl; exact Hx.
  - cbn [plain_obj _scan_for_TypedTuples]. intros [_ Hl%forallb_Forall]%andb_true_iff.
    rewrite !_encode_dict, mapM_result_fmap. f_equal.
    apply mapM_result_ext_Forall. rewrite Forall_forall in IH, Hl |- *.
    intros [k x] Hx. cbn [fst snd]. pose proof (IH (k, x) Hx (Hl (k, x) Hx)) as E.
    cbn [snd] in E. rewrite E. reflexivity.
Qed.

Lemma allowlist_fields (name : string) (cls : NamedTupleClass) :
  PyDict.get allowlist name = Some cls → NoDup (_fields cls) ∧ "class" ∉ _fields cls.
Proof.
  unfold allowlist. simpl.
  repeat (destruct (decide _) as [<-|?];
          [intros [= <-]; split; apply (bool_decide_unpack _); vm_compute; exact I|]).
  discriminate.
Qed.

Lemma PyDict_get_values {V} (g : string → V) (l suffix : PyDict.t string V) :
  NoDup l.*1 →
  map (λ k, default (g k) (PyDict.get (l ++ suffix)%list k)) l.*1 = l.*2.
Proof.
  induction l as [|[k v] l IH]; [reflexivity|].
  cbn [fmap list_fmap fst snd map app PyDict.get].
  intros [Hk Hnd]%NoDup_cons. rewrite decide_True by reflexivity.
  cbn [default from_option id]. f_equal. rewrite <- (IH Hnd).
  apply map_ext_in. intros k' Hk'%list_elem_of_In.
  rewrite decide_False; [reflexivity|]. intros ->. exact (Hk Hk').
Qed.

(** A dictionary of plain fields with the name of a class under [class]. *)
Lemma tagged_passes (cls : string) (fields : list (string * pyobj)) :
  NoDup fields.*1 → "class" ∉ fields.*1 →
  Forall (λ kv, plain_obj kv.2 = true) fields →
  ∃ j, _encode (ODict (PyDict.set fields "class" (OStr cls))) = Ok j ∧
       decode j =
       _object_hook (VDict (map (λ kv : string * pyobj, (kv.1, received kv.2)) fields
                            ++ [("class", VStr cls)])%list).
Proof.
  intros Hnd Hclass Hplain.
  rewrite (PyDict_set_notin fields "class" (OStr cls)) by exact Hclass.
  destruct (dict_passes _encode fields) as (ms & Hms & Hdec).
  { eapply Forall_impl; [exact Hplain|]. intros kv Hkv. apply plain_passes, Hkv. }
  exists (JObj (ms ++ [("class", JStr cls)])%list).
  rewrite _encode_dict, mapM_result_app, Hms. split; [reflexivity|].
  rewrite decode_JObj, mapM_result_app, Hdec. cbn [mbind result_bind mapM_result fst snd decode].
  rewrite PyDict_of_pairs_NoDup; [reflexivity|].
  rewrite fmap_app, keys_map_values. cbn [fmap list_fmap fst].
  apply NoDup_app. split; [exact Hnd|]. split; [|apply NoDup_singleton].
  intros k Hk ->%list_elem_of_singleton. exact (Hclass Hk).
Qed.

Lemma named_tuple_rebuilt (name : string) (cls : NamedTupleClass)
    (fields : list (string * pyobj)) :
  PyDict.get allowlist name = Some cls → fields.*1 = _fields cls →
  _object_hook (VDict (map (λ kv : string * pyobj, (kv.1, received kv.2)) fields
                       ++ [("class", VStr name)])%list)
  = Ok (VNamedTuple name (map (λ kv, received kv.2) fields)).
Proof.
  intros Hcls Hfields.
  destruct (allowlist_fields name cls Hcls) as [Hnd Hclass].
  destruct (allowlist_inv name cls Hcls) as (Hname & _).
  set (pairs := map (λ kv : string * pyobj, (kv.1, received kv.2)) fields).
  assert (Hkeys : pairs.*1 = _fields cls).
  { unfold pairs. rewrite keys_map_values. exact Hfields. }
  rewrite (_object_hook_allowlisted name cls _ Hcls).
  2: { rewrite PyDict_get_app_notin.
       - cbn. rewrite decide_True by reflexivity. reflexivity.
       - unfold PyDict.keys. rewrite Hkeys. exact Hclass. }
  rewrite namedtuple_new_declared.
  rewrite filter_none.
  2: { intros f Hf [Hnone _]. apply PyDict_get_None in Hnone. apply Hnone.
       unfold PyDict.keys. rewrite fmap_app, Hkeys. apply elem_of_app. left. exact Hf. }
  rewrite Hname. do 2 f_equal.
  rewrite <- Hkeys.
  rewrite (PyDict_get_values _ pairs) by (rewrite Hkeys; exact Hnd).
  unfold pairs. clear. induction fields as [|[k v] fields IH]; [reflexivity|].
  cbn. f_equal. exact IH.
Qed.

(** X30 (what arrives after [encode] and [decode]): for data that passes the
    codec, [encode] does not raise and [decode] of what it produces returns
    the value [received] describes: an allowlisted named tuple arrives as a
    named tuple of the same class with its field values, each rebuilt the
    same way; lists, tuples and sets arrive as lists; a dataclass instance
    of an unrecognized class arrives as the dictionary of its fields with its
    class name added, not as an instance. *)
Theorem encode_decode_round_trip (o : pyobj) :
  wire_obj o = true → ∃ j, encode o = Ok j ∧ decode j = Ok (received o).
Proof.
  unfold encode.
  induction o as [ | b | n | s | l IH | l IH | frozen l IH | d IH | cls fields IH
                 | cls fields IH ] using pyobj_ind';
    try (intros _; eexists; split; reflexivity).
  - cbn [wire_obj _scan_for_TypedTuples]. intros Hl%forallb_Forall.
    destruct (list_passes (λ x, _encode (_scan_for_TypedTuples x)) l) as (js & Hjs & Hdec).
    { rewrite Forall_forall in IH, Hl |- *. intros x Hx. apply IH, Hl; exact Hx. }
    exists (JArr js). rewrite _encode_tuple, mapM_result_fmap, Hjs, decode_JArr, Hdec.
    split; reflexivity.
  - cbn [wire_obj _scan_for_TypedTuples]. intros Hl%forallb_Forall.
    destruct (list_passes (λ x, _encode (_scan_for_TypedTuples x)) l) as (js & Hjs & Hdec).
    { rewrite Forall_forall in IH, Hl |- *. intros x Hx. apply IH, Hl; exact Hx. }
    exists (JArr js). rewrite _encode_tuple, mapM_result_fmap, Hjs, decode_JArr, Hdec.
    split; reflexivity.
  - cbn [wire_obj _scan_for_TypedTuples]. intros Hl%forallb_Forall.
    destruct (list_passes (λ x, _encode (_scan_for_TypedTuples x)) l) as (js & Hjs & Hdec).
    { rewrite Forall_forall in IH, Hl |- *. intros x Hx. apply IH, Hl; exact Hx. }
    exists (JArr js). rewrite _encode_tuple, mapM_result_fmap, Hjs, decode_JArr, Hdec.
    split; reflexivity.
  - cbn [wire_obj _scan_for_TypedTuples].
    intros [[Hnd%bool_decide_eq_true Hclass%negb_true_iff%bool_decide_eq_false]%andb_true_iff
              Hl%forallb_Forall]%andb_true_iff.
    destruct (dict_passes (λ x, _encode (_scan_for_TypedTuples x)) d) as (ms & Hms & Hdec).
    { rewrite Forall_forall in IH, Hl |- *. intros x Hx. apply IH, Hl; exact Hx. }
    exists (JObj ms). rewrite _encode_dict, mapM_result_fmap. cbn [fst snd].
    rewrite Hms, decode_JObj, Hdec.
    split; [reflexivity|]. cbn [mbind result_bind received].
    apply passes_plain_dict; rewrite keys_map_values; assumption.
  - cbn [wire_obj _scan_for_TypedTuples].
    destruct (PyDict.get allowlist cls) as [c|] eqn:Hcls; [|discriminate].
    intros [Hfields%bool_decide_eq_true Hplain%forallb_Forall]%andb_true_iff.
    destruct (allowlist_fields cls c Hcls) as [Hnd Hclass].
    rewrite <- Hfields in Hnd, Hclass.
    destruct (tagged_passes cls fields Hnd Hclass Hplain) as (j & Hj & Hdec).
    exists j. split; [exact Hj|]. rewrite Hdec.
    apply (named_tuple_rebuilt cls c fields Hcls Hfields).
  - cbn [wire_obj _scan_for_TypedTuples].
    intros [[[Hname%negb_true_iff%bool_decide_eq_false Hnd%bool_decide_eq_true]%andb_true_iff
               Hclass%negb_true_iff%bool_decide_eq_false]%andb_true_iff
              Hplain%forallb_Forall]%andb_true_iff.
    assert (Hasdict : map (λ kv : string * pyobj, (kv.1, asdict_inner kv.2)) fields = fields).
    { rewrite <- (map_id fields) at 2. apply map_ext_in. intros [k x] Hx%list_elem_of_In.
      rewrite Forall_forall in Hplain. cbn [fst snd]. f_equal.
      exact (plain_asdict x (Hplain (k, x) Hx)). }
    rewrite Hasdict.
    destruct (tagged_passes cls fields Hnd Hclass Hplain) as (j & Hj & Hdec).
    exists j. split; [exact Hj|]. rewrite Hdec. cbn [received].
    apply _object_hook_unknown_plain.
    + rewrite PyDict_get_app_notin.
      * cbn. rewrite decide_True by reflexivity. reflexivity.
      * unfold PyDict.keys. rewrite keys_map_values. exact Hclass.
    + intros name. rewrite PyDict_get_app_notin.
      * cbn. rewrite decide_True by reflexivity. intros [= <-]. exact Hname.
      * unfold PyDict.keys. rewrite keys_map_values. exact Hclass.
Qed.

Lemma encode_decode_round_trip_witness :
  ∃ j, encode wire_slot_in_packet = Ok j ∧
       decode j = Ok (VDict [ ("cmd", VStr "Connected");
                              ("slot_info",
                               VList [ VNamedTuple "NetworkSlot"
                                         [VStr "Alice"; VStr "Zelda"; VInt 1; VList []] ]) ]).
Proof.
  apply (encode_decode_round_trip wire_slot_in_packet). vm_compute. reflexivity.
Defined.

(** A named tuple is sent as the dictionary of its fields, tagged with the
    name of its class. *)
Example encode_network_item :
  encode wire_network_item
  = Ok (JObj [ ("item", JInt 5); ("location", JInt 100); ("player", JInt 2);
               ("flags", JInt 1); ("class", JStr "NetworkItem") ]).
Proof. vm_compute. reflexivity. Qed.

(** A hint is a dataclass; it is sent tagged and arrives as a dictionary. *)
Example text_hint_arrives_as_dict :
  encode wire_text_hint ≫= decode
  = Ok (VDict [ ("player", VInt 1); ("text", VStr "a"); ("class", VStr "TextHint") ]).
Proof. vm_compute. reflexivity. Qed.

(** The fields of a named tuple are not scanned: a set in a field reaches the
    JSON encoder, which rejects it, while a set outside is sent as an array. *)
Example encode_set_in_field_raises :
  encode (ONamedTuple "NetworkSlot"
            [ ("name", OStr "Alice"); ("game", OStr "Zelda"); ("type", OInt 2);
              ("group_members", OSet false [OInt 1; OInt 2]) ])
  = Raise (TypeError "Object of type set is not JSON serializable") ∧
  encode (ODict [ ("group_members", OSet false [OInt 1; OInt 2]) ])
  = Ok (JObj [ ("group_members", JArr [JInt 1; JInt 2]) ]).
Proof. vm_compute. split; reflexivity. Qed.
